(** * warp2api: the account pool and its session broker

    A shallow embedding of the credential-pool core of the repository:

    - [QuotaTracker]   account_pool/quota_tracker.py
    - [PoolService]    account-pool-service/main.py (the REST handlers)
    - [BatchRegister]  account_pool/batch_register.py
    - [PoolAuth]       warp2protobuf/core/pool_auth.py (the broker)
    - [QuotaReport], [PoolServiceQuota], [PoolServiceOps], [MailUsers]
                       the reports of the quota tracker and the other
                       handlers of main.py
    - [AccountReleaser]    account-pool-service/release_all_accounts.py
    - [BatchRegisterSync]  the synchronous path of batch_register.py
    - [PoolAuthApi]    the module-level entry points of pool_auth.py
    - [Deployment]     the broker talking to the mark handler

    Log lines, [print]s and the human-readable [message] texts are left
    out; everything that decides a return value, a row of the accounts
    table or a request on the wire is kept. *)

From Stdlib Require Import ZArith List String Bool Lia.
From Stdlib Require Import Permutation Sorted.
Import ListNotations.
Open Scope string_scope.
Open Scope list_scope.
Open Scope Z_scope.

(** ** Python values shared by all modules *)

Module Py.

(** [if s:] on a [str]: the empty string is falsy. *)
Definition truthy (s : string) : bool :=
  match s with EmptyString => false | _ => true end.

(** [if x:] on an [Optional[str]]: [None] and the empty string are falsy. *)
Definition truthy_opt (o : option string) : bool :=
  match o with Some s => truthy s | None => false end.

(** Exceptions, by class. *)
Inductive Exn : Type :=
| RuntimeError (msg : string)
| TypeError
| AttributeError
| TimeoutError
| ConnectError
| JSONDecodeError
| OperationalError
| IntegrityError.

(** The outcome of an expression that may raise. *)
Inductive Result (A : Type) : Type :=
| Ok (a : A)
| Raised (e : Exn).
Arguments Ok {A} a.
Arguments Raised {A} e.

Definition bind {A B} (r : Result A) (k : A -> Result B) : Result B :=
  match r with Ok a => k a | Raised e => Raised e end.

(** [datetime] values, as microseconds since the epoch (the resolution
    of [datetime.now()]); [timedelta(days=d)] in the same unit. *)
Definition datetime := Z.
Definition timedelta_days (d : Z) : Z := d * 86400 * 1000000.

(** A [Dict[str, str]]; [dict_get] is [d.get(key)]. *)
Definition Dict := list (string * string).

Fixpoint dict_get (d : Dict) (key : string) : option string :=
  match d with
  | [] => None
  | (k, v) :: rest => if String.eqb k key then Some v else dict_get rest key
  end.

End Py.

Notation "x <- r ;;; k" := (Py.bind r (fun x => k))
  (at level 61, r at next level, right associativity).

(** ** The accounts table *)

Module Accounts.
Import Py.

(** One row of the [accounts] table (the persisted schema). *)
Record Row : Type := mkRow {
  email : string;
  local_id : string;
  id_token : string;
  refresh_token : string;
  status : string;
  session_id : option string;
  use_count : Z;
  created_at : option datetime;
  last_used : option datetime;
  last_refresh_time : option datetime;
  quota_exhausted_at : option datetime
}.

Definition Table := list Row.

(** [UPDATE accounts SET ... WHERE ...]: every row the predicate selects
    is rewritten; [cursor.rowcount] is the number of rows selected. *)
Definition sql_update (where_ : Row -> bool) (set_ : Row -> Row)
    (t : Table) : Table :=
  map (fun r => if where_ r then set_ r else r) t.

Definition sql_rowcount (where_ : Row -> bool) (t : Table) : Z :=
  Z.of_nat (List.length (filter where_ t)).

(** [SELECT email FROM accounts WHERE ...]. *)
Definition sql_select_email (where_ : Row -> bool) (t : Table) : list string :=
  map email (filter where_ t).

(** [column < ?] on a nullable timestamp column: a NULL never matches. *)
Definition sql_lt (col : option datetime) (bound : datetime) : bool :=
  match col with Some v => v <? bound | None => false end.

(** The behaviour of the [sqlite3] layer underneath one call: which of
    [connect], [execute] and [commit] raises.  A statement executed on a
    connection that is never committed leaves the table as it was. *)
Record Sqlite3 : Type := mkSqlite3 {
  connect_raises : bool;
  execute_raises : bool;
  commit_raises : bool
}.

Definition healthy : Sqlite3 := mkSqlite3 false false false.

Definition connect (db : Sqlite3) : Result unit :=
  if connect_raises db then Raised OperationalError else Ok tt.

Definition execute {A} (db : Sqlite3) (a : A) : Result A :=
  if execute_raises db then Raised OperationalError else Ok a.

Definition commit (db : Sqlite3) : Result unit :=
  if commit_raises db then Raised OperationalError else Ok tt.

End Accounts.

(** ** account_pool/quota_tracker.py *)

Module QuotaTracker.
Import Py Accounts.

(** [self.quota_reset_days = 30] *)
Definition quota_reset_days : Z := 30.

(** The [SET] clause of [mark_account_quota_exhausted]. *)
Definition set_quota_exhausted (now : datetime) (r : Row) : Row :=
  mkRow (email r) (local_id r) (id_token r) (refresh_token r)
        "quota_exhausted" None (use_count r)
        (created_at r) (last_used r) (last_refresh_time r) (Some now).

(** [QuotaTracker.mark_account_quota_exhausted(email)], with
    [now = datetime.now()]; returns the flag and the table afterwards. *)
Definition mark_account_quota_exhausted (db : Sqlite3) (now : datetime)
    (email_ : string) (t : Table) : bool * Table :=
  let where_ := fun r => String.eqb (email r) email_ in
  match
    (_ <- connect db ;;;
     work <- execute db (sql_update where_ (set_quota_exhausted now) t) ;;;
     let affected := sql_rowcount where_ t in
     _ <- commit db ;;;
     Ok (affected, work))
  with
  | Ok (affected, t') => if affected >? 0 then (true, t') else (false, t')
  | Raised _ => (false, t)
  end.

(** The [WHERE] clause shared by the two statements of
    [reset_expired_quotas]. *)
Definition expired (reset_threshold : datetime) (r : Row) : bool :=
  String.eqb (status r) "quota_exhausted"
  && sql_lt (quota_exhausted_at r) reset_threshold.

(** Its [SET] clause. *)
Definition set_available (r : Row) : Row :=
  mkRow (email r) (local_id r) (id_token r) (refresh_token r)
        "available" (session_id r) (use_count r)
        (created_at r) (last_used r) (last_refresh_time r) None.

(** [QuotaTracker.reset_expired_quotas()]; returns the reset count and the
    table afterwards. *)
Definition reset_expired_quotas (db : Sqlite3) (now : datetime)
    (t : Table) : Z * Table :=
  match
    (_ <- connect db ;;;
     let reset_threshold := now - timedelta_days quota_reset_days in
     accounts_to_reset <-
       execute db (sql_select_email (expired reset_threshold) t) ;;;
     match accounts_to_reset with
     | _ :: _ =>
         work <-
           execute db (sql_update (expired reset_threshold) set_available t) ;;;
         let reset_count := sql_rowcount (expired reset_threshold) t in
         _ <- commit db ;;;
         Ok (reset_count, work)
     | [] => Ok (0, t)
     end)
  with
  | Ok (n, t') => (n, t')
  | Raised _ => (0, t)
  end.

End QuotaTracker.

(** ** account-pool-service/main.py: the REST handlers *)

Module PoolService.
Import Py Accounts.

(** What a handler hands back to FastAPI: a body, or an [HTTPException]
    with its status code. *)
Inductive Response (A : Type) : Type :=
| Returned (body : A)
| HTTPException (status_code : Z).
Arguments Returned {A} body.
Arguments HTTPException {A} status_code.

(** [AllocateAccountRequest]: [session_id: Optional[str]] and
    [count: Optional[int] = Field(1, ge=1, le=10)]. *)
Record AllocateAccountRequest : Type := mkAllocateAccountRequest {
  req_session_id : option string;
  req_count : Z
}.

(** The bounds pydantic enforces on [count] before the handler runs. *)
Definition valid_request (r : AllocateAccountRequest) : Prop :=
  1 <= req_count r <= 10.

(** [AccountInfo]: the row without its quota column. *)
Record AccountInfo : Type := mkAccountInfo {
  info_email : string;
  info_local_id : string;
  info_id_token : string;
  info_refresh_token : string;
  info_status : string;
  info_created_at : option datetime;
  info_last_used : option datetime;
  info_last_refresh_time : option datetime;
  info_use_count : Z;
  info_session_id : option string
}.

Definition account_info (acc : Row) : AccountInfo :=
  mkAccountInfo (email acc) (local_id acc) (id_token acc) (refresh_token acc)
    (status acc) (created_at acc) (last_used acc) (last_refresh_time acc)
    (use_count acc) (session_id acc).

(** [AllocateAccountResponse]; [session_id: str] is not optional. *)
Record AllocateAccountResponse : Type := mkAllocateAccountResponse {
  success : bool;
  resp_session_id : string;
  accounts : list AccountInfo
}.

(** The pool manager the handlers call.  account_pool/pool_manager.py is
    not among the sources, so the object is a parameter of the handlers:
    its state type [S], its [_running] flag and its
    [allocate_accounts_for_request(request_id=...)], which may raise,
    return [None], or return a list of accounts. *)
Record PoolManager (S : Type) : Type := mkPoolManager {
  _running : S -> bool;
  allocate_accounts_for_request :
    option string -> S -> Result (option (list Row)) * S
}.
Arguments mkPoolManager {S} _ _.
Arguments _running {S} p _.
Arguments allocate_accounts_for_request {S} p _ _.

(** [request.session_id or ""] *)
Definition or_empty (o : option string) : string :=
  match o with
  | Some s => if truthy s then s else EmptyString
  | None => EmptyString
  end.

(** [POST /api/accounts/allocate] *)
Definition allocate_accounts {S : Type} (pool_manager : option (PoolManager S))
    (request : AllocateAccountRequest) (st : S)
    : Response AllocateAccountResponse * S :=
  match pool_manager with
  | None => (HTTPException 503, st)
  | Some pm =>
      if negb (_running pm st) then (HTTPException 503, st)
      else
        match allocate_accounts_for_request pm (req_session_id request) st with
        | (Raised _, st') => (HTTPException 500, st')
        | (Ok None, st') | (Ok (Some []), st') =>
            (Returned (mkAllocateAccountResponse false
                         (or_empty (req_session_id request)) []), st')
        | (Ok (Some ((acc0 :: _) as accs)), st') =>
            let account_list := map account_info accs in
            match session_id acc0 with
            | Some actual_session_id =>
                (Returned (mkAllocateAccountResponse true actual_session_id
                             account_list), st')
            | None => (HTTPException 500, st')   (* response validation *)
            end
        end
  end.

(** The body of [POST /api/accounts/mark_quota_exhausted]. *)
Record MarkResponse : Type := mkMarkResponse { mark_success : bool }.

(** [POST /api/accounts/mark_quota_exhausted]; the tracker never raises,
    so the handler's own [except] clause has nothing to catch. *)
Definition mark_quota_exhausted (db : Sqlite3) (now : datetime)
    (request : Dict) (t : Table) : Response MarkResponse * Table :=
  match dict_get request "email" with
  | None => (HTTPException 400, t)
  | Some email_ =>
      if negb (truthy email_) then (HTTPException 400, t)
      else
        let (ok, t') :=
          QuotaTracker.mark_account_quota_exhausted db now email_ t in
        if ok then (Returned (mkMarkResponse true), t')
        else (Returned (mkMarkResponse false), t')
  end.

End PoolService.

(** ** account_pool/batch_register.py *)

Module BatchRegister.
Import Py Accounts.

(** An HTTP exchange as the caller sees it: the request raised, or a
    status code came back with a body that parses as JSON or does not. *)
Inductive HttpReply (B : Type) : Type :=
| NetworkFailure
| Reply (status_code : Z) (json : option B).
Arguments NetworkFailure {B}.
Arguments Reply {B} status_code json.

(** [result['final_tokens']] of a registration. *)
Record FinalTokens : Type := mkFinalTokens {
  ft_success : bool;
  ft_email : string;
  ft_local_id : string;
  ft_id_token : string;
  ft_refresh_token : string
}.

(** The dictionary [run_complete_registration()] returns, by the keys the
    caller reads. *)
Record Registration : Type := mkRegistration {
  reg_success : bool;
  final_tokens : option FinalTokens;
  email_info : bool;
  signin_success : bool;
  email_result : bool
}.

(** [data.getOrCreateUser] of the activation reply. *)
Record ActivationBody : Type := mkActivationBody { act_typename : string }.

(** [requestLimitInfo] of the quota reply, by the two keys that decide
    the result.  [None] is JSON's null; a missing [requestLimit] reads
    as null, a missing [requestsUsedSinceLastRefresh] as 0. *)
Record RequestLimitInfo : Type := mkRequestLimitInfo {
  info_requestLimit : option Z;
  info_requestsUsedSinceLastRefresh : option Z
}.

(** [data.user] of the quota reply; [limit_info] is [None] when
    [requestLimitInfo] is missing, null or empty. *)
Record LimitBody : Type := mkLimitBody {
  has_errors : bool;
  user_typename : string;
  limit_info : option RequestLimitInfo
}.

(** What the outside world does during one attempt. *)
Record Attempt : Type := mkAttempt {
  started_at : Z;      (* seconds *)
  duration : Z;        (* seconds the worker spends in the attempt *)
  registration : Result Registration;
  activation_reply : HttpReply ActivationBody;
  limit_reply : HttpReply LimitBody
}.

(** [_activate_warp_user(id_token)]: the [success] key of its result. *)
Definition _activate_warp_user (id_token_ : string)
    (reply : HttpReply ActivationBody) : bool :=
  if negb (truthy id_token_) then false
  else
    match reply with
    | NetworkFailure => false
    | Reply status_code json =>
        if status_code =? 200 then
          match json with
          | Some body => String.eqb (act_typename body) "GetOrCreateUserOutput"
          | None => false
          end
        else false
    end.

(** The dictionary [_get_request_limit] returns. *)
Record LimitResult : Type := mkLimitResult {
  limit_success : bool;
  requestLimit : option Z
}.

(** [request_limit - requests_used if request_limit else None]: a null
    or zero [requestLimit] skips the subtraction, which raises
    [TypeError] when [requestsUsedSinceLastRefresh] is null. *)
Definition requests_remaining (info : RequestLimitInfo) : Result (option Z) :=
  match info_requestLimit info with
  | Some request_limit =>
      if request_limit =? 0 then Ok None
      else
        match info_requestsUsedSinceLastRefresh info with
        | Some requests_used => Ok (Some (request_limit - requests_used))
        | None => Raised TypeError
        end
  | None => Ok None
  end.

(** [_get_request_limit(id_token)].  The outer [None] is Python's [None]:
    the [UserOutput] branch has no [return] when [limit_info] is falsy;
    what the branch raises is caught by the function's own [except]. *)
Definition _get_request_limit (id_token_ : string)
    (reply : HttpReply LimitBody) : option LimitResult :=
  if negb (truthy id_token_) then Some (mkLimitResult false None)
  else
    match reply with
    | NetworkFailure => Some (mkLimitResult false None)
    | Reply status_code json =>
        if status_code =? 200 then
          match json with
          | None => Some (mkLimitResult false None)
          | Some body =>
              if has_errors body then Some (mkLimitResult false None)
              else if String.eqb (user_typename body) "UserOutput" then
                match limit_info body with
                | Some info =>
                    match requests_remaining info with
                    | Ok _ => Some (mkLimitResult true (info_requestLimit info))
                    | Raised _ => Some (mkLimitResult false None)
                    end
                | None => None
                end
              else Some (mkLimitResult false None)
          end
        else Some (mkLimitResult false None)
    end.

(** Why an attempt failed (the [error] text, by case). *)
Inductive Failure : Type :=
| UnknownError
| MailboxFailed
| SigninFailed
| NoVerificationMail
| CompleteLoginFailed
| ActivationFailed
| RegistrationException
| TaskException.

(** The dictionary an attempt returns. *)
Record AttemptResult : Type := mkAttemptResult {
  res_success : bool;
  res_index : Z;
  res_email : option string;
  res_request_limit : option Z;
  res_error : option Failure
}.

(** Modelled from the spec: the [Account] class of
    account_pool/database.py is not among the sources.  A credential
    "enters as [available]", owned by no session and never used:
    [Account(email=..., local_id=..., id_token=..., refresh_token=...,
    status='available')]. *)
Definition Account (ft : FinalTokens) : Row :=
  mkRow (ft_email ft) (ft_local_id ft) (ft_id_token ft) (ft_refresh_token ft)
        "available" None 0 None None None None.

(** Modelled from the spec: account_pool/database.py is not among the
    sources.  [CredentialStore.add]: "fails with DuplicateKey if the
    identity already exists"; otherwise the row joins the table. *)
Definition add_account (account : Row) (t : Table) : Result Table :=
  if existsb (fun r => String.eqb (email r) (email account)) t
  then Raised IntegrityError
  else Ok (t ++ [account]).

(** [self.db]: any object with an [add_account] that may raise. *)
Definition Database := Row -> Table -> Result Table.

(** [_register_single_account(index)] *)
Definition _register_single_account (db : Database) (index : Z)
    (a : Attempt) (t : Table) : AttemptResult * Table :=
  let exception :=
    (mkAttemptResult false index None None (Some RegistrationException), t) in
  match registration a with
  | Raised _ => exception
  | Ok result =>
      if reg_success result then
        match final_tokens result with
        | None => exception                      (* KeyError *)
        | Some ft =>
            if negb (_activate_warp_user (ft_id_token ft) (activation_reply a))
            then (mkAttemptResult false index (Some (ft_email ft)) None
                    (Some ActivationFailed), t)
            else
              match _get_request_limit (ft_id_token ft) (limit_reply a) with
              | None => exception                (* limit_info['success'] *)
              | Some limit_info_ =>
                  let request_limit :=
                    if limit_success limit_info_
                    then requestLimit limit_info_ else None in
                  let t' :=
                    match db (Account ft) t with
                    | Ok t' => t'
                    | Raised _ => t              (* except Exception: print *)
                    end in
                  (mkAttemptResult true index (Some (ft_email ft))
                     request_limit None, t')
              end
        end
      else
        let error_msg :=
          if negb (email_info result) then MailboxFailed
          else if negb (signin_success result) then SigninFailed
          else if negb (email_result result) then NoVerificationMail
          else if negb (match final_tokens result with
                        | Some ft => ft_success ft | None => false end)
          then CompleteLoginFailed
          else UnknownError in
        (mkAttemptResult false index None None (Some error_msg), t)
  end.

(** A [concurrent.futures.Future] once its worker has run: when the
    worker finished, and what it returned. *)
Record Future : Type := mkFuture {
  finished_at : Z;
  returned : AttemptResult
}.

(** [future.result(timeout)] called at time [clock]: a finished future
    answers at once; otherwise the caller waits up to [timeout] seconds. *)
Definition future_result (clock : Z) (f : Future) (timeout : Z)
    : Result AttemptResult :=
  if finished_at f <=? clock + timeout then Ok (returned f)
  else Raised TimeoutError.

(** The jobs in the order in which their workers finish. *)
Fixpoint insert_by_finish (j : Z * Attempt) (js : list (Z * Attempt))
    : list (Z * Attempt) :=
  match js with
  | [] => [j]
  | j' :: rest =>
      if started_at (snd j) + duration (snd j)
           <? started_at (snd j') + duration (snd j')
      then j :: js
      else j' :: insert_by_finish j rest
  end.

Definition completion_order (js : list (Z * Attempt)) : list (Z * Attempt) :=
  fold_right insert_by_finish [] (rev js).

(** The worker threads: every submitted job runs
    [_register_single_account] to its end, and the table sees the
    attempts in the order in which they finish. *)
Fixpoint run_workers (db : Database) (js : list (Z * Attempt)) (t : Table)
    : list Future * Table :=
  match js with
  | [] => ([], t)
  | (index, a) :: rest =>
      let (r, t1) := _register_single_account db index a t in
      let (fs, t2) := run_workers db rest t1 in
      (mkFuture (started_at a + duration a) r :: fs, t2)
  end.

(** The counters of [register_accounts_concurrent] with its [results]. *)
Record Tally : Type := mkTally {
  results : list AttemptResult;
  success_count : Z;
  failed_count : Z;
  high_quota_count : Z;
  normal_quota_count : Z
}.

(** [limit == n] on a limit that may be [None]. *)
Definition limit_is (limit : option Z) (n : Z) : bool :=
  match limit with Some v => v =? n | None => false end.

Definition error_result : AttemptResult :=
  mkAttemptResult false (-1) None None (Some TaskException).

(** The body of [for future in as_completed(futures)]; [as_completed]
    hands a future over only once it is done, so the clock is past its
    finishing time when [result] is called. *)
Fixpoint collect (clock : Z) (fs : list Future) (acc : Tally) : Tally :=
  match fs with
  | [] => acc
  | future :: rest =>
      let clock := Z.max clock (finished_at future) in
      let acc' :=
        match future_result clock future 300 with
        | Ok result =>
            let rs := results acc ++ [result] in
            if res_success result then
              let limit := res_request_limit result in
              if limit_is limit 2500 then
                mkTally rs (success_count acc + 1) (failed_count acc)
                  (high_quota_count acc + 1) (normal_quota_count acc)
              else if limit_is limit 150 then
                mkTally rs (success_count acc + 1) (failed_count acc)
                  (high_quota_count acc) (normal_quota_count acc + 1)
              else
                mkTally rs (success_count acc + 1) (failed_count acc)
                  (high_quota_count acc) (normal_quota_count acc)
            else
              mkTally rs (success_count acc) (failed_count acc + 1)
                (high_quota_count acc) (normal_quota_count acc)
        | Raised _ =>
            mkTally (results acc ++ [error_result]) (success_count acc)
              (failed_count acc + 1)
              (high_quota_count acc) (normal_quota_count acc)
        end in
      collect clock rest acc'
  end.

(** [as_completed(futures)]: every future is handed over once, and only
    when it is done.  The futures already done when the loop starts come
    in the iteration order of a set, the others as they finish, so the
    order is the environment's: [position i] is the place at which the
    future of the job with index [i] is handed over (futures with the
    same place keep the order in which they finished). *)
Fixpoint insert_by_position (position : Z -> Z) (f : Future)
    (fs : list Future) : list Future :=
  match fs with
  | [] => [f]
  | f' :: rest =>
      if position (res_index (returned f))
           <=? position (res_index (returned f'))
      then f :: fs
      else f' :: insert_by_position position f rest
  end.

Definition as_completed (position : Z -> Z) (fs : list Future) : list Future :=
  fold_right (insert_by_position position) [] fs.

(** [register_accounts_concurrent(count)]: [world i] is what happens to
    the attempt submitted with index [i]. *)
Definition register_accounts_concurrent (db : Database) (world : Z -> Attempt)
    (position : Z -> Z) (count : nat) (t : Table) : Tally * Table :=
  let jobs := map (fun i => (Z.of_nat i + 1, world (Z.of_nat i + 1)))
                  (seq 0 count) in
  let (futures, t') := run_workers db (completion_order jobs) t in
  (collect 0 (as_completed position futures) (mkTally [] 0 0 0 0), t').

End BatchRegister.

(** ** warp2protobuf/core/pool_auth.py: the session broker *)

Module PoolAuth.
Import Py.

(** An account as the allocate response carries it (a JSON object read
    with [.get], so every key may be missing). *)
Record Account : Type := mkAccount {
  email : option string;
  local_id : option string;
  id_token : option string;
  refresh_token : option string
}.

(** The dictionary kept in [_current_session]. *)
Record Session : Type := mkSession {
  session_id : option string;
  accounts : list Account;
  account : option Account;
  account_index : nat;
  access_token : string;
  created_at : Z
}.

(** The fields of the [PoolAuthManager] instance; [get_pool_manager]
    hands the same instance to every caller. *)
Record Manager : Type := mkManager {
  current_session_id : option string;
  current_account : option Account;
  self_accounts : list Account;
  self_account_index : nat;
  self_access_token : option string
}.

(** The process memory the broker touches: the module global, the
    manager instance, and the token last written by [update_env_file]
    (the helper itself is in .auth, which is not among the sources). *)
Record Mem : Type := mkMem {
  _current_session : option Session;
  self : Manager;
  env_file : option string
}.

(** The requests the broker puts on the wire. *)
Inductive Request : Type :=
| PostAllocate (count : Z)
| PostRefreshToken (refresh_token_ : string)
| PostMarkQuotaExhausted (email_ : string)
| PostRelease (session_id_ : string).

(** A JSON body, by the keys the broker reads. *)
Record Json : Type := mkJson {
  j_success : bool;
  j_accounts : list Account;
  j_session_id : option string;
  j_access_token : option string;
  j_id_token : option string
}.

(** What [await client.post(...)] gives: an exception, or a status code
    with a body that parses as JSON or does not. *)
Inductive Response : Type :=
| ConnectionFailed
| Http (status_code : Z) (json : option Json).

(** The other side of the wire: the answer to the [n]-th request, and
    the seconds the caller waits for it. *)
Record World : Type := mkWorld {
  answer : nat -> Request -> Response;
  latency : nat -> Request -> Z
}.

(** *** Coroutines

    An [async def] body as a tree of its effects.  Everything between two
    [Await]s runs without interruption; at an [Await] the request goes
    out and the coroutine is suspended until it is scheduled again. *)
Inductive Coro (A : Type) : Type :=
| Ret (a : A)
| Raise (e : Exn)
| Read (k : Mem -> Coro A)
| Store (m : Mem) (k : Coro A)
| Clock (k : Z -> Coro A)                 (* time.time() *)
| Lock (k : Coro A)                       (* _session_lock.acquire() *)
| Unlock (k : Coro A)                     (* _session_lock.release() *)
| Await (req : Request) (k : Response -> Coro A).
Arguments Ret {A} a.
Arguments Raise {A} e.
Arguments Read {A} k.
Arguments Store {A} m k.
Arguments Clock {A} k.
Arguments Lock {A} k.
Arguments Unlock {A} k.
Arguments Await {A} req k.

Fixpoint bind {A B} (c : Coro A) (f : A -> Coro B) : Coro B :=
  match c with
  | Ret a => f a
  | Raise e => Raise e
  | Read k => Read (fun m => bind (k m) f)
  | Store m k => Store m (bind k f)
  | Clock k => Clock (fun t => bind (k t) f)
  | Lock k => Lock (bind k f)
  | Unlock k => Unlock (bind k f)
  | Await req k => Await req (fun r => bind (k r) f)
  end.

(** [try: c  except Exception as e: handler e] *)
Fixpoint try_except {A} (c : Coro A) (handler : Exn -> Coro A) : Coro A :=
  match c with
  | Ret a => Ret a
  | Raise e => handler e
  | Read k => Read (fun m => try_except (k m) handler)
  | Store m k => Store m (try_except k handler)
  | Clock k => Clock (fun t => try_except (k t) handler)
  | Lock k => Lock (try_except k handler)
  | Unlock k => Unlock (try_except k handler)
  | Await req k => Await req (fun r => try_except (k r) handler)
  end.

(** [try: c  finally: final] *)
Fixpoint try_finally {A} (c : Coro A) (final : Coro unit) : Coro A :=
  match c with
  | Ret a => bind final (fun _ => Ret a)
  | Raise e => bind final (fun _ => Raise e)
  | Read k => Read (fun m => try_finally (k m) final)
  | Store m k => Store m (try_finally k final)
  | Clock k => Clock (fun t => try_finally (k t) final)
  | Lock k => Lock (try_finally k final)
  | Unlock k => Unlock (try_finally k final)
  | Await req k => Await req (fun r => try_finally (k r) final)
  end.

(** [with _session_lock: c] *)
Definition with_session_lock {A} (c : Coro A) : Coro A :=
  Lock (try_finally c (Unlock (Ret tt))).

Definition modify (f : Mem -> Mem) : Coro unit :=
  Read (fun m => Store (f m) (Ret tt)).

Definition set_self (f : Manager -> Manager) : Coro unit :=
  modify (fun m => mkMem (_current_session m) (f (self m)) (env_file m)).

Definition set_current_session (s : option Session) : Coro unit :=
  modify (fun m => mkMem s (self m) (env_file m)).

(** A call of a function that is not a coroutine: its value, or what
    it raises. *)
Definition call {A} (r : Result A) : Coro A :=
  match r with
  | Ok a => Ret a
  | Raised e => Raise e
  end.

(** [await client.post(...)]: status code and body, or the exception. *)
Definition post (req : Request) : Coro (Z * option Json) :=
  Await req (fun r =>
    match r with
    | ConnectionFailed => Raise ConnectError
    | Http status_code json => Ret (status_code, json)
    end).

(** [response.json()] *)
Definition json_of (body : option Json) : Coro Json :=
  match body with
  | Some data => Ret data
  | None => Raise JSONDecodeError
  end.

(** The instance fields as [__init__] and the clearing paths set them. *)
Definition cleared : Manager := mkManager None None [] 0%nat None.

Notation "x <- c ;; k" := (bind c (fun x => k))
  (at level 61, c at next level, right associativity).
Notation "c1 ;; c2" := (bind c1 (fun _ => c2))
  (at level 61, right associativity).

(** [a or b] on two optional strings. *)
Definition or_else (a b : option string) : option string :=
  if truthy_opt a then a else b.

(** [if tok: return tok] followed by [raise RuntimeError(...)]. *)
Definition return_or_raise (tok : option string) (msg : string) : Coro string :=
  match tok with
  | Some t => if truthy t then Ret t else Raise (RuntimeError msg)
  | None => Raise (RuntimeError msg)
  end.

Section Broker.

(** [is_token_expired] comes from .auth, which is not among the
    sources: it answers for a token, or raises. *)
Variable is_token_expired : string -> Result bool.

(** [ACCOUNTS_PER_REQUEST = int(os.getenv("ACCOUNTS_PER_REQUEST", 1))] *)
Variable ACCOUNTS_PER_REQUEST : Z.

(** [update_env_file] comes from .auth too: it writes the token to the
    env file, or raises. *)
Variable update_env_file : string -> Result unit.

(** The call [update_env_file(token)]; the memory keeps the token last
    written. *)
Definition write_env_file (token : string) : Coro unit :=
  call (update_env_file token) ;;
  modify (fun m => mkMem (_current_session m) (self m) (Some token)).

(** [_get_access_token_from_account(account)] *)
Definition _get_access_token_from_account (account_ : Account) : Coro string :=
  match refresh_token account_ with
  | Some refresh_token_ =>
      if truthy refresh_token_ then
        r <- post (PostRefreshToken refresh_token_) ;;
        let (status_code, body) := r : Z * option Json in
        if negb (status_code =? 200) then
          return_or_raise (id_token account_) "access_token"
        else
          token_data <- json_of body ;;
          if negb (truthy_opt (j_access_token token_data)) then
            return_or_raise (or_else (id_token account_) (j_id_token token_data))
              "no token in response"
          else
            return_or_raise (j_access_token token_data) "no token in response"
      else return_or_raise (id_token account_) "no token"
  | None => return_or_raise (id_token account_) "no token"
  end.

(** The two expiry checks of [_is_session_valid]: [Ok true] when one of
    them says [return False].  The [except:] branch reads
    [session.get("account", {}).get("id_token")], which raises when the
    session's account is [None]. *)
Definition token_check (session : Session) : Result bool :=
  match is_token_expired (access_token session) with
  | Ok expired_ => Ok expired_
  | Raised _ =>
      match account session with
      | None => Raised AttributeError
      | Some account_ =>
          match id_token account_ with
          | Some id_token_ =>
              if truthy id_token_ then
                match is_token_expired id_token_ with
                | Ok expired_ => Ok expired_
                | Raised _ => Ok false
                end
              else Ok false
          | None => Ok false
          end
      end
  end.

(** [_is_session_valid(session)] *)
Definition _is_session_valid (session : Session) : Coro bool :=
  Clock (fun now =>
    if now - created_at session >? 1800 then Ret false
    else if negb (truthy (access_token session)) then Ret false
    else
      match token_check session with
      | Raised e => Raise e
      | Ok true => Ret false
      | Ok false =>
          set_self (fun s =>
            let current_account_ :=
              match nth_error (accounts session) (account_index session) with
              | Some a => Some a
              | None => current_account s
              end in
            mkManager (current_session_id s) current_account_
              (accounts session) (account_index session) (self_access_token s)) ;;
          Ret true
      end).

(** The first [with _session_lock:] block of
    [acquire_pool_access_token]: the cached token when the cached
    session is still valid. *)
Definition cached_session_token : Coro (option string) :=
  with_session_lock
    (Read (fun m =>
       match _current_session m with
       | Some session =>
           valid <- _is_session_valid session ;;
           if valid then Ret (Some (access_token session)) else Ret None
       | None => Ret None
       end)).

(** The rest of its [try] block: allocate, derive a token from the
    first account, and store the new session. *)
Definition allocate_session : Coro string :=
  r <- post (PostAllocate ACCOUNTS_PER_REQUEST) ;;
  let (status_code, body) := r : Z * option Json in
  if negb (status_code =? 200) then Raise (RuntimeError "allocate: HTTP")
  else
    data <- json_of body ;;
    if negb (j_success data) then Raise (RuntimeError "allocate: failed")
    else
      match j_accounts data with
      | [] => Raise (RuntimeError "allocate: no account")
      | first :: _ =>
          let accounts_ := j_accounts data in
          let session_id_ := j_session_id data in
          set_self (fun s =>
            mkManager (current_session_id s) (Some first) accounts_
              0%nat (self_access_token s)) ;;
          access_token_ <- _get_access_token_from_account first ;;
          with_session_lock
            (Read (fun m => Clock (fun now =>
               set_current_session
                 (Some (mkSession session_id_ accounts_
                          (current_account (self m)) 0%nat
                          access_token_ now))))) ;;
          set_self (fun s =>
            mkManager session_id_ (current_account s) (self_accounts s)
              (self_account_index s) (Some access_token_)) ;;
          write_env_file access_token_ ;;
          Ret access_token_
      end.

(** [acquire_pool_access_token()] *)
Definition acquire_pool_access_token : Coro string :=
  try_except
    (cached <- cached_session_token ;;
     match cached with
     | Some token => Ret token
     | None => allocate_session
     end)
    (fun e => Raise (RuntimeError "pool service error")).

(** [_switch_to_next_account()] *)
Definition _switch_to_next_account : Coro bool :=
  with_session_lock
    (Read (fun m =>
       match _current_session m with
       | None => Ret false
       | Some session =>
           let next_index := (account_index session + 1)%nat in
           match nth_error (accounts session) next_index with
           | None => Ret false          (* next_index >= len(accounts) *)
           | Some next_account =>
               try_except
                 (access_token_ <- _get_access_token_from_account next_account ;;
                  Read (fun m' =>
                    match _current_session m' with
                    | None => Raise TypeError
                    | Some session' =>
                        set_current_session
                          (Some (mkSession (session_id session')
                                   (accounts session') (Some next_account)
                                   next_index access_token_
                                   (created_at session'))) ;;
                        set_self (fun s =>
                          mkManager (current_session_id s) (Some next_account)
                            (self_accounts s) next_index (Some access_token_)) ;;
                        write_env_file access_token_ ;;
                        Ret true
                    end))
                 (fun _ => Ret false)
           end
       end)).

(** The clearing assignments shared by the quota and release paths. *)
Definition clear_session : Coro unit :=
  set_current_session None ;;
  set_self (fun _ => cleared).

(** [mark_current_account_quota_exhausted()] *)
Definition mark_current_account_quota_exhausted : Coro bool :=
  found <-
    with_session_lock
      (Read (fun m =>
         match _current_session m with
         | None => Ret None
         | Some session =>
             match account session with
             | None => Ret None
             | Some account_ =>
                 if truthy_opt (email account_) then Ret (email account_)
                 else Ret None
             end
         end)) ;;
  match found with
  | None => Ret false
  | Some email_ =>
      try_except
        (r <- post (PostMarkQuotaExhausted email_) ;;
         let (status_code, _) := r : Z * option Json in
         if status_code =? 200 then
           switched <- _switch_to_next_account ;;
           if switched then Ret true
           else clear_session ;; Ret true
         else Ret false)
        (fun _ => Ret false)
  end.

(** [release_current_session()] *)
Definition release_current_session : Coro unit :=
  with_session_lock
    (Read (fun m =>
       match _current_session m with
       | None => Ret tt
       | Some session =>
           match session_id session with
           | None => Ret tt
           | Some session_id_ =>
               if negb (truthy session_id_) then Ret tt
               else
                 try_finally
                   (try_except
                      (post (PostRelease session_id_) ;; Ret tt)
                      (fun _ => Ret tt))
                   clear_session
           end
       end)).

End Broker.

(** *** Running coroutines *)

(** What the scheduler sees besides the memory: who holds
    [_session_lock], the clock, and the requests sent so far. *)
Record Sys : Type := mkSys {
  mem : Mem;
  lock : option nat;
  clock : Z;
  wire : list Request
}.

Definition set_mem (s : Sys) (m : Mem) : Sys :=
  mkSys m (lock s) (clock s) (wire s).
Definition set_lock (s : Sys) (l : option nat) : Sys :=
  mkSys (mem s) l (clock s) (wire s).
Definition send (s : Sys) (req : Request) : Sys :=
  mkSys (mem s) (lock s) (clock s) (wire s ++ [req]).
Definition elapse (s : Sys) (dt : Z) : Sys :=
  mkSys (mem s) (lock s) (clock s + dt) (wire s).

(** A call run on its own from start to end: every request is answered,
    after its latency, before anything else happens.  [None] is a call
    stuck on a lock somebody else holds. *)
Fixpoint run {A} (w : World) (me : nat) (c : Coro A) (s : Sys)
    : Sys * option (Result A) :=
  match c with
  | Ret a => (s, Some (Ok a))
  | Raise e => (s, Some (Raised e))
  | Read k => run w me (k (mem s)) s
  | Store m k => run w me k (set_mem s m)
  | Clock k => run w me (k (clock s)) s
  | Lock k =>
      match lock s with
      | None => run w me k (set_lock s (Some me))
      | Some _ => (s, None)
      end
  | Unlock k => run w me k (set_lock s None)
    | Await req k =>
      let n := List.length (wire s) in
      run w me (k (answer w n req)) (elapse (send s req) (latency w n req))
  end.

(** A coroutine between two turns of the scheduler.  [Blocked] is a
    coroutine inside [_session_lock.acquire()]: the lock is a
    [threading.Lock], so the call does not give control back to the
    event loop; it blocks the loop's thread until the lock is free. *)
Inductive Thread (A : Type) : Type :=
| Ready (c : Coro A)
| Waiting (n : nat) (req : Request) (k : Response -> Coro A)
| Blocked (c : Coro A)
| Finished (r : Result A).
Arguments Ready {A} c.
Arguments Waiting {A} n req k.
Arguments Blocked {A} c.
Arguments Finished {A} r.

(** One uninterrupted stretch of thread [me]: up to its next [Await], to
    a lock it cannot take (where it blocks), or to its end. *)
Fixpoint advance {A} (me : nat) (c : Coro A) (s : Sys) : Sys * Thread A :=
  match c with
  | Ret a => (s, Finished (Ok a))
  | Raise e => (s, Finished (Raised e))
  | Read k => advance me (k (mem s)) s
  | Store m k => advance me k (set_mem s m)
  | Clock k => advance me (k (clock s)) s
  | Lock k =>
      match lock s with
      | None => advance me k (set_lock s (Some me))
      | Some _ => (s, Blocked (Lock k))
      end
  | Unlock k => advance me k (set_lock s None)
  | Await req k => (send s req, Waiting (List.length (wire s)) req k)
  end.

(** Thread [me] gets its turn: a waiting thread finds its answer, a
    blocked one tries the lock again. *)
Definition resume {A} (w : World) (me : nat) (th : Thread A) (s : Sys)
    : Sys * Thread A :=
  match th with
  | Ready c => advance me c s
  | Waiting n req k => advance me (k (answer w n req)) s
  | Blocked c => advance me c s
  | Finished r => (s, Finished r)
  end.

Inductive Event : Type :=
| Run (i : nat)        (* the loop resumes coroutine [i] *)
| Elapse (dt : Z).     (* time passes *)

Fixpoint set_nth {A} (l : list A) (i : nat) (x : A) : list A :=
  match l, i with
  | [], _ => []
  | _ :: rest, O => x :: rest
  | y :: rest, S j => y :: set_nth rest j x
  end.

Definition blocked {A} (th : Thread A) : bool :=
  match th with Blocked _ => true | _ => false end.

(** One event.  All coroutines run on the one thread of the event loop:
    while one of them is blocked inside [_session_lock.acquire()], the
    loop does not get control back and resumes nobody, the holder of the
    lock included. *)
Definition schedule_step {A} (w : World) (cfg : Sys * list (Thread A))
    (ev : Event) : Sys * list (Thread A) :=
  let (s, pool) := cfg in
  match ev with
  | Elapse dt => (elapse s dt, pool)
  | Run i =>
      if existsb blocked pool then cfg
      else
        match nth_error pool i with
        | Some th => let (s', th') := resume w i th s in (s', set_nth pool i th')
        | None => cfg
        end
  end.

(** The coroutines of [pool] interleaved as [evs] says. *)
Definition schedule {A} (w : World) (evs : list Event)
    (cfg : Sys * list (Thread A)) : Sys * list (Thread A) :=
  fold_left (schedule_step w) evs cfg.

(** How many allocation requests went out. *)
Definition is_allocate (req : Request) : bool :=
  match req with PostAllocate _ => true | _ => false end.

Definition allocations (s : Sys) : nat :=
  List.length (filter is_allocate (wire s)).

End PoolAuth.

(** ** The vocabulary of the properties *)

Module Props.
Import Py.

(** [quota_exhausted_at] is set exactly on the rows whose status is
    [quota_exhausted]. *)
Definition quota_invariant (r : Accounts.Row) : Prop :=
  Accounts.quota_exhausted_at r <> None
  <-> Accounts.status r = "quota_exhausted".

(** The cool-down of a quota-exhausted account: thirty days. *)
Definition cooldown : Z := timedelta_days 30.

(** The keys of the table. *)
Definition emails (t : Accounts.Table) : list string :=
  map Accounts.email t.

(** Two rows that differ at most in the three columns the quota
    operations write. *)
Definition same_credential (r r' : Accounts.Row) : Prop :=
  Accounts.email r' = Accounts.email r
  /\ Accounts.local_id r' = Accounts.local_id r
  /\ Accounts.id_token r' = Accounts.id_token r
  /\ Accounts.refresh_token r' = Accounts.refresh_token r
  /\ Accounts.use_count r' = Accounts.use_count r
  /\ Accounts.created_at r' = Accounts.created_at r
  /\ Accounts.last_used r' = Accounts.last_used r
  /\ Accounts.last_refresh_time r' = Accounts.last_refresh_time r.

(** The tokens of an attempt whose provisioning succeeded. *)
Definition tokens_of (a : BatchRegister.Attempt)
    : option BatchRegister.FinalTokens :=
  match BatchRegister.registration a with
  | Ok result =>
      if BatchRegister.reg_success result
      then BatchRegister.final_tokens result else None
  | Raised _ => None
  end.

(** An attempt gets as far as [self.db.add_account]: provisioning and
    activation succeeded and the quota lookup came back with a result. *)
Definition reaches_add (a : BatchRegister.Attempt) : bool :=
  match tokens_of a with
  | Some ft =>
      BatchRegister._activate_warp_user (BatchRegister.ft_id_token ft)
        (BatchRegister.activation_reply a)
      && match BatchRegister._get_request_limit (BatchRegister.ft_id_token ft)
                 (BatchRegister.limit_reply a) with
         | Some _ => true
         | None => false
         end
  | None => false
  end.


(** The indices [1 .. count] a pass hands to its attempts. *)
Definition indices (count : nat) : list Z :=
  map (fun i => Z.of_nat i + 1) (seq 0 count).


(** The cached lease can be reused at time [now]: it is at most 1800
    seconds old, its access token is not empty, and the expiry check
    accepts it: the check says "not expired" for the access token, or it
    cannot read the access token and does not say "expired" for a
    non-empty id token of the current account either. *)
Definition lease_reusable (is_token_expired : string -> Result bool)
    (now : Z) (session : PoolAuth.Session) : bool :=
  (now - PoolAuth.created_at session <=? 1800)
  && truthy (PoolAuth.access_token session)
  && match is_token_expired (PoolAuth.access_token session) with
     | Ok expired_ => negb expired_
     | Raised _ =>
         match PoolAuth.account session with
         | Some a =>
             match PoolAuth.id_token a with
             | Some id_token_ =>
                 match is_token_expired id_token_ with
                 | Ok true => negb (truthy id_token_)
                 | _ => true
                 end
             | None => true
             end
         | None => false
         end
     end.

(** The cached lease is stale at time [now]: it is more than 1800
    seconds old, or its access token is empty, or the expiry check says
    "expired" for the access token, or cannot read it and says "expired"
    for the non-empty id token of the current account. *)
Definition lease_stale (is_token_expired : string -> Result bool)
    (now : Z) (session : PoolAuth.Session) : bool :=
  (1800 <? now - PoolAuth.created_at session)
  || negb (truthy (PoolAuth.access_token session))
  || match is_token_expired (PoolAuth.access_token session) with
     | Ok expired_ => expired_
     | Raised _ =>
         match PoolAuth.account session with
         | Some a =>
             match PoolAuth.id_token a with
             | Some id_token_ =>
                 match is_token_expired id_token_ with
                 | Ok true => truthy id_token_
                 | _ => false
                 end
             | None => false
             end
         | None => false
         end
     end.

(** No lease is cached, or the cached one is stale. *)
Definition no_reusable_lease (is_token_expired : string -> Result bool)
    (s : PoolAuth.Sys) : Prop :=
  forall session,
    PoolAuth._current_session (PoolAuth.mem s) = Some session ->
    lease_stale is_token_expired (PoolAuth.clock s) session = true.

(** The memory once a reused lease has put its accounts back on the
    manager. *)
Definition restored (m : PoolAuth.Mem) (session : PoolAuth.Session)
    : PoolAuth.Mem :=
  PoolAuth.mkMem (PoolAuth._current_session m)
    (PoolAuth.mkManager
       (PoolAuth.current_session_id (PoolAuth.self m))
       (match nth_error (PoolAuth.accounts session)
                (PoolAuth.account_index session) with
        | Some a => Some a
        | None => PoolAuth.current_account (PoolAuth.self m)
        end)
       (PoolAuth.accounts session) (PoolAuth.account_index session)
       (PoolAuth.self_access_token (PoolAuth.self m)))
    (PoolAuth.env_file m).

(** The memory after a release or after the last account of a lease is
    exhausted: no cached session, the manager as [__init__] leaves it. *)
Definition forgotten (m : PoolAuth.Mem) : PoolAuth.Mem :=
  PoolAuth.mkMem None PoolAuth.cleared (PoolAuth.env_file m).

(** A stretch of code that neither touches the lock nor waits. *)
Inductive sync {A : Type} : PoolAuth.Coro A -> Prop :=
| sync_ret (a : A) : sync (PoolAuth.Ret a)
| sync_raise (e : Exn) : sync (PoolAuth.Raise e)
| sync_read (k : PoolAuth.Mem -> PoolAuth.Coro A) :
    (forall m, sync (k m)) -> sync (PoolAuth.Read k)
| sync_store (m : PoolAuth.Mem) (k : PoolAuth.Coro A) :
    sync k -> sync (PoolAuth.Store m k)
| sync_clock (k : Z -> PoolAuth.Coro A) :
    (forall t, sync (k t)) -> sync (PoolAuth.Clock k).

(** The lock discipline of a coroutine, started with the lock in its hand
    ([true]) or not ([false]): it takes the lock only when it does not
    have it, gives it back before it waits for an answer and before it
    ends, and never waits or ends with the lock in its hand. *)
Inductive releases_before_waiting {A : Type} : bool -> PoolAuth.Coro A -> Prop :=
| rbw_ret (a : A) : releases_before_waiting false (PoolAuth.Ret a)
| rbw_raise (e : Exn) : releases_before_waiting false (PoolAuth.Raise e)
| rbw_read (h : bool) (k : PoolAuth.Mem -> PoolAuth.Coro A) :
    (forall m, releases_before_waiting h (k m)) ->
    releases_before_waiting h (PoolAuth.Read k)
| rbw_store (h : bool) (m : PoolAuth.Mem) (k : PoolAuth.Coro A) :
    releases_before_waiting h k ->
    releases_before_waiting h (PoolAuth.Store m k)
| rbw_clock (h : bool) (k : Z -> PoolAuth.Coro A) :
    (forall t, releases_before_waiting h (k t)) ->
    releases_before_waiting h (PoolAuth.Clock k)
| rbw_lock (k : PoolAuth.Coro A) :
    releases_before_waiting true k ->
    releases_before_waiting false (PoolAuth.Lock k)
| rbw_unlock (k : PoolAuth.Coro A) :
    releases_before_waiting false k ->
    releases_before_waiting true (PoolAuth.Unlock k)
| rbw_await (req : PoolAuth.Request) (k : PoolAuth.Response -> PoolAuth.Coro A) :
    (forall r, releases_before_waiting false (k r)) ->
    releases_before_waiting false (PoolAuth.Await req k).

(** A thread, seen between two turns, that keeps to this discipline. *)
Definition waits_without_lock {A : Type} (th : PoolAuth.Thread A) : Prop :=
  match th with
  | PoolAuth.Ready c => releases_before_waiting false c
  | PoolAuth.Waiting _ _ k => forall r, releases_before_waiting false (k r)
  | PoolAuth.Blocked c => releases_before_waiting false c
  | PoolAuth.Finished _ => True
  end.

End Props.

(** ** Sample data for the worked instances *)

Module Samples.
Import Py.

(** A row of the accounts table with the given key, status, session and
    exhaustion time. *)
Definition row (e st : string) (sid : option string) (q : option datetime)
    : Accounts.Row :=
  Accounts.mkRow e "uid" "id-token" "refresh-token" st sid 0 None None None q.

(** One leased account and one exhausted at time 0. *)
Definition table : Accounts.Table :=
  [ row "a@warp.dev" "in_use" (Some "s1") None;
    row "b@warp.dev" "quota_exhausted" None (Some 0) ].

(** A pool manager that is running and hands out one account per
    request. *)
Definition one_account_manager : PoolService.PoolManager Accounts.Table :=
  PoolService.mkPoolManager
    (fun _ => true)
    (fun request_id t =>
       (Ok (Some [row "a@warp.dev" "in_use" (Some "s1") None]), t)).

(** An attempt whose every step succeeds, taking [d] seconds. *)
Definition good_attempt (d : Z) : BatchRegister.Attempt :=
  BatchRegister.mkAttempt 0 d
    (Ok (BatchRegister.mkRegistration true
           (Some (BatchRegister.mkFinalTokens true "new@warp.dev" "uid"
                    "id-token" "refresh-token"))
           true true true))
    (BatchRegister.Reply 200
       (Some (BatchRegister.mkActivationBody "GetOrCreateUserOutput")))
    (BatchRegister.Reply 200
       (Some (BatchRegister.mkLimitBody false "UserOutput"
                (Some (BatchRegister.mkRequestLimitInfo (Some 150) (Some 0)))))).


(** A database that is down. *)
Definition broken_database : BatchRegister.Database :=
  fun _ _ => Raised OperationalError.

(** An allocated account that carries an id token and no refresh
    token. *)
Definition account : PoolAuth.Account :=
  PoolAuth.mkAccount (Some "a@warp.dev") (Some "uid") (Some "id-token") None.

(** A lease on it, taken at time [at_] under the given session id. *)
Definition lease (sid : option string) (at_ : Z) : PoolAuth.Session :=
  PoolAuth.mkSession sid [account] (Some account) 0%nat "id-token" at_.

(** A broker at time [now] with the given session cached, the lock free
    and nothing sent yet. *)
Definition broker (cached : option PoolAuth.Session) (now : Z) : PoolAuth.Sys :=
  PoolAuth.mkSys (PoolAuth.mkMem cached PoolAuth.cleared None) None now [].

(** An expiry check that finds every token still good. *)
Definition never_expired : string -> Result bool := fun _ => Ok false.

(** An env file that can always be written. *)
Definition writable : string -> Result unit := fun _ => Ok tt.

(** A pool service that grants every allocation with [account] under
    session "s2" and answers 200 to everything else. *)
Definition pool : PoolAuth.World :=
  PoolAuth.mkWorld
    (fun _ req =>
       match req with
       | PoolAuth.PostAllocate _ =>
           PoolAuth.Http 200
             (Some (PoolAuth.mkJson true [account] (Some "s2") None None))
       | _ => PoolAuth.Http 200 None
       end)
    (fun _ _ => 1).

(** A pool service that cannot be reached. *)
Definition unreachable : PoolAuth.World :=
  PoolAuth.mkWorld (fun _ _ => PoolAuth.ConnectionFailed) (fun _ _ => 10).

(** A pool service whose allocation answer carries no session id. *)
Definition pool_without_session_id : PoolAuth.World :=
  PoolAuth.mkWorld
    (fun _ req =>
       match req with
       | PoolAuth.PostAllocate _ =>
           PoolAuth.Http 200
             (Some (PoolAuth.mkJson true [account] None None None))
       | _ => PoolAuth.Http 200 None
       end)
    (fun _ _ => 1).

(** The broker after one acquire-token call against it, started at time 0
    on an empty cache. *)
Definition broker_without_session_id : PoolAuth.Sys :=
  fst (PoolAuth.run pool_without_session_id 0
         (PoolAuth.acquire_pool_access_token never_expired 1 writable)
         (broker None 0)).

End Samples.

(** ** account_pool/quota_tracker.py: the reports *)

Module QuotaReport.
Import Py Accounts QuotaTracker.

(** [timedelta.days]: whole days, rounded down, so a negative
    [timedelta] has negative [days]. *)
Definition days (d : Z) : Z := d / timedelta_days 1.

(** The dictionaries [get_quota_status] returns, by shape. *)
Inductive QuotaStatus : Type :=
| StatusExhausted (email_ status_ : string) (exhausted_at reset_at : datetime)
    (days_until_reset : Z)
| StatusNotExhausted (email_ status_ : string)
| StatusNotFound (email_ : string)
| StatusError (email_ : string).

(** [SELECT ... WHERE email = ?] followed by [cursor.fetchone()]. *)
Definition sql_fetchone (where_ : Row -> bool) (t : Table) : option Row :=
  find where_ t.

(** [QuotaTracker.get_quota_status(email)], with [now = datetime.now()]. *)
Definition get_quota_status (db : Sqlite3) (now : datetime) (email_ : string)
    (t : Table) : QuotaStatus :=
  match
    (_ <- connect db ;;;
     execute db (sql_fetchone (fun r => String.eqb (email r) email_) t))
  with
  | Ok (Some row) =>
      match String.eqb (status row) "quota_exhausted", quota_exhausted_at row with
      | true, Some exhausted_time =>
          let reset_time := exhausted_time + timedelta_days quota_reset_days in
          let time_until_reset := reset_time - now in
          StatusExhausted email_ (status row) exhausted_time reset_time
            (Z.max 0 (days time_until_reset))
      | _, _ => StatusNotExhausted email_ (status row)
      end
  | Ok None => StatusNotFound email_
  | Raised _ => StatusError email_
  end.

(** One entry of the list [get_exhausted_accounts] returns. *)
Record ExhaustedAccount : Type := mkExhaustedAccount {
  ex_email : string;
  ex_exhausted_at : datetime;
  ex_reset_at : datetime;
  ex_days_until_reset : Z
}.

(** [ORDER BY quota_exhausted_at DESC]: a NULL sorts below every value;
    rows with equal stamps keep their table order here (sqlite promises
    no order among them). *)
Definition stamp_geb (a b : option datetime) : bool :=
  match a, b with
  | _, None => true
  | None, Some _ => false
  | Some x, Some y => y <=? x
  end.

Fixpoint insert_desc (r : Row) (rs : list Row) : list Row :=
  match rs with
  | [] => [r]
  | r' :: rest =>
      if stamp_geb (quota_exhausted_at r) (quota_exhausted_at r')
      then r :: rs
      else r' :: insert_desc r rest
  end.

Definition order_by_exhausted_desc (rs : list Row) : list Row :=
  fold_right insert_desc [] rs.

Definition exhausted (r : Row) : bool :=
  String.eqb (status r) "quota_exhausted".

(** The [for email, exhausted_at in rows] loop;
    [datetime.fromisoformat(None)] raises [TypeError]. *)
Fixpoint report (now : datetime) (rows : list Row)
    : Result (list ExhaustedAccount) :=
  match rows with
  | [] => Ok []
  | r :: rest =>
      match quota_exhausted_at r with
      | None => Raised TypeError
      | Some exhausted_time =>
          let reset_time := exhausted_time + timedelta_days quota_reset_days in
          let time_until_reset := reset_time - now in
          accounts <- report now rest ;;;
          Ok (mkExhaustedAccount (email r) exhausted_time reset_time
                (Z.max 0 (days time_until_reset)) :: accounts)
      end
  end.

(** [QuotaTracker.get_exhausted_accounts()] *)
Definition get_exhausted_accounts (db : Sqlite3) (now : datetime) (t : Table)
    : list ExhaustedAccount :=
  match
    (_ <- connect db ;;;
     rows <- execute db (order_by_exhausted_desc (filter exhausted t)) ;;;
     report now rows)
  with
  | Ok accounts => accounts
  | Raised _ => []
  end.

End QuotaReport.

(** ** account-pool-service/main.py: the quota reports *)

Module PoolServiceQuota.
Import Py Accounts PoolService.

(** [GET /api/accounts/quota_status]; the tracker never raises, so the
    handler's [except] clause has nothing to catch. *)
Definition get_quota_status (db : Sqlite3) (now : datetime) (email_ : string)
    (t : Table) : Response QuotaReport.QuotaStatus :=
  Returned (QuotaReport.get_quota_status db now email_ t).

(** The body of [GET /api/accounts/quota_exhausted]. *)
Record ExhaustedResponse : Type := mkExhaustedResponse {
  ex_success : bool;
  ex_count : Z;
  ex_accounts : list QuotaReport.ExhaustedAccount
}.

(** [GET /api/accounts/quota_exhausted] *)
Definition get_exhausted_accounts (db : Sqlite3) (now : datetime) (t : Table)
    : Response ExhaustedResponse :=
  let accounts_ := QuotaReport.get_exhausted_accounts db now t in
  Returned (mkExhaustedResponse true (Z.of_nat (List.length accounts_)) accounts_).

End PoolServiceQuota.

(** ** account-pool-service/release_all_accounts.py *)

Module AccountReleaser.
Import Py Accounts.

(** The [WHERE] clause of both statements. *)
Definition in_use (r : Row) : bool := String.eqb (status r) "in_use".

(** [get_in_use_accounts()] *)
Definition get_in_use_accounts (db : Sqlite3) (t : Table) : Result (list Row) :=
  execute db (filter in_use t).

(** The [SET] clause of [release_all_accounts]. *)
Definition set_released (r : Row) : Row :=
  mkRow (email r) (local_id r) (id_token r) (refresh_token r)
        "available" None (use_count r)
        (created_at r) (last_used r) (last_refresh_time r)
        (quota_exhausted_at r).

(** [release_all_accounts()] on an open connection: the released count,
    or the exception that escapes, and the table afterwards (an update
    that is not committed is lost when [run] closes the connection). *)
Definition release_all_accounts (db : Sqlite3) (t : Table)
    : Result Z * Table :=
  match get_in_use_accounts db t with
  | Raised e => (Raised e, t)
  | Ok [] => (Ok 0, t)
  | Ok (_ :: _) =>
      match
        (work <- execute db (sql_update in_use set_released t) ;;;
         let released_count := sql_rowcount in_use t in
         _ <- commit db ;;;
         Ok (released_count, work))
      with
      | Ok (released_count, t') => (Ok released_count, t')
      | Raised e => (Raised e, t)
      end
  end.

(** [run()]: [log_raises] says whether writing the log file fails. *)
Definition run (db : Sqlite3) (log_raises : bool) (t : Table) : bool * Table :=
  match connect db with
  | Raised _ => (false, t)
  | Ok _ =>
      match execute db tt with                 (* get_statistics() *)
      | Raised _ => (false, t)
      | Ok _ =>
          match release_all_accounts db t with
          | (Raised _, t') => (false, t')
          | (Ok released, t') =>
              if released >? 0 then
                if log_raises then (false, t') else (true, t')
              else (true, t')
          end
      end
  end.

End AccountReleaser.

(** ** account-pool-service/main.py: the mailbox users *)

Module MailUsers.
Import Py PoolService.

(** [CreateUserRequest] *)
Record CreateUserRequest : Type := mkCreateUserRequest {
  cu_email : string;
  cu_password : option string;
  cu_roleName : option string
}.

(** The [user_data] object posted for one user: the optional keys are
    there only when their value is truthy. *)
Record UserData : Type := mkUserData {
  ud_email : string;
  ud_password : option string;
  ud_roleName : option string
}.

Definition user_data (user_request : CreateUserRequest) : UserData :=
  mkUserData (cu_email user_request)
    (if truthy_opt (cu_password user_request)
     then cu_password user_request else None)
    (if truthy_opt (cu_roleName user_request)
     then cu_roleName user_request else None).

(** The mail service: its answer to the [n]-th [addUser] post, with the
    [code] key of the body when there is one. *)
Definition MailService := nat -> UserData -> BatchRegister.HttpReply (option Z).

(** [response.raise_for_status()] raises on a 4xx or 5xx status. *)
Definition raise_for_status (status_code : Z) : bool :=
  (400 <=? status_code) && (status_code <? 600).

(** The body of the inner [try]: [true] when the user goes to
    [created_users]. *)
Definition add_user (mail : MailService) (n : nat)
    (user_request : CreateUserRequest) : bool :=
  match mail n (user_data user_request) with
  | BatchRegister.NetworkFailure => false
  | BatchRegister.Reply status_code json =>
      if raise_for_status status_code then false
      else
        match json with
        | Some (Some code_) => code_ =? 200
        | _ => false
        end
  end.

(** The [for user_request in request.list] loop. *)
Fixpoint create_loop (mail : MailService) (n : nat)
    (users : list CreateUserRequest) (created_users failed_users : list string)
    : list string * list string :=
  match users with
  | [] => (created_users, failed_users)
  | user_request :: rest =>
      if add_user mail n user_request
      then create_loop mail (S n) rest
             (created_users ++ [cu_email user_request]) failed_users
      else create_loop mail (S n) rest
             created_users (failed_users ++ [cu_email user_request])
  end.

(** [CreateUsersResponse], with the two lists of its [data]. *)
Record CreateUsersResponse : Type := mkCreateUsersResponse {
  code : Z;
  created : list string;
  failed : list string
}.

(** [POST /api/public/addUser]; building the client does not raise, so
    the outer [except] clause has nothing to catch. *)
Definition create_email_users (mail : MailService)
    (request : list CreateUserRequest) : Response CreateUsersResponse :=
  let (created_users, failed_users) := create_loop mail 0 request [] [] in
  match failed_users with
  | _ :: _ => Returned (mkCreateUsersResponse 207 created_users failed_users)
  | [] => Returned (mkCreateUsersResponse 200 created_users [])
  end.

(** [POST /api/public/createUser] *)
Definition create_single_user (mail : MailService)
    (user_request : CreateUserRequest) : Response CreateUsersResponse :=
  create_email_users mail [user_request].

End MailUsers.

(** ** account-pool-service/main.py: the other pool handlers *)

Module PoolServiceOps.
Import Py Accounts PoolService.

(** The dictionary [pool_manager.get_pool_status()] returns. *)
Record PoolStatus : Type := mkPoolStatus {
  pool_stats : list (string * Z);
  active_sessions : Z;
  running : bool;
  min_pool_size : Z;
  accounts_per_request : Z;
  health : string
}.

(** The dictionary [refresh_account_tokens_manually] returns, by the key
    the handler reads. *)
Record RefreshResult : Type := mkRefreshResult { success_count : Z }.

(** The rest of the pool manager (account_pool/pool_manager.py is not
    among the sources): the methods the other handlers call, each of
    which may raise. *)
Record Manager (S : Type) : Type := mkManager {
  allocation : PoolManager S;
  release_accounts_for_request : string -> S -> Result bool * S;
  get_pool_status_of : S -> Result PoolStatus * S;
  refresh_account_tokens_manually :
    option string -> option bool -> S -> Result RefreshResult * S;
  manual_replenish_of : option Z -> S -> Result Z * S;
  refresh_pool_of : S -> Result bool * S
}.
Arguments mkManager {S} _ _ _ _ _ _.
Arguments allocation {S} m.
Arguments release_accounts_for_request {S} m _ _.
Arguments get_pool_status_of {S} m _.
Arguments refresh_account_tokens_manually {S} m _ _ _.
Arguments manual_replenish_of {S} m _ _.
Arguments refresh_pool_of {S} m _.

(** [not pool_manager or not pool_manager._running] *)
Definition unavailable {S : Type} (pool_manager : option (Manager S)) (st : S)
    : bool :=
  match pool_manager with
  | None => true
  | Some pm => negb (_running (allocation pm) st)
  end.

(** [try: ... except Exception: raise HTTPException(500)] around one
    call of the manager. *)
Definition guarded {S A B : Type} (call : Result A * S) (body : A -> B)
    : Response B * S :=
  match call with
  | (Ok a, st') => (Returned (body a), st')
  | (Raised _, st') => (HTTPException 500, st')
  end.

(** [GET /health]: the status call is not inside a [try], so what it
    raises escapes the handler. *)
Definition health_check {S : Type} (pool_manager : option (Manager S)) (st : S)
    : Result (Response string) * S :=
  match pool_manager with
  | None => (Ok (HTTPException 503), st)
  | Some pm =>
      if negb (_running (allocation pm) st) then (Ok (HTTPException 503), st)
      else
        match get_pool_status_of pm st with
        | (Ok status_, st') => (Ok (Returned (health status_)), st')
        | (Raised e, st') => (Raised e, st')
        end
  end.

(** [POST /api/accounts/release]: the [success] flag of the body. *)
Definition release_accounts {S : Type} (pool_manager : option (Manager S))
    (session_id_ : string) (st : S) : Response bool * S :=
  match pool_manager with
  | None => (HTTPException 503, st)
  | Some pm =>
      if negb (_running (allocation pm) st) then (HTTPException 503, st)
      else guarded (release_accounts_for_request pm session_id_ st)
             (fun success_ => success_)
  end.

(** [GET /api/accounts/status]: only [not pool_manager] is checked. *)
Definition get_pool_status {S : Type} (pool_manager : option (Manager S))
    (st : S) : Response PoolStatus * S :=
  match pool_manager with
  | None => (HTTPException 503, st)
  | Some pm => guarded (get_pool_status_of pm st) (fun status_ => status_)
  end.

(** [POST /api/accounts/refresh-tokens]: the [success] flag with the
    manager's result. *)
Definition refresh_tokens {S : Type} (pool_manager : option (Manager S))
    (email_ : option string) (force : option bool) (st : S)
    : Response (bool * RefreshResult) * S :=
  match pool_manager with
  | None => (HTTPException 503, st)
  | Some pm =>
      if negb (_running (allocation pm) st) then (HTTPException 503, st)
      else guarded (refresh_account_tokens_manually pm email_ force st)
             (fun result => (success_count result >? 0, result))
  end.

(** [POST /api/accounts/replenish]: [success] and [available_count]. *)
Definition manual_replenish {S : Type} (pool_manager : option (Manager S))
    (count : option Z) (st : S) : Response (bool * Z) * S :=
  match pool_manager with
  | None => (HTTPException 503, st)
  | Some pm =>
      if negb (_running (allocation pm) st) then (HTTPException 503, st)
      else guarded (manual_replenish_of pm count st)
             (fun available_count => (true, available_count))
  end.

(** [POST /api/pool/refresh] *)
Definition refresh_pool {S : Type} (pool_manager : option (Manager S))
    (st : S) : Response bool * S :=
  match pool_manager with
  | None => (HTTPException 503, st)
  | Some pm =>
      if negb (_running (allocation pm) st) then (HTTPException 503, st)
      else guarded (refresh_pool_of pm st) (fun success_ => success_)
  end.

End PoolServiceOps.

(** ** account_pool/batch_register.py: the synchronous path *)

Module BatchRegisterSync.
Import Py Accounts BatchRegister.

(** [register_single_account_sync()]: the account, or [None]; nothing
    catches what [add_account] raises before the outer [except]. *)
Definition register_single_account_sync (db : Database)
    (registration_ : Result Registration) (t : Table) : option Row * Table :=
  match registration_ with
  | Raised _ => (None, t)
  | Ok result =>
      if reg_success result then
        match final_tokens result with
        | None => (None, t)                       (* KeyError *)
        | Some ft =>
            let account := Account ft in
            match db account t with
            | Ok t' => (Some account, t')
            | Raised _ => (None, t)
            end
        end
      else (None, t)
  end.

(** [test_registration()]: [account is not None]. *)
Definition test_registration (db : Database)
    (registration_ : Result Registration) (t : Table) : bool * Table :=
  match register_single_account_sync db registration_ t with
  | (Some _, t') => (true, t')
  | (None, t') => (false, t')
  end.

End BatchRegisterSync.

(** ** warp2protobuf/core/pool_auth.py: the module-level entry points *)

Module PoolAuthApi.
Import Py PoolAuth.

Section Entry.

Variable is_token_expired : string -> Result bool.
Variable ACCOUNTS_PER_REQUEST : Z.

(** [update_env_file], from .auth as well. *)
Variable update_env_file : string -> Result unit.

(** [USE_POOL_SERVICE = os.getenv("USE_POOL_SERVICE", "true").lower() == "true"] *)
Variable USE_POOL_SERVICE : bool.

(** [acquire_anonymous_access_token] comes from .auth, which is not
    among the sources: any coroutine that gives a token or raises. *)
Variable acquire_anonymous_access_token : Coro string.

(** [acquire_pool_or_anonymous_token()] *)
Definition acquire_pool_or_anonymous_token : Coro string :=
  if USE_POOL_SERVICE then
    from_pool <-
      try_except
        (token <- acquire_pool_access_token is_token_expired
                    ACCOUNTS_PER_REQUEST update_env_file ;;
         Ret (Some token))
        (fun _ => Ret None) ;;
    match from_pool with
    | Some token => Ret token
    | None => acquire_anonymous_access_token
    end
  else acquire_anonymous_access_token.


(** [mark_quota_exhausted_and_get_new_token()] *)
Definition mark_quota_exhausted_and_get_new_token : Coro (option string) :=
  mark_current_account_quota_exhausted update_env_file ;;
  try_except
    (token <- acquire_pool_access_token is_token_expired
                    ACCOUNTS_PER_REQUEST update_env_file ;;
     Ret (Some token))
    (fun _ => Ret None).

End Entry.

End PoolAuthApi.

(** ** The broker in front of the pool service *)

Module Deployment.
Import Py.

(** What the broker's HTTP client sees of a handler's outcome: FastAPI
    answers 200 with the returned body, and [http_exception_handler]
    answers an [HTTPException] with its status code and a body that has
    no [success] key. *)
Definition served (r : PoolService.Response PoolService.MarkResponse)
    : PoolAuth.Response :=
  match r with
  | PoolService.Returned body =>
      PoolAuth.Http 200
        (Some (PoolAuth.mkJson (PoolService.mark_success body) [] None None None))
  | PoolService.HTTPException status_code =>
      PoolAuth.Http status_code
        (Some (PoolAuth.mkJson false [] None None None))
  end.

(** A pool service with accounts table [t] at time [now] that answers
    the mark request ([json={"email": email}]) and nothing else. *)
Definition mark_service (db : Accounts.Sqlite3) (now : datetime)
    (t : Accounts.Table) (delay : Z) : PoolAuth.World :=
  PoolAuth.mkWorld
    (fun _ req =>
       match req with
       | PoolAuth.PostMarkQuotaExhausted email_ =>
           served (fst (PoolService.mark_quota_exhausted db now
                          [("email", email_)] t))
       | _ => PoolAuth.ConnectionFailed
       end)
    (fun _ _ => delay).

End Deployment.

(** ** More vocabulary *)

Module MoreProps.
Import Py.

(** The entries of the exhausted listing, newest exhaustion first. *)
Definition most_recent_first (a b : QuotaReport.ExhaustedAccount) : Prop :=
  QuotaReport.ex_exhausted_at b <= QuotaReport.ex_exhausted_at a.

(** An entry of the listing computed at time [now]: reset thirty days
    after the exhaustion, and the whole days left until then. *)
Definition listed_at (now : datetime) (a : QuotaReport.ExhaustedAccount)
    : Prop :=
  QuotaReport.ex_reset_at a = QuotaReport.ex_exhausted_at a + Props.cooldown
  /\ QuotaReport.ex_days_until_reset a
     = Z.max 0 (QuotaReport.days (QuotaReport.ex_reset_at a - now))
  /\ 0 <= QuotaReport.ex_days_until_reset a.

(** The rows in the order of [ORDER BY quota_exhausted_at DESC]. *)
Definition newer_first (r r' : Accounts.Row) : Prop :=
  QuotaReport.stamp_geb (Accounts.quota_exhausted_at r)
    (Accounts.quota_exhausted_at r') = true.

(** The listing cannot be produced: the database cannot be read, or a
    row with status [quota_exhausted] carries no exhaustion time. *)
Definition listing_fails (db : Accounts.Sqlite3) (t : Accounts.Table) : Prop :=
  Accounts.connect_raises db = true
  \/ Accounts.execute_raises db = true
  \/ exists r, In r t
               /\ Accounts.status r = "quota_exhausted"
               /\ Accounts.quota_exhausted_at r = None.

(** What the mail service does with each user of a request, in the
    order of the request: whether it was created, and its address. *)
Fixpoint user_outcomes (mail : MailUsers.MailService) (n : nat)
    (users : list MailUsers.CreateUserRequest) : list (bool * string) :=
  match users with
  | [] => []
  | u :: rest =>
      (MailUsers.add_user mail n u, MailUsers.cu_email u)
      :: user_outcomes mail (S n) rest
  end.

Definition created_of (outcomes : list (bool * string)) : list string :=
  map snd (filter fst outcomes).

Definition failed_of (outcomes : list (bool * string)) : list string :=
  map snd (filter (fun o => negb (fst o)) outcomes).

(** The memory after the broker moved a lease on to its next account
    with the token derived for it: session id, account list and creation
    time stay. *)
Definition rotated (m : PoolAuth.Mem) (session : PoolAuth.Session)
    (next : PoolAuth.Account) (token : string) : PoolAuth.Mem :=
  PoolAuth.mkMem
    (Some (PoolAuth.mkSession (PoolAuth.session_id session)
             (PoolAuth.accounts session) (Some next)
             (PoolAuth.account_index session + 1)%nat token
             (PoolAuth.created_at session)))
    (PoolAuth.mkManager
       (PoolAuth.current_session_id (PoolAuth.self m)) (Some next)
       (PoolAuth.self_accounts (PoolAuth.self m))
       (PoolAuth.account_index session + 1)%nat (Some token))
    (Some token).

(** The memory when [update_env_file] raised at the end of such a move:
    the session and the manager are on the next account already, the
    env file is as it was. *)
Definition half_rotated (m : PoolAuth.Mem) (session : PoolAuth.Session)
    (next : PoolAuth.Account) (token : string) : PoolAuth.Mem :=
  PoolAuth.mkMem
    (PoolAuth._current_session (rotated m session next token))
    (PoolAuth.self (rotated m session next token))
    (PoolAuth.env_file m).

(** An acquire call allocated, cached the new session with a non-empty
    token at the clock reading of [s'], and then [update_env_file]
    raised on that token. *)
Definition cached_before_env_failure
    (update_env_file : string -> Result unit) (s' : PoolAuth.Sys) : Prop :=
  exists session err,
    PoolAuth._current_session (PoolAuth.mem s') = Some session
    /\ update_env_file (PoolAuth.access_token session) = Raised err
    /\ truthy (PoolAuth.access_token session) = true
    /\ PoolAuth.account_index session = 0%nat
    /\ PoolAuth.created_at session = PoolAuth.clock s'.

(** The email the broker reports when it marks the current account of
    the cached session: the account is there and its email is not
    empty. *)
Definition current_email (m : PoolAuth.Mem) : option string :=
  match PoolAuth._current_session m with
  | Some session =>
      match PoolAuth.account session with
      | Some a =>
          if truthy_opt (PoolAuth.email a) then PoolAuth.email a else None
      | None => None
      end
  | None => None
  end.

(** The answer is a 200, whatever its body. *)
Definition is_200 (r : PoolAuth.Response) : bool :=
  match r with
  | PoolAuth.Http status_code _ => status_code =? 200
  | PoolAuth.ConnectionFailed => false
  end.

End MoreProps.

(** ** More sample data *)

Module MoreSamples.
Import Py.

(** A pool manager that has been stopped; every method would answer. *)
Definition stopped_manager : PoolServiceOps.Manager Accounts.Table :=
  PoolServiceOps.mkManager
    (PoolService.mkPoolManager (fun _ => false)
       (fun _ t => (Ok (Some t), t)))
    (fun _ t => (Ok true, []))
    (fun t => (Ok (PoolServiceOps.mkPoolStatus [] 0 false 5 1 "stopped"), t))
    (fun _ _ t => (Ok (PoolServiceOps.mkRefreshResult 1), t))
    (fun _ t => (Ok 1, t))
    (fun t => (Ok true, t)).

(** A mail service that knows one address already and creates every
    other one. *)
Definition mail : MailUsers.MailService :=
  fun _ u =>
    if String.eqb (MailUsers.ud_email u) "taken@warp.dev"
    then BatchRegister.Reply 200 (Some (Some 500))
    else BatchRegister.Reply 200 (Some (Some 200)).

Definition user (e : string) : MailUsers.CreateUserRequest :=
  MailUsers.mkCreateUserRequest e None None.

(** An allocated account that carries both tokens. *)
Definition refreshable : PoolAuth.Account :=
  PoolAuth.mkAccount (Some "b@warp.dev") (Some "uid2") (Some "id-token")
    (Some "refresh-token").

(** A second allocated account, again with an id token only. *)
Definition second_account : PoolAuth.Account :=
  PoolAuth.mkAccount (Some "c@warp.dev") (Some "uid3") (Some "id-token-3") None.

(** A lease on two accounts, the first one current. *)
Definition double_lease : PoolAuth.Session :=
  PoolAuth.mkSession (Some "s1") [Samples.account; second_account]
    (Some Samples.account) 0%nat "id-token" 0.

(** An env file that cannot be written. *)
Definition read_only : string -> Result unit :=
  fun _ => Raised (RuntimeError "env file is read-only").

(** The anonymous path of .auth, as a coroutine that always gives the
    same token. *)
Definition anonymous : PoolAuth.Coro string := PoolAuth.Ret "anonymous-token".

End MoreSamples.

(** * Properties of the quota tracker *)

Section QuotaTrackerFacts.
Import Py Accounts QuotaTracker Props.

Lemma rowcount_positive (e : string) (t : Table) :
  In e (emails t) ->
  sql_rowcount (fun r => String.eqb (email r) e) t > 0.
Proof.
  unfold emails, sql_rowcount.
  induction t as [| r t IH]; simpl; [tauto |].
  intros [Hr | Hin].
  - rewrite Hr, String.eqb_refl. simpl. lia.
  - specialize (IH Hin). destruct (String.eqb (email r) e); simpl; lia.
Qed.

Lemma unknown_email_selects_nothing (e : string) (t : Table) :
  ~ In e (emails t) ->
  forall r, In r t -> String.eqb (email r) e = false.
Proof.
  intros Hnot r Hr. apply String.eqb_neq. intros Heq.
  apply Hnot. unfold emails. rewrite <- Heq. now apply in_map.
Qed.

Lemma update_nothing (p : Row -> bool) (f : Row -> Row) (t : Table) :
  (forall r, In r t -> p r = false) ->
  sql_update p f t = t /\ sql_rowcount p t = 0.
Proof.
  unfold sql_update, sql_rowcount.
  induction t as [| r t IH]; simpl; intros Hp; [split; reflexivity |].
  rewrite (Hp r (or_introl eq_refl)).
  destruct IH as [IH1 IH2]; [intros; apply Hp; now right |].
  rewrite IH1. split; [reflexivity | exact IH2].
Qed.

Lemma update_row (p : Row -> bool) (f : Row -> Row) (t : Table) (i : nat) (r : Row) :
  nth_error t i = Some r ->
  nth_error (sql_update p f t) i = Some (if p r then f r else r).
Proof.
  intros H. unfold sql_update. rewrite nth_error_map, H. reflexivity.
Qed.

(** The table a healthy [mark_account_quota_exhausted] leaves behind. *)
Lemma mark_healthy (now : datetime) (e : string) (t : Table) :
  mark_account_quota_exhausted healthy now e t =
  (sql_rowcount (fun r => String.eqb (email r) e) t >? 0,
   sql_update (fun r => String.eqb (email r) e) (set_quota_exhausted now) t).
Proof.
  unfold mark_account_quota_exhausted. simpl.
  destruct (sql_rowcount _ t >? 0); reflexivity.
Qed.

(** Whatever [sqlite3] does, the table afterwards is the old one or the
    updated one. *)
Lemma mark_table (db : Sqlite3) (now : datetime) (e : string) (t : Table) :
  snd (mark_account_quota_exhausted db now e t) = t
  \/ snd (mark_account_quota_exhausted db now e t) =
     sql_update (fun r => String.eqb (email r) e) (set_quota_exhausted now) t.
Proof.
  unfold mark_account_quota_exhausted, connect, execute, commit.
  destruct (connect_raises db), (execute_raises db), (commit_raises db);
    simpl; auto;
    destruct (sql_rowcount _ t >? 0); simpl; auto.
Qed.

Lemma reset_table (db : Sqlite3) (now : datetime) (t : Table) :
  snd (reset_expired_quotas db now t) = t
  \/ snd (reset_expired_quotas db now t) =
     sql_update (expired (now - timedelta_days quota_reset_days)) set_available t.
Proof.
  unfold reset_expired_quotas, connect, execute, commit.
  destruct (connect_raises db), (execute_raises db), (commit_raises db);
    simpl; auto;
    destruct (sql_select_email _ t); simpl; auto.
Qed.

(** A healthy [reset_expired_quotas], both results at once. *)
Lemma reset_healthy (now : datetime) (t : Table) :
  reset_expired_quotas healthy now t =
  (sql_rowcount (expired (now - timedelta_days quota_reset_days)) t,
   sql_update (expired (now - timedelta_days quota_reset_days)) set_available t).
Proof.
  unfold reset_expired_quotas. simpl.
  set (p := expired (now - timedelta_days quota_reset_days)).
  unfold sql_select_email.
  destruct (filter p t) as [| r0 rest] eqn:Hf; simpl.
  - assert (Hnone : forall r, In r t -> p r = false).
    { intros r Hr. destruct (p r) eqn:Hp; [| reflexivity].
      assert (Hin : In r (filter p t)) by (apply filter_In; auto).
      rewrite Hf in Hin. destruct Hin. }
    destruct (update_nothing p set_available t Hnone) as [Hu Hc].
    rewrite Hu, Hc. reflexivity.
  - reflexivity.
Qed.

Lemma expired_iff (now T : datetime) (r : Row) :
  status r = "quota_exhausted" ->
  quota_exhausted_at r = Some T ->
  expired (now - timedelta_days quota_reset_days) r = true
  <-> T + cooldown < now.
Proof.
  intros Hs Hq. unfold expired, sql_lt, cooldown, quota_reset_days.
  rewrite Hs, Hq. simpl. rewrite Z.ltb_lt. lia.
Qed.

End QuotaTrackerFacts.

Section QuotaTrackerClaims.
Import Py Accounts QuotaTracker Props.

(** C4.  For every email that exists in the accounts table, marking it
    quota-exhausted on a database whose calls go through returns [True]
    whatever the row's status was; afterwards every row with that email
    has [status = 'quota_exhausted'], [session_id] NULL and
    [quota_exhausted_at] equal to the current time, with its other
    columns as before, and every other row is untouched. *)
Theorem mark_existing_email_exhausts_it :
  forall (now : datetime) (e : string) (t : Table),
    In e (emails t) ->
    fst (mark_account_quota_exhausted healthy now e t) = true
    /\ List.length (snd (mark_account_quota_exhausted healthy now e t))
       = List.length t
    /\ forall (i : nat) (r : Row),
         nth_error t i = Some r ->
         exists r',
           nth_error (snd (mark_account_quota_exhausted healthy now e t)) i
             = Some r'
           /\ (email r = e ->
                 status r' = "quota_exhausted"
                 /\ session_id r' = None
                 /\ quota_exhausted_at r' = Some now
                 /\ same_credential r r')
           /\ (email r <> e -> r' = r).
Proof.
  intros now e t Hin. rewrite mark_healthy. simpl.
  split; [| split].
  - apply Z.gtb_lt. pose proof (rowcount_positive e t Hin). lia.
  - unfold sql_update. apply length_map.
  - intros i r Hi. eexists. split; [apply update_row; exact Hi |].
    split.
    + intros He. rewrite He, String.eqb_refl. simpl.
      unfold same_credential. simpl. repeat split; reflexivity.
    + intros Hne. apply String.eqb_neq in Hne. rewrite Hne. reflexivity.
Qed.

(** C5, as the code has it.  An account marked quota-exhausted at time
    [T] is left alone by every reclaim run up to and including
    [T + 30 days]; a reclaim run strictly later makes it [available],
    clears [quota_exhausted_at], and the returned count is the number of
    rows so reclaimed (at least this one). *)
Theorem reclaim_only_after_cooldown :
  forall (now T : datetime) (t : Table) (i : nat) (r : Row),
    nth_error t i = Some r ->
    status r = "quota_exhausted" ->
    quota_exhausted_at r = Some T ->
    (now <= T + cooldown ->
       nth_error (snd (reset_expired_quotas healthy now t)) i = Some r)
    /\ (T + cooldown < now ->
          exists r',
            nth_error (snd (reset_expired_quotas healthy now t)) i = Some r'
            /\ status r' = "available"
            /\ quota_exhausted_at r' = None
            /\ session_id r' = session_id r
            /\ same_credential r r'
            /\ 1 <= fst (reset_expired_quotas healthy now t))
    /\ fst (reset_expired_quotas healthy now t)
       = Z.of_nat (List.length
           (filter (fun x =>
                      String.eqb (status x) "quota_exhausted"
                      && match quota_exhausted_at x with
                         | Some Tx => Tx + cooldown <? now
                         | None => false
                         end) t)).
Proof.
  intros now T t i r Hi Hs Hq. rewrite reset_healthy. simpl.
  pose proof (expired_iff now T r Hs Hq) as Hexp.
  split; [| split].
  - intros Hle. rewrite (update_row _ _ _ _ _ Hi).
    destruct (expired _ r); [| reflexivity].
    assert (T + cooldown < now) by (apply Hexp; reflexivity). lia.
  - intros Hlt. apply Hexp in Hlt.
    rewrite (update_row _ _ _ _ _ Hi), Hlt.
    eexists. split; [reflexivity |]. simpl.
    unfold same_credential. simpl. repeat split; try reflexivity.
    unfold sql_rowcount.
    assert (Hin : In r (filter (expired (now - timedelta_days quota_reset_days)) t)).
    { apply filter_In. split; [eapply nth_error_In; eauto | exact Hlt]. }
    destruct (filter _ t); [destruct Hin | simpl; lia].
  - unfold sql_rowcount. f_equal. f_equal.
    apply filter_ext. intros x. unfold expired, sql_lt, cooldown, quota_reset_days.
    f_equal. destruct (quota_exhausted_at x) as [Tx |]; [| reflexivity].
    destruct (Z.ltb_spec Tx (now - timedelta_days 30));
      destruct (Z.ltb_spec (Tx + timedelta_days 30) now); try reflexivity; lia.
Qed.

(** C6.  Both quota operations keep the invariant
    [quota_exhausted_at <> NULL <-> status = 'quota_exhausted'] on every
    row, whatever the database layer does: a row is left as it was, or
    marking has set the two columns together, or reclaiming has cleared
    them together. *)
Theorem quota_operations_keep_invariant :
  forall (db : Sqlite3) (now : datetime) (e : string) (t : Table)
         (i : nat) (r : Row),
    nth_error t i = Some r ->
    quota_invariant r ->
    (exists r',
       nth_error (snd (mark_account_quota_exhausted db now e t)) i = Some r'
       /\ (r' = r \/ (status r' = "quota_exhausted"
                      /\ quota_exhausted_at r' = Some now))
       /\ email r' = email r
       /\ quota_invariant r')
    /\ (exists r',
          nth_error (snd (reset_expired_quotas db now t)) i = Some r'
          /\ (r' = r \/ (status r' = "available"
                         /\ quota_exhausted_at r' = None))
          /\ email r' = email r
          /\ quota_invariant r').
Proof.
  intros db now e t i r Hi Hinv. split.
  - destruct (mark_table db now e t) as [-> | ->].
    + exists r. auto.
    + rewrite (update_row _ _ _ _ _ Hi).
      destruct (String.eqb (email r) e).
      * eexists. split; [reflexivity |]. split; [right; simpl; auto |].
        split; [reflexivity |].
        unfold quota_invariant. simpl. split; [reflexivity | discriminate].
      * exists r. auto.
  - destruct (reset_table db now t) as [-> | ->].
    + exists r. auto.
    + rewrite (update_row _ _ _ _ _ Hi).
      destruct (expired _ r).
      * eexists. split; [reflexivity |]. split; [right; simpl; auto |].
        split; [reflexivity |].
        unfold quota_invariant. simpl.
        split; [intros H; now elim H | discriminate].
      * exists r. auto.
Qed.

End QuotaTrackerClaims.

Section QuotaTrackerInstances.
Import Py Accounts QuotaTracker Props.

Lemma mark_existing_email_exhausts_it_witness :
  In "a@warp.dev" (emails Samples.table)
  /\ fst (mark_account_quota_exhausted healthy 7 "a@warp.dev" Samples.table)
     = true.
Proof.
  split; [simpl; auto |].
  apply (mark_existing_email_exhausts_it 7 "a@warp.dev" Samples.table).
  simpl; auto.
Defined.

(** C5 as it is worded fails on the boundary: a reclaim run exactly
    thirty days after the mark leaves the account exhausted. *)
Lemma reclaim_at_exact_cooldown_counterexample :
  ~ (forall (now T : datetime) (t : Table) (i : nat) (r : Row),
       nth_error t i = Some r ->
       status r = "quota_exhausted" ->
       quota_exhausted_at r = Some T ->
       (now < T + cooldown ->
          nth_error (snd (reset_expired_quotas healthy now t)) i = Some r)
       /\ (T + cooldown <= now ->
             exists r',
               nth_error (snd (reset_expired_quotas healthy now t)) i = Some r'
               /\ status r' = "available"
               /\ quota_exhausted_at r' = None
               /\ 1 <= fst (reset_expired_quotas healthy now t))).
Proof.
  intros claim.
  destruct (claim cooldown 0 Samples.table 1%nat
              (Samples.row "b@warp.dev" "quota_exhausted" None (Some 0))
              eq_refl eq_refl eq_refl) as [_ late].
  destruct (late (Z.le_refl _)) as [r' [Hnth [Hst _]]].
  vm_compute in Hnth. injection Hnth as <-. discriminate Hst.
Qed.

Lemma reclaim_only_after_cooldown_witness :
  nth_error Samples.table 1
    = Some (Samples.row "b@warp.dev" "quota_exhausted" None (Some 0))
  /\ fst (reset_expired_quotas healthy (cooldown + 1) Samples.table) = 1.
Proof.
  split; [reflexivity |].
  rewrite (proj2 (proj2 (reclaim_only_after_cooldown (cooldown + 1) 0
                           Samples.table 1%nat _ eq_refl eq_refl eq_refl))).
  reflexivity.
Defined.

Lemma quota_operations_keep_invariant_witness :
  quota_invariant (Samples.row "a@warp.dev" "in_use" (Some "s1") None)
  /\ exists r',
       nth_error
         (snd (mark_account_quota_exhausted healthy 7 "a@warp.dev"
                 Samples.table)) 0 = Some r'
       /\ quota_invariant r'.
Proof.
  assert (Hinv : quota_invariant
                   (Samples.row "a@warp.dev" "in_use" (Some "s1") None)).
  { unfold quota_invariant. simpl. split; [intros H; now elim H | discriminate]. }
  split; [exact Hinv |].
  destruct (proj1 (quota_operations_keep_invariant healthy 7 "a@warp.dev"
                     Samples.table 0%nat _ eq_refl Hinv))
    as [r' [Hnth [_ [_ Hr']]]].
  exists r'. split; assumption.
Defined.

End QuotaTrackerInstances.

(** * Properties of the REST handlers *)

Section MarkEndpoint.
Import Py Accounts QuotaTracker Props PoolService.

Lemma mark_unknown_email (db : Sqlite3) (now : datetime) (e : string) (t : Table) :
  ~ In e (emails t) ->
  mark_account_quota_exhausted db now e t = (false, t).
Proof.
  intros Hnot.
  destruct (update_nothing (fun r => String.eqb (email r) e)
              (set_quota_exhausted now) t
              (unknown_email_selects_nothing e t Hnot)) as [Hu Hc].
  unfold mark_account_quota_exhausted, connect, execute, commit.
  rewrite Hu, Hc.
  destruct (connect_raises db), (execute_raises db), (commit_raises db);
    reflexivity.
Qed.

(** A request without an email, or with an empty one, is refused with
    [HTTPException(400)] before the tracker is asked: no mark is
    attempted for it. *)
Lemma mark_endpoint_requires_email (db : Sqlite3) (now : datetime)
      (request : Dict) (t : Table) :
  truthy_opt (dict_get request "email") = false ->
  mark_quota_exhausted db now request t = (HTTPException 400, t).
Proof.
  intros Hempty. unfold mark_quota_exhausted.
  destruct (dict_get request "email") as [e |]; [| reflexivity].
  simpl in Hempty. rewrite Hempty. reflexivity.
Qed.

(** C8.  Marking quota-exhausted for an email that is not in the
    accounts table returns [False], changes no row and raises nothing,
    whatever the database layer does; the endpoint, for a request that
    carries such an email, answers [success = false] as an ordinary
    response, no [HTTPException], with the table unchanged. *)
Theorem mark_unknown_email_reports_failure :
  forall (db : Sqlite3) (now : datetime) (e : string) (t : Table)
         (request : Dict),
    ~ In e (emails t) ->
    mark_account_quota_exhausted db now e t = (false, t)
    /\ (truthy e = true ->
        dict_get request "email" = Some e ->
        mark_quota_exhausted db now request t
        = (Returned (mkMarkResponse false), t)).
Proof.
  intros db now e t request Hnot.
  pose proof (mark_unknown_email db now e t Hnot) as Hmark.
  split; [exact Hmark |].
  intros Htruthy Hget. unfold mark_quota_exhausted. rewrite Hget, Htruthy.
  simpl. rewrite Hmark. reflexivity.
Qed.

Lemma mark_unknown_email_reports_failure_witness :
  ~ In "nobody@warp.dev" (emails Samples.table)
  /\ mark_account_quota_exhausted (mkSqlite3 false false true) 7 "nobody@warp.dev"
       Samples.table
     = (false, Samples.table)
  /\ mark_quota_exhausted (mkSqlite3 false false true) 7
       [("email", "nobody@warp.dev")] Samples.table
     = (Returned (mkMarkResponse false), Samples.table).
Proof.
  assert (Hnot : ~ In "nobody@warp.dev" (emails Samples.table)).
  { simpl. intros [H | [H | H]]; try discriminate H. exact H. }
  split; [exact Hnot |].
  destruct (mark_unknown_email_reports_failure (mkSqlite3 false false true) 7
              "nobody@warp.dev" Samples.table [("email", "nobody@warp.dev")]
              Hnot) as [Hmark Hendpoint].
  split; [exact Hmark | exact (Hendpoint eq_refl eq_refl)].
Defined.

End MarkEndpoint.

Section AllocateEndpoint.
Import Py Accounts PoolService.

(** The handler never reads [request.count]. *)
Lemma allocate_accounts_ignores_count :
  forall (S : Type) (pm : option (PoolManager S)) (sid : option string)
         (k1 k2 : Z) (st : S),
    allocate_accounts pm (mkAllocateAccountRequest sid k1) st
    = allocate_accounts pm (mkAllocateAccountRequest sid k2) st.
Proof. intros. reflexivity. Qed.

(** C3, what the code does.  Whatever count the request asks for, the
    handler reports success with every account the pool manager handed
    out, as soon as there is at least one. *)
Theorem allocate_reports_success_whatever_count :
  forall (S : Type) (pm : PoolManager S) (request : AllocateAccountRequest)
         (st st' : S) (acc : Row) (rest : list Row) (sid : string),
    valid_request request ->
    _running pm st = true ->
    allocate_accounts_for_request pm (req_session_id request) st
      = (Ok (Some (acc :: rest)), st') ->
    session_id acc = Some sid ->
    allocate_accounts (Some pm) request st
    = (Returned (mkAllocateAccountResponse true sid
                   (map account_info (acc :: rest))), st').
Proof.
  intros S pm request st st' acc rest sid _ Hrun Halloc Hsid.
  unfold allocate_accounts. rewrite Hrun, Halloc. simpl. rewrite Hsid.
  reflexivity.
Qed.

(** A request for two accounts answered with [success = true] and one. *)
Lemma allocate_reports_success_whatever_count_witness :
  valid_request (mkAllocateAccountRequest None 2)
  /\ exists info,
       fst (allocate_accounts (Some Samples.one_account_manager)
              (mkAllocateAccountRequest None 2) Samples.table)
       = Returned (mkAllocateAccountResponse true "s1" [info]).
Proof.
  assert (Hvalid : valid_request (mkAllocateAccountRequest None 2))
    by (unfold valid_request; simpl; lia).
  split; [exact Hvalid |].
  eexists.
  rewrite (allocate_reports_success_whatever_count _ Samples.one_account_manager
             (mkAllocateAccountRequest None 2) Samples.table Samples.table
             _ [] "s1" Hvalid eq_refl eq_refl eq_refl).
  reflexivity.
Defined.

End AllocateEndpoint.

(** * Properties of the replenishment pass *)

Section BatchRegisterFacts.
Import Py Accounts BatchRegister Props.

(** [as_completed] yields a future once it is done, so [result] answers
    without waiting: the 300 s never run out. *)
Lemma result_never_times_out (clock : Z) (f : Future) :
  future_result (Z.max clock (finished_at f)) f 300 = Ok (returned f).
Proof.
  unfold future_result.
  destruct (Z.leb_spec (finished_at f) (Z.max clock (finished_at f) + 300));
    [reflexivity | lia].
Qed.

(** Case analysis along the branches of [_register_single_account]. *)
Ltac attempt_cases :=
  repeat match goal with
         | |- context [match registration ?a with _ => _ end] =>
             destruct (registration a) as [?result | ?e]
         | |- context [if reg_success ?r then _ else _] =>
             destruct (reg_success r)
         | |- context [match final_tokens ?r with _ => _ end] =>
             destruct (final_tokens r) as [?ft |]
         | |- context [_activate_warp_user ?i ?r] =>
             destruct (_activate_warp_user i r)
         | |- context [_get_request_limit ?i ?r] =>
             destruct (_get_request_limit i r) as [?lim |]
         end.

(** An attempt that gets to the add. *)
Lemma register_single_reaching_add (db : Database) (index : Z) (a : Attempt)
    (t : Table) (ft : FinalTokens) :
  tokens_of a = Some ft ->
  reaches_add a = true ->
  exists limit,
    _register_single_account db index a t
    = (mkAttemptResult true index (Some (ft_email ft)) limit None,
       match db (Account ft) t with Ok t' => t' | Raised _ => t end).
Proof.
  unfold reaches_add, tokens_of, _register_single_account.
  destruct (registration a) as [result | e]; [| discriminate].
  destruct (reg_success result); [| discriminate].
  intros Hft. rewrite Hft.
  destruct (_activate_warp_user _ _); [| discriminate].
  destruct (_get_request_limit _ _) as [lim |]; [| discriminate].
  intros _. simpl. eexists. reflexivity.
Qed.






(** What the pass collects is what the workers returned, in the order in
    which they finished: the [except] branch of the loop is never taken. *)
Lemma collect_results (fs : list Future) :
  forall clock acc,
    results (collect clock fs acc) = results acc ++ map returned fs.
Proof.
  induction fs as [| f fs IH]; intros clock acc; simpl;
    [now rewrite app_nil_r |].
  rewrite result_never_times_out, IH.
  destruct (res_success (returned f));
    [destruct (limit_is _ 2500); [| destruct (limit_is _ 150)] |];
    simpl; rewrite <- app_assoc; reflexivity.
Qed.

(** A worker never reports the collector's own error. *)
Lemma register_single_own_error (db : Database) (index : Z) (a : Attempt) (t : Table) :
  res_error (fst (_register_single_account db index a t)) <> Some TaskException.
Proof.
  unfold _register_single_account.
  attempt_cases; simpl; try discriminate;
    repeat match goal with
           | |- context [if ?b then _ else _] => destruct b
           end; discriminate.
Qed.

Lemma run_workers_returned (db : Database) (js : list (Z * Attempt)) :
  forall t,
    List.length (fst (run_workers db js t)) = List.length js
    /\ Forall (fun f => res_error (returned f) <> Some TaskException)
         (fst (run_workers db js t)).
Proof.
  induction js as [| [index a] js IH]; intros t; simpl; [auto |].
  pose proof (register_single_own_error db index a t) as Herr.
  destruct (_register_single_account db index a t) as [r t1].
  specialize (IH t1). destruct (run_workers db js t1) as [fs t2].
  simpl in *. destruct IH as [Hlen Hall].
  split; [now rewrite Hlen | constructor; assumption].
Qed.

End BatchRegisterFacts.

Section CompletionOrder.
Import Py Accounts BatchRegister Props.

Variable p : Z * Attempt -> bool.

Lemma insert_by_finish_count (j : Z * Attempt) (js : list (Z * Attempt)) :
  List.length (filter p (insert_by_finish j js))
  = List.length (filter p (j :: js)).
Proof.
  induction js as [| j' js IH]; [reflexivity |].
  simpl insert_by_finish.
  destruct (_ <? _); [reflexivity |].
  simpl in *. destruct (p j'), (p j); simpl in *; lia.
Qed.

(** Sorting the jobs by finishing time neither loses nor invents one. *)
Lemma completion_order_count (js : list (Z * Attempt)) :
  List.length (filter p (completion_order js)) = List.length (filter p js).
Proof.
  unfold completion_order.
  rewrite <- (rev_involutive js) at 2. rewrite filter_rev, length_rev.
  induction (rev js) as [| j l IH]; [reflexivity |].
  simpl fold_right. rewrite insert_by_finish_count.
  simpl. destruct (p j); simpl; rewrite IH; reflexivity.
Qed.

End CompletionOrder.

Section HandOverOrder.
Import Py Accounts BatchRegister Props.


Lemma insert_by_position_perm (position : Z -> Z) (f : Future)
    (fs : list Future) :
  Permutation (insert_by_position position f fs) (f :: fs).
Proof.
  induction fs as [| f' fs IH]; simpl; [apply Permutation_refl |].
  destruct (_ <=? _); [apply Permutation_refl |].
  apply perm_trans with (f' :: f :: fs); [| apply perm_swap].
  apply perm_skip. exact IH.
Qed.

(** Whatever the order in which [as_completed] hands the futures over,
    it hands over every future, once. *)
Lemma as_completed_perm (position : Z -> Z) (fs : list Future) :
  Permutation (as_completed position fs) fs.
Proof.
  unfold as_completed.
  induction fs as [| f fs IH]; simpl; [apply Permutation_refl |].
  apply perm_trans with (f :: fold_right (insert_by_position position) [] fs);
    [apply insert_by_position_perm | apply perm_skip; exact IH].
Qed.

End HandOverOrder.

Section BatchRegisterClaims.
Import Py Accounts BatchRegister Props.





(** Every attempt of a pass is waited for and reported by its own worker,
    however long it ran. *)
Lemma pass_waits_for_every_attempt (db : Database) (world : Z -> Attempt)
    (position : Z -> Z) (count : nat) (t : Table) :
  List.length
    (results (fst (register_accounts_concurrent db world position count t)))
  = count
  /\ Forall (fun r => res_error r <> Some TaskException)
       (results (fst (register_accounts_concurrent db world position count t))).
Proof.
  unfold register_accounts_concurrent.
  set (jobs := map _ (seq 0 count)).
  destruct (run_workers_returned db (completion_order jobs) t) as [Hlen Hall].
  destruct (run_workers db (completion_order jobs) t) as [futures t'].
  simpl in *. rewrite collect_results. simpl.
  pose proof (as_completed_perm position futures) as Hperm.
  split.
  - rewrite length_map, (Permutation_length Hperm), Hlen.
    pose proof (completion_order_count (fun _ => true) jobs) as Hcount.
    rewrite !filter_true in Hcount. rewrite Hcount.
    unfold jobs. now rewrite length_map, length_seq.
  - apply Forall_map.
    apply (Permutation_Forall (Permutation_sym Hperm)). exact Hall.
Qed.

(** A pass of one attempt that gets to the add, whatever its duration. *)
Lemma single_attempt_pass (db : Database) (position : Z -> Z) (a : Attempt)
    (ft : FinalTokens) (t t' : Table) :
  tokens_of a = Some ft ->
  reaches_add a = true ->
  db (Account ft) t = Ok t' ->
  exists limit high normal,
    register_accounts_concurrent db (fun _ => a) position 1 t
    = (mkTally [mkAttemptResult true 1 (Some (ft_email ft)) limit None]
         1 0 high normal, t').
Proof.
  intros Hft Hreach Hadd.
  unfold register_accounts_concurrent. simpl.
  destruct (register_single_reaching_add db 1 a t ft Hft Hreach)
    as [limit ->].
  rewrite Hadd.
  cbn [run_workers completion_order fold_right rev app insert_by_finish
       fst snd collect as_completed insert_by_position].
  set (f := mkFuture _ _).
  change (started_at a + duration a) with (finished_at f).
  rewrite result_never_times_out. subst f. simpl.
  exists limit.
  destruct (limit_is limit 2500); [simpl; eauto |].
  destruct (limit_is limit 150); simpl; eauto.
Qed.

(** C1, what the code does.  No attempt is abandoned: a pass reports one
    result per attempt and none of them is the collector's timeout
    error, however long the attempts ran; and an attempt that runs for
    more than 300 seconds and gets to the add has its row in the table
    after the pass and is counted as a success. *)
Theorem slow_attempt_still_writes :
  forall (db : Database) (position : Z -> Z) (a : Attempt) (ft : FinalTokens)
         (t t' : Table),
    300 < duration a ->
    tokens_of a = Some ft ->
    reaches_add a = true ->
    db (Account ft) t = Ok t' ->
    snd (register_accounts_concurrent db (fun _ => a) position 1 t) = t'
    /\ success_count
         (fst (register_accounts_concurrent db (fun _ => a) position 1 t)) = 1
    /\ failed_count
         (fst (register_accounts_concurrent db (fun _ => a) position 1 t)) = 0
    /\ (exists limit,
          results
            (fst (register_accounts_concurrent db (fun _ => a) position 1 t))
          = [mkAttemptResult true 1 (Some (ft_email ft)) limit None])
    /\ forall (world : Z -> Attempt) (count : nat),
         List.length
           (results
              (fst (register_accounts_concurrent db world position count t)))
         = count
         /\ Forall (fun r => res_error r <> Some TaskException)
              (results
                 (fst (register_accounts_concurrent db world position count t))).
Proof.
  intros db position a ft t t' _ Hft Hreach Hadd.
  destruct (single_attempt_pass db position a ft t t' Hft Hreach Hadd)
    as [limit [high [normal ->]]].
  simpl. repeat split; eauto; apply pass_waits_for_every_attempt.
Qed.

(** A 400-second attempt on the sample table: its row is the third. *)
Lemma slow_attempt_still_writes_witness :
  300 < duration (Samples.good_attempt 400)
  /\ snd (register_accounts_concurrent add_account
            (fun _ => Samples.good_attempt 400) (fun i => i) 1 Samples.table)
     = Samples.table ++ [Samples.row "new@warp.dev" "available" None None].
Proof.
  split; [simpl; lia |].
  apply (slow_attempt_still_writes add_account (fun i => i)
           (Samples.good_attempt 400)
           (mkFinalTokens true "new@warp.dev" "uid" "id-token" "refresh-token")
           Samples.table);
    [simpl; lia | reflexivity | reflexivity | reflexivity].
Defined.

End BatchRegisterClaims.

(** * Properties of the session broker *)

Section CoroutineFacts.
Import Py PoolAuth.

Context {A B : Type}.
Variable w : World.
Variable me : nat.

(** Every lemma below goes by induction on the tree; the only node that
    looks at the system is [Lock]. *)
Ltac by_coro_induction c :=
  induction c; intros s; simpl; auto;
  match goal with
  | |- context [lock ?s] => destruct (lock s); auto
  end.

(** [run] through a sequence, a handler and a [finally]. *)
Lemma run_bind (c : Coro A) (f : A -> Coro B) :
  forall s,
    run w me (bind c f) s
    = match run w me c s with
      | (s', Some (Ok a)) => run w me (f a) s'
      | (s', Some (Raised e)) => (s', Some (Raised e))
      | (s', None) => (s', None)
      end.
Proof.
  by_coro_induction c.
Qed.

Lemma run_try_except (c : Coro A) (h : Exn -> Coro A) :
  forall s,
    run w me (try_except c h) s
    = match run w me c s with
      | (s', Some (Raised e)) => run w me (h e) s'
      | other => other
      end.
Proof.
  by_coro_induction c.
Qed.

Lemma run_try_finally (c : Coro A) (final : Coro unit) :
  forall s,
    run w me (try_finally c final) s
    = match run w me c s with
      | (s', Some (Ok a)) => run w me (bind final (fun _ => Ret a)) s'
      | (s', Some (Raised e)) => run w me (bind final (fun _ => Raise e)) s'
      | (s', None) => (s', None)
      end.
Proof.
  by_coro_induction c.
Qed.

(** A call run on its own is its stretches taken one after the other. *)
Lemma run_advance (c : Coro A) :
  forall s,
    run w me c s
    = match advance me c s with
      | (s', Finished r) => (s', Some r)
            | (s', Waiting n req k) =>
          run w me (k (answer w n req)) (elapse s' (latency w n req))
      | (s', Blocked _) => (s', None)
      | (s', Ready _) => (s', None)
      end.
Proof.
  by_coro_induction c.
Qed.

(** One stretch through a sequence. *)
Lemma advance_bind (c : Coro A) (f : A -> Coro B) :
  forall s,
    advance me (bind c f) s
    = match advance me c s with
      | (s', Finished (Ok a)) => advance me (f a) s'
      | (s', Finished (Raised e)) => (s', Finished (Raised e))
      | (s', Waiting n req k) => (s', Waiting n req (fun r => bind (k r) f))
      | (s', Blocked c') => (s', Blocked (bind c' f))
      | (s', Ready c') => (s', Ready (bind c' f))
      end.
Proof.
  by_coro_induction c.
Qed.

Lemma advance_try_except (c : Coro A) (h : Exn -> Coro A) :
  forall s,
    advance me (try_except c h) s
    = match advance me c s with
      | (s', Finished (Ok a)) => (s', Finished (Ok a))
      | (s', Finished (Raised e)) => advance me (h e) s'
      | (s', Waiting n req k) =>
          (s', Waiting n req (fun r => try_except (k r) h))
      | (s', Blocked c') => (s', Blocked (try_except c' h))
      | (s', Ready c') => (s', Ready (try_except c' h))
      end.
Proof.
  by_coro_induction c.
Qed.

Lemma advance_try_finally (c : Coro A) (final : Coro unit) :
  forall s,
    advance me (try_finally c final) s
    = match advance me c s with
      | (s', Finished (Ok a)) => advance me (bind final (fun _ => Ret a)) s'
      | (s', Finished (Raised e)) =>
          advance me (bind final (fun _ => Raise e)) s'
      | (s', Waiting n req k) =>
          (s', Waiting n req (fun r => try_finally (k r) final))
      | (s', Blocked c') => (s', Blocked (try_finally c' final))
      | (s', Ready c') => (s', Ready (try_finally c' final))
      end.
Proof.
  by_coro_induction c.
Qed.

End CoroutineFacts.

Section SessionCheck.
Import Py PoolAuth Props.

Variable is_token_expired : string -> Result bool.

(** A lease is never both. *)
Lemma stale_not_reusable (now : Z) (session : Session) :
  lease_stale is_token_expired now session = true ->
  lease_reusable is_token_expired now session = false.
Proof.
  unfold lease_stale, lease_reusable.
  destruct (Z.ltb_spec 1800 (now - created_at session));
    destruct (Z.leb_spec (now - created_at session) 1800); try lia;
    simpl; try reflexivity.
  destruct (truthy (access_token session)); simpl; [| reflexivity].
  destruct (is_token_expired (access_token session)) as [[|] | e];
    try (intros; reflexivity || discriminate).
  destruct (account session) as [a |]; [| reflexivity].
  destruct (id_token a) as [t |]; [| discriminate].
  destruct (is_token_expired t) as [[|] | e']; try discriminate.
  intros ->. reflexivity.
Qed.

(** [_is_session_valid] in one stretch: a reusable lease is accepted and
    put back on the manager, a stale one is refused, and a lease that is
    neither (the expiry check cannot read its token and its account is
    gone) makes the check raise. *)
Lemma session_check_advance (me : nat) (session : Session) (s : Sys) :
  advance me (_is_session_valid is_token_expired session) s
  = if lease_reusable is_token_expired (clock s) session
    then (set_mem s (restored (mem s) session), Finished (Ok true))
    else if lease_stale is_token_expired (clock s) session
    then (s, Finished (Ok false))
    else (s, Finished (Raised AttributeError)).
Proof.
  unfold lease_reusable, lease_stale, _is_session_valid, token_check.
  cbn [advance].
  destruct (Z.gtb_spec (clock s - created_at session) 1800) as [Hgt | Hle];
    destruct (Z.ltb_spec 1800 (clock s - created_at session));
    destruct (Z.leb_spec (clock s - created_at session) 1800); try lia;
    simpl; [reflexivity |].
  destruct (truthy (access_token session)); simpl; [| reflexivity].
  destruct (is_token_expired (access_token session)) as [[|] | e];
    try reflexivity.
  destruct (account session) as [a |]; [| reflexivity].
  destruct (id_token a) as [t |]; [| reflexivity].
  destruct (truthy t); [| destruct (is_token_expired t) as [[|] | e']; reflexivity].
  destruct (is_token_expired t) as [[|] | e']; reflexivity.
Qed.

End SessionCheck.

Section AcquireFacts.
Import Py PoolAuth Props.

Variable is_token_expired : string -> Result bool.
Variable ACCOUNTS_PER_REQUEST : Z.
Variable update_env_file : string -> Result unit.
Variable me : nat.

(** The cache check, taken with the lock free: it hands back the cached
    token of a reusable lease and nothing for a stale or missing one,
    sends no request, and leaves the lock free. *)
Lemma cached_token_advance (m : Mem) (c : Z) (wr : list Request) :
  advance me (cached_session_token is_token_expired) (mkSys m None c wr)
  = match _current_session m with
    | Some session =>
        if lease_reusable is_token_expired c session
        then (mkSys (restored m session) None c wr,
              Finished (Ok (Some (access_token session))))
        else if lease_stale is_token_expired c session
        then (mkSys m None c wr, Finished (Ok None))
        else (mkSys m None c wr, Finished (Raised AttributeError))
    | None => (mkSys m None c wr, Finished (Ok None))
    end.
Proof.
  unfold cached_session_token, with_session_lock.
  cbn [advance lock]. rewrite advance_try_finally.
  cbn [advance mem set_lock].
  destruct (_current_session m) as [session |]; [| reflexivity].
  rewrite advance_bind, session_check_advance.
  unfold set_lock, set_mem. cbn [clock mem lock wire].
  destruct (lease_reusable is_token_expired c session); [reflexivity |].
  destruct (lease_stale is_token_expired c session); reflexivity.
Qed.

(** Without a reusable lease the check comes back empty-handed. *)
Lemma cached_token_miss (m : Mem) (c : Z) (wr : list Request) :
  no_reusable_lease is_token_expired (mkSys m None c wr) ->
  advance me (cached_session_token is_token_expired) (mkSys m None c wr)
  = (mkSys m None c wr, Finished (Ok None)).
Proof.
  intros Hmiss. unfold no_reusable_lease in Hmiss. cbn [mem clock] in Hmiss.
  rewrite cached_token_advance.
  destruct (_current_session m) as [session |]; [| reflexivity].
  rewrite (stale_not_reusable is_token_expired c session (Hmiss session eq_refl)).
  rewrite (Hmiss session eq_refl). reflexivity.
Qed.

(** With a reusable lease cached, the call is over after its first
    stretch: the cached token, no request. *)
Lemma acquire_hit_advance (m : Mem) (c : Z) (wr : list Request)
    (session : Session) :
  _current_session m = Some session ->
  lease_reusable is_token_expired c session = true ->
  advance me (acquire_pool_access_token is_token_expired ACCOUNTS_PER_REQUEST
       update_env_file)
    (mkSys m None c wr)
  = (mkSys (restored m session) None c wr,
     Finished (Ok (access_token session))).
Proof.
  intros Hcache Hreuse. unfold acquire_pool_access_token.
  rewrite advance_try_except, advance_bind, cached_token_advance.
  rewrite Hcache, Hreuse. reflexivity.
Qed.

(** Without one, the first stretch ends in the allocation request, the
    lock free again and the memory untouched. *)
Lemma acquire_miss_advance (m : Mem) (c : Z) (wr : list Request) :
  no_reusable_lease is_token_expired (mkSys m None c wr) ->
  exists k,
    advance me (acquire_pool_access_token is_token_expired ACCOUNTS_PER_REQUEST
       update_env_file)
      (mkSys m None c wr)
    = (mkSys m None c (wr ++ [PostAllocate ACCOUNTS_PER_REQUEST]),
       Waiting (List.length wr) (PostAllocate ACCOUNTS_PER_REQUEST) k).
Proof.
  intros Hmiss. unfold acquire_pool_access_token.
  rewrite advance_try_except, advance_bind, (cached_token_miss m c wr Hmiss).
  simpl. eexists. reflexivity.
Qed.

Variable w : World.

(** Deriving a token touches neither the memory nor the lock; it sends
    at most the refresh request and always comes back. *)
Lemma token_exchange_run (a : Account) (s : Sys) :
  exists reqs dt res,
    run w me (_get_access_token_from_account a) s
    = (mkSys (mem s) (lock s) (clock s + dt) (wire s ++ reqs), Some res).
Proof.
  assert (Hleaf : forall tok msg s0,
             run w me (return_or_raise tok msg) s0
             = (s0, Some (match tok with
                          | Some t => if truthy t then Ok t
                                      else Raised (RuntimeError msg)
                          | None => Raised (RuntimeError msg)
                          end))).
  { intros [t |] msg s0; simpl; [destruct (truthy t) |]; reflexivity. }
  assert (Hquiet : forall tok msg,
             exists res,
               run w me (return_or_raise tok msg) s
               = (mkSys (mem s) (lock s) (clock s + 0) (wire s ++ []), Some res)).
  { intros tok msg. rewrite Hleaf, app_nil_r, Z.add_0_r. destruct s.
    eexists. reflexivity. }
  unfold _get_access_token_from_account.
  destruct (refresh_token a) as [rt |]; [| exists [], 0; apply Hquiet].
  destruct (truthy rt); [| exists [], 0; apply Hquiet].
  exists [PostRefreshToken rt],
    (latency w (List.length (wire s)) (PostRefreshToken rt)).
  rewrite run_bind. simpl.
  destruct (answer w (List.length (wire s)) (PostRefreshToken rt))
    as [| status body]; simpl; [eexists; reflexivity |].
  destruct (status =? 200); simpl; [| rewrite Hleaf; eexists; reflexivity].
  destruct body as [token_data |]; simpl; [| eexists; reflexivity].
  destruct (truthy_opt (j_access_token token_data)); simpl;
    rewrite Hleaf; eexists; reflexivity.
Qed.

(** The allocating part of the call, run on its own: the allocation
    request goes out first, and a token comes back only when the pool
    answered 200 with [success] and a non-empty list; it is then the
    token derived from the first account of that list, and the session
    stored is the one just allocated. *)
Lemma allocate_session_run (m : Mem) (c : Z) (wr : list Request) :
  (exists rest,
     wire (fst (run w me (allocate_session ACCOUNTS_PER_REQUEST update_env_file)
                  (mkSys m None c wr)))
     = wr ++ PostAllocate ACCOUNTS_PER_REQUEST :: rest)
  /\ forall token,
       snd (run w me (allocate_session ACCOUNTS_PER_REQUEST update_env_file)
              (mkSys m None c wr)) = Some (Ok token) ->
       exists data first others s1 s2 stored_at,
         answer w (List.length wr) (PostAllocate ACCOUNTS_PER_REQUEST)
           = Http 200 (Some data)
         /\ j_success data = true
         /\ j_accounts data = first :: others
         /\ wire s1 = wr ++ [PostAllocate ACCOUNTS_PER_REQUEST]
         /\ run w me (_get_access_token_from_account first) s1
            = (s2, Some (Ok token))
         /\ _current_session
              (mem (fst (run w me (allocate_session ACCOUNTS_PER_REQUEST update_env_file)
                           (mkSys m None c wr))))
            = Some (mkSession (j_session_id data) (j_accounts data)
                      (Some first) 0%nat token stored_at).
Proof.
  unfold allocate_session. rewrite run_bind. simpl.
  destruct (answer w (List.length wr) (PostAllocate ACCOUNTS_PER_REQUEST))
    as [| status body] eqn:Hw; simpl.
  { split; [exists []; reflexivity | discriminate]. }
  destruct (Z.eqb_spec status 200) as [-> | Hne]; simpl;
    [| split; [exists []; reflexivity | discriminate]].
  destruct body as [data |]; simpl;
    [| split; [exists []; reflexivity | discriminate]].
  destruct (j_success data) eqn:Hsucc; simpl;
    [| split; [exists []; reflexivity | discriminate]].
  destruct (j_accounts data) as [| first others] eqn:Haccs; simpl;
    [split; [exists []; reflexivity | discriminate] |].
  rewrite run_bind.
  match goal with
  | |- context [run w me (_get_access_token_from_account first) ?s1] =>
      destruct (token_exchange_run first s1) as [reqs [dt [res Hrun]]];
      rewrite Hrun; set (after_allocation := s1) in *
  end.
  destruct res as [token | e]; simpl.
  - unfold write_env_file, call.
    destruct (update_env_file token) as [[] | e]; simpl.
    + split; [exists reqs; rewrite <- app_assoc; reflexivity |].
      intros token' Htok. injection Htok as <-.
      exists data, first, others, after_allocation. do 2 eexists.
      split; [reflexivity |]. split; [exact Hsucc |]. split; [exact Haccs |].
      split; [reflexivity |]. split; [exact Hrun |].
      rewrite Haccs. reflexivity.
    + split; [exists reqs; rewrite <- app_assoc; reflexivity | discriminate].
  - split; [exists reqs; rewrite <- app_assoc; reflexivity | discriminate].
Qed.

(** Around the allocating part, the call only renames the exception. *)
Lemma acquire_miss_run (m : Mem) (c : Z) (wr : list Request) :
  no_reusable_lease is_token_expired (mkSys m None c wr) ->
  run w me (acquire_pool_access_token is_token_expired ACCOUNTS_PER_REQUEST
       update_env_file)
    (mkSys m None c wr)
  = match run w me (allocate_session ACCOUNTS_PER_REQUEST update_env_file) (mkSys m None c wr) with
    | (s', Some (Raised e)) =>
        (s', Some (Raised (RuntimeError "pool service error")))
    | other => other
    end.
Proof.
  intros Hmiss. unfold acquire_pool_access_token.
  rewrite run_try_except, run_bind, (run_advance w me (cached_session_token _)).
  rewrite (cached_token_miss m c wr Hmiss).
  destruct (run w me (allocate_session ACCOUNTS_PER_REQUEST update_env_file) (mkSys m None c wr))
    as [s' [[token | e] |]]; reflexivity.
Qed.

(** A cached lease that is neither reusable nor stale (the expiry check
    cannot read its token and its current account is gone) makes the
    call fail before anything is sent. *)
Lemma acquire_check_crash (m : Mem) (c : Z) (wr : list Request)
    (session : Session) :
  _current_session m = Some session ->
  lease_reusable is_token_expired c session = false ->
  lease_stale is_token_expired c session = false ->
  run w me (acquire_pool_access_token is_token_expired ACCOUNTS_PER_REQUEST
       update_env_file)
    (mkSys m None c wr)
  = (mkSys m None c wr, Some (Raised (RuntimeError "pool service error"))).
Proof.
  intros Hcache Hreuse Hstale. unfold acquire_pool_access_token.
  rewrite run_try_except, run_bind, (run_advance w me (cached_session_token _)).
  rewrite cached_token_advance, Hcache, Hreuse, Hstale. reflexivity.
Qed.

End AcquireFacts.

Section AcquireClaims.
Import Py PoolAuth Props.

(** C7 as it is worded fails on the boundary: a lease that is exactly
    1800 seconds old, with a token that is not expired, is not "below
    the TTL", yet the call reuses it and sends nothing. *)
Lemma acquire_at_ttl_boundary_counterexample :
  ~ (forall (is_token_expired : string -> Result bool) (k : Z)
            (update_env_file : string -> Result unit) (w : World)
            (me : nat) (s : Sys),
       lock s = None ->
       (forall session,
          _current_session (mem s) = Some session ->
          clock s - created_at session < 1800 ->
          is_token_expired (access_token session) = Ok false ->
          snd (run w me
                 (acquire_pool_access_token is_token_expired k
                    update_env_file) s)
            = Some (Ok (access_token session))
          /\ wire (fst (run w me
                          (acquire_pool_access_token is_token_expired k
                             update_env_file) s))
             = wire s)
       /\ (~ (exists session,
                _current_session (mem s) = Some session
                /\ clock s - created_at session < 1800
                /\ is_token_expired (access_token session) = Ok false) ->
           exists rest,
             wire (fst (run w me
                          (acquire_pool_access_token is_token_expired k
                             update_env_file) s))
             = wire s ++ PostAllocate k :: rest)).
Proof.
  intros claim.
  destruct (claim Samples.never_expired 1 Samples.writable Samples.pool 0%nat
              (Samples.broker (Some (Samples.lease (Some "s1") 0)) 1800)
              eq_refl) as [_ otherwise].
  destruct otherwise as [rest Hwire].
  - intros [session [Hcache [Hage _]]].
    simpl in Hcache. injection Hcache as <-. simpl in Hage. lia.
  - vm_compute in Hwire. discriminate Hwire.
Qed.

(** C7, as the code has it.  With the lock free: a cached lease that is
    reusable (at most 1800 s old, token not empty and accepted by the
    expiry check) makes the call return the cached token without any
    request and without touching the cache; with no lease cached, or a
    stale one (older than 1800 s, or token empty, or rejected by the
    expiry check), the first thing sent is the allocation request, and a
    token is returned only if the pool answered 200 with [success] and a
    non-empty account list, in which case it is the token derived from
    the first of those accounts and the new session is cached. *)
Theorem acquire_reuses_or_allocates :
  forall (is_token_expired : string -> Result bool) (k : Z)
         (update_env_file : string -> Result unit) (w : World)
         (me : nat) (s : Sys),
    lock s = None ->
    (forall session,
       _current_session (mem s) = Some session ->
       lease_reusable is_token_expired (clock s) session = true ->
       snd (run w me
              (acquire_pool_access_token is_token_expired k update_env_file)
              s)
         = Some (Ok (access_token session))
       /\ wire (fst (run w me
                       (acquire_pool_access_token is_token_expired k
                          update_env_file) s))
          = wire s
       /\ _current_session
            (mem (fst (run w me
                         (acquire_pool_access_token is_token_expired k
                            update_env_file) s)))
          = Some session)
    /\ (no_reusable_lease is_token_expired s ->
        (exists rest,
           wire (fst (run w me
                        (acquire_pool_access_token is_token_expired k
                           update_env_file) s))
           = wire s ++ PostAllocate k :: rest)
        /\ forall token,
             snd (run w me
                    (acquire_pool_access_token is_token_expired k
                       update_env_file) s)
               = Some (Ok token) ->
             exists data first others s1 s2 stored_at,
               answer w (List.length (wire s)) (PostAllocate k)
                 = Http 200 (Some data)
               /\ j_success data = true
               /\ j_accounts data = first :: others
               /\ wire s1 = wire s ++ [PostAllocate k]
               /\ run w me (_get_access_token_from_account first) s1
                  = (s2, Some (Ok token))
               /\ _current_session
                    (mem (fst (run w me
                                 (acquire_pool_access_token is_token_expired k
                                    update_env_file) s)))
                  = Some (mkSession (j_session_id data) (j_accounts data)
                            (Some first) 0%nat token stored_at)).
Proof.
  intros ite k upd w me [m l c wr] Hlock. simpl in Hlock. subst l. split.
  - intros session Hcache Hreuse. simpl in Hcache, Hreuse.
    rewrite run_advance.
    rewrite (acquire_hit_advance ite k upd me m c wr session Hcache Hreuse).
    simpl. auto.
  - intros Hmiss. rewrite (acquire_miss_run ite k upd me w m c wr Hmiss).
    destruct (allocate_session_run k upd me w m c wr) as [Hwire Htoken].
    destruct (run w me (allocate_session k upd) (mkSys m None c wr))
      as [s' [[token | e] |]]; simpl in *.
    + split; [exact Hwire | exact Htoken].
    + split; [exact Hwire | discriminate].
    + split; [exact Hwire | discriminate].
Qed.

(** The boundary lease of the counterexample, reused. *)
Lemma acquire_reuses_or_allocates_witness :
  lock (Samples.broker (Some (Samples.lease (Some "s1") 0)) 1800) = None
  /\ lease_reusable Samples.never_expired 1800 (Samples.lease (Some "s1") 0)
     = true
  /\ snd (run Samples.pool 0
            (acquire_pool_access_token Samples.never_expired 1
               Samples.writable)
            (Samples.broker (Some (Samples.lease (Some "s1") 0)) 1800))
     = Some (Ok "id-token").
Proof.
  split; [reflexivity |]. split; [reflexivity |].
  apply (proj1 (acquire_reuses_or_allocates Samples.never_expired 1
                  Samples.writable Samples.pool 0%nat
                  (Samples.broker (Some (Samples.lease (Some "s1") 0)) 1800)
                  eq_refl)
           (Samples.lease (Some "s1") 0) eq_refl eq_refl).
Defined.

End AcquireClaims.

Section ReleaseClaims.
Import Py PoolAuth Props.

(** C10 as it is worded fails for a cached session without a session
    id (cached by an acquire whose allocation answer had none): the call
    returns before it sends or clears anything. *)
Lemma release_without_session_id_counterexample :
  ~ (forall (w : World) (me : nat) (s : Sys) (session : Session),
       lock s = None ->
       _current_session (mem s) = Some session ->
       _current_session (mem (fst (run w me release_current_session s))) = None
       /\ self (mem (fst (run w me release_current_session s))) = cleared).
Proof.
  intros claim.
  destruct (claim Samples.pool_without_session_id 0%nat
              Samples.broker_without_session_id
              (Samples.lease None 1) eq_refl eq_refl) as [Hcache _].
  vm_compute in Hcache. discriminate Hcache.
Qed.

(** C10, as the code has it.  A release that finds a cached session with
    a non-empty session id sends the release request and then, whatever
    comes back (a 200, any other status, or an exception), leaves no
    cached session, the manager's fields as [__init__] sets them, and
    the lock free. *)
Theorem release_clears_session :
  forall (w : World) (me : nat) (s : Sys) (session : Session) (sid : string),
    lock s = None ->
    _current_session (mem s) = Some session ->
    session_id session = Some sid ->
    truthy sid = true ->
    run w me release_current_session s
    = (mkSys (forgotten (mem s)) None
         (clock s + latency w (List.length (wire s)) (PostRelease sid))
         (wire s ++ [PostRelease sid]),
       Some (Ok tt)).
Proof.
  intros w me [[cache slf env] l c wr] session sid Hlock Hcache Hsid Htruthy.
  simpl in *. subst l cache.
  unfold release_current_session, with_session_lock. simpl.
  rewrite Hsid, Htruthy. simpl.
  destruct (answer w (List.length wr) (PostRelease sid)) as [| status body];
    reflexivity.
Qed.

(** The pool cannot be reached; the session is forgotten all the same. *)
Lemma release_clears_session_witness :
  lock (Samples.broker (Some (Samples.lease (Some "s1") 0)) 10) = None
  /\ truthy "s1" = true
  /\ _current_session
       (mem (fst (run Samples.unreachable 0 release_current_session
                    (Samples.broker (Some (Samples.lease (Some "s1") 0)) 10))))
     = None.
Proof.
  split; [reflexivity |]. split; [reflexivity |].
  rewrite (release_clears_session Samples.unreachable 0%nat
             (Samples.broker (Some (Samples.lease (Some "s1") 0)) 10)
             (Samples.lease (Some "s1") 0) "s1" eq_refl eq_refl eq_refl eq_refl).
  reflexivity.
Defined.

End ReleaseClaims.

(** ** The lock discipline *)

Section Discipline.
Import Py PoolAuth Props.

Context {A B : Type}.

(** How the discipline composes: through a sequence, a handler and a
    [with _session_lock:] block that does not wait. *)
Lemma sync_bind (c : Coro A) (f : A -> Coro B) :
  sync c -> (forall a, sync (f a)) -> sync (bind c f).
Proof.
  intros Hc Hf. induction Hc; simpl; auto; constructor; auto.
Qed.

Lemma sync_finally_unlock (c : Coro A) :
  sync c -> releases_before_waiting true (try_finally c (Unlock (Ret tt))).
Proof.
  intros Hc. induction Hc; simpl; repeat constructor; auto.
Qed.

Lemma with_lock_disciplined (c : Coro A) :
  sync c -> releases_before_waiting false (with_session_lock c).
Proof.
  intros Hc. unfold with_session_lock. constructor.
  now apply sync_finally_unlock.
Qed.

Lemma disciplined_bind (h : bool) (c : Coro A) (f : A -> Coro B) :
  releases_before_waiting h c ->
  (forall a, releases_before_waiting false (f a)) ->
  releases_before_waiting h (bind c f).
Proof.
  intros Hc Hf. induction Hc; simpl; auto; constructor; auto.
Qed.

Lemma disciplined_try_except (h : bool) (c : Coro A) (handler : Exn -> Coro A) :
  releases_before_waiting h c ->
  (forall e, releases_before_waiting false (handler e)) ->
  releases_before_waiting h (try_except c handler).
Proof.
  intros Hc Hh. induction Hc; simpl; auto; constructor; auto.
Qed.

(** A stretch of a coroutine that keeps the discipline ends with the
    lock free. *)
Lemma advance_disciplined (me : nat) (h : bool) (c : Coro A) :
  releases_before_waiting h c ->
  forall s,
    lock s = (if h then Some me else None) ->
    lock (fst (advance me c s)) = None
    /\ waits_without_lock (snd (advance me c s)).
Proof.
  intros Hc. induction Hc; intros s Hlock; simpl; auto.
  rewrite Hlock. apply IHHc. reflexivity.
Qed.
End Discipline.

Section AcquireDiscipline.
Import Py PoolAuth Props.

Variable is_token_expired : string -> Result bool.
Variable k : Z.
Variable update_env_file : string -> Result unit.

(** The parts of [acquire_pool_access_token], one by one. *)
Lemma sync_modify (f : Mem -> Mem) : sync (modify f).
Proof. unfold modify. repeat constructor. Qed.

Lemma session_check_sync (session : Session) :
  sync (_is_session_valid is_token_expired session).
Proof.
  unfold _is_session_valid. constructor. intros now.
  destruct (_ >? _); [constructor |].
  destruct (negb _); [constructor |].
  destruct (token_check _ _) as [[|] | e]; [constructor | | constructor].
  apply sync_bind; [apply sync_modify | constructor].
Qed.

Lemma return_or_raise_disciplined (tok : option string) (msg : string) :
  releases_before_waiting false (return_or_raise tok msg).
Proof.
  destruct tok as [t |]; simpl; [destruct (truthy t) |]; constructor.
Qed.

Lemma token_exchange_disciplined (a : Account) :
  releases_before_waiting false (_get_access_token_from_account a).
Proof.
  unfold _get_access_token_from_account.
  destruct (refresh_token a) as [rt |];
    [| apply return_or_raise_disciplined].
  destruct (truthy rt); [| apply return_or_raise_disciplined].
  simpl. constructor. intros [| status body]; simpl; [constructor |].
  destruct (negb _); [apply return_or_raise_disciplined |].
  destruct body as [data |]; simpl; [| constructor].
  destruct (negb _); apply return_or_raise_disciplined.
Qed.

Lemma cached_token_disciplined :
  releases_before_waiting false (cached_session_token is_token_expired).
Proof.
  unfold cached_session_token. apply with_lock_disciplined.
  constructor. intros m. destruct (_current_session m) as [session |];
    [| constructor].
  apply sync_bind; [apply session_check_sync |].
  intros [|]; constructor.
Qed.

Lemma allocate_session_disciplined :
  releases_before_waiting false (allocate_session k update_env_file).
Proof.
  unfold allocate_session. simpl. constructor.
  intros [| status body]; simpl; [constructor |].
  destruct (negb _); [constructor |].
  destruct body as [data |]; simpl; [| constructor].
  destruct (negb _); [constructor |].
  destruct (j_accounts data) as [| first others]; [constructor |].
  simpl. repeat constructor.
  apply disciplined_bind; [apply token_exchange_disciplined |].
  intros token. repeat constructor.
  unfold write_env_file, call.
  destruct (update_env_file token) as [[] | e]; repeat constructor.
Qed.

(** [acquire_pool_access_token] keeps the discipline: each of its two
    [with _session_lock:] blocks is over before the next [await]. *)
Lemma acquire_disciplined :
  releases_before_waiting false (acquire_pool_access_token is_token_expired k update_env_file).
Proof.
  unfold acquire_pool_access_token.
  apply disciplined_try_except; [| intros e; constructor].
  apply disciplined_bind; [apply cached_token_disciplined |].
  intros [token |]; [constructor | apply allocate_session_disciplined].
Qed.

End AcquireDiscipline.

Section PoolInvariant.
Import Py PoolAuth Props.

Context {A : Type}.
Variable w : World.

Lemma set_nth_forall (P : Thread A -> Prop) (pool : list (Thread A)) :
  forall i th,
    Forall P pool -> P th -> Forall P (set_nth pool i th).
Proof.
  induction pool as [| th0 pool IH]; intros i th Hpool Hth; simpl.
  - destruct i; constructor.
  - inversion Hpool; subst. destruct i; constructor; auto.
Qed.

Lemma resume_disciplined (me : nat) (th : Thread A) (s : Sys) :
  waits_without_lock th ->
  lock s = None ->
  lock (fst (resume w me th s)) = None
  /\ waits_without_lock (snd (resume w me th s)).
Proof.
  intros Hth Hlock. destruct th as [c | n req k | c | r]; simpl in *.
  - apply (advance_disciplined me false c Hth s Hlock).
  - apply (advance_disciplined me false _ (Hth (answer w n req)) s Hlock).
  - apply (advance_disciplined me false c Hth s Hlock).
  - auto.
Qed.

(** Threads that keep the discipline leave the lock free at every turn
    of the scheduler, however they are interleaved. *)
Lemma schedule_disciplined (evs : list Event) :
  forall (s : Sys) (pool : list (Thread A)),
    lock s = None ->
    Forall waits_without_lock pool ->
    lock (fst (schedule w evs (s, pool))) = None
    /\ Forall waits_without_lock (snd (schedule w evs (s, pool))).
Proof.
  unfold schedule.
  induction evs as [| ev evs IH]; intros s pool Hlock Hpool; simpl; [auto |].
  destruct ev as [i | dt]; simpl.
  - destruct (existsb blocked pool); [apply IH; assumption |].
    destruct (nth_error pool i) as [th |] eqn:Hnth; [| apply IH; assumption].
    assert (Hth : waits_without_lock th).
    { rewrite Forall_forall in Hpool. apply Hpool.
      eapply nth_error_In; eauto. }
    destruct (resume_disciplined i th s Hth Hlock) as [Hlock' Hth'].
    destruct (resume w i th s) as [s' th']. simpl in *.
    apply IH; [assumption | now apply set_nth_forall].
  - apply IH; assumption.
Qed.
End PoolInvariant.

Section MutexClaims.
Import Py PoolAuth Props.

(** C2 as it is worded fails: two acquire-token calls that both check
    the cache before either has stored a session send two allocation
    requests. *)
Lemma concurrent_acquire_counterexample :
  ~ (forall (is_token_expired : string -> Result bool) (k : Z)
            (update_env_file : string -> Result unit) (w : World)
            (s : Sys) (evs : list Event),
       lock s = None ->
       (allocations
          (fst (schedule w evs
                  (s, [Ready (acquire_pool_access_token is_token_expired k
                                update_env_file);
                       Ready (acquire_pool_access_token is_token_expired k
                                update_env_file)])))
        <= allocations s + 1)%nat).
Proof.
  intros claim.
  pose proof (claim Samples.never_expired 1 Samples.writable Samples.pool
                (Samples.broker None 10)
                [Run 0; Run 1; Run 0; Run 1] eq_refl) as Hle.
  vm_compute in Hle. lia.
Qed.

(** The first stretch of a release: the request is out and the lock is
    still held. *)
Lemma release_first_stretch (me : nat) (m : Mem) (c : Z) (wr : list Request)
    (session : Session) (sid : string) :
  _current_session m = Some session ->
  session_id session = Some sid ->
  truthy sid = true ->
  exists k,
    advance me release_current_session (mkSys m None c wr)
    = (mkSys m (Some me) c (wr ++ [PostRelease sid]),
       Waiting (List.length wr) (PostRelease sid) k).
Proof.
  intros Hcache Hsid Htruthy.
  unfold release_current_session, with_session_lock. simpl.
  rewrite Hcache, Hsid, Htruthy. simpl. eexists. reflexivity.
Qed.

(** The first stretch of a quota mark: the request is out and the lock
    is free. *)
Lemma mark_first_stretch (update_env_file : string -> Result unit)
    (me : nat) (m : Mem) (c : Z) (wr : list Request)
    (session : Session) (a : Account) (e : string) :
  _current_session m = Some session ->
  account session = Some a ->
  email a = Some e ->
  truthy e = true ->
  exists k,
    advance me (mark_current_account_quota_exhausted update_env_file)
      (mkSys m None c wr)
    = (mkSys m None c (wr ++ [PostMarkQuotaExhausted e]),
       Waiting (List.length wr) (PostMarkQuotaExhausted e) k).
Proof.
  intros Hcache Haccount Hemail Htruthy.
  unfold mark_current_account_quota_exhausted, with_session_lock. simpl.
  rewrite Hcache, Haccount, Hemail. simpl. rewrite Htruthy. simpl.
  eexists. reflexivity.
Qed.

(** C2, as the code has it.  With the lock free at the start: however
    many acquire-token calls run and however they are interleaved, the
    lock is free whenever the scheduler has control, so no call holds it
    while its allocation request is in flight; two calls that both run
    their cache check while no reusable lease is cached are then both
    suspended on an allocation request of their own, with the cache
    untouched; a release is suspended on its request with the lock still
    held; a quota mark is suspended on its request with the lock free. *)
Theorem mutex_guards_cache_not_allocation :
  forall (is_token_expired : string -> Result bool) (k : Z)
         (update_env_file : string -> Result unit) (w : World) (s : Sys),
    lock s = None ->
    (forall (evs : list Event) (n : nat),
       lock (fst (schedule w evs
                    (s, repeat
                          (Ready (acquire_pool_access_token is_token_expired k
                                    update_env_file))
                          n)))
       = None)
    /\ (no_reusable_lease is_token_expired s ->
        exists k0 k1,
          schedule w [Run 0; Run 1]
            (s, [Ready (acquire_pool_access_token is_token_expired k
                          update_env_file);
                 Ready (acquire_pool_access_token is_token_expired k
                          update_env_file)])
          = (mkSys (mem s) None (clock s)
               (wire s ++ [PostAllocate k; PostAllocate k]),
             [Waiting (List.length (wire s)) (PostAllocate k) k0;
              Waiting (S (List.length (wire s))) (PostAllocate k) k1]))
    /\ (forall session sid,
          _current_session (mem s) = Some session ->
          session_id session = Some sid ->
          truthy sid = true ->
          exists kr,
            schedule w [Run 0] (s, [Ready release_current_session])
            = (mkSys (mem s) (Some 0%nat) (clock s) (wire s ++ [PostRelease sid]),
               [Waiting (List.length (wire s)) (PostRelease sid) kr]))
    /\ (forall session a e,
          _current_session (mem s) = Some session ->
          account session = Some a ->
          email a = Some e ->
          truthy e = true ->
          exists km,
            schedule w [Run 0]
              (s, [Ready (mark_current_account_quota_exhausted
                            update_env_file)])
            = (mkSys (mem s) None (clock s)
                 (wire s ++ [PostMarkQuotaExhausted e]),
               [Waiting (List.length (wire s)) (PostMarkQuotaExhausted e) km])).
Proof.
  intros ite k upd w [m l c wr] Hlock. simpl in Hlock. subst l.
  split; [| split; [| split]].
  - intros evs n.
    apply (schedule_disciplined w evs (mkSys m None c wr)); [reflexivity |].
    apply Forall_forall. intros th Hth. apply repeat_spec in Hth. subst th.
    apply acquire_disciplined.
  - intros Hmiss.
    destruct (acquire_miss_advance ite k upd 0%nat m c wr Hmiss) as [k0 H0].
    assert (Hmiss' : no_reusable_lease ite
                       (mkSys m None c (wr ++ [PostAllocate k]))) by exact Hmiss.
    destruct (acquire_miss_advance ite k upd 1%nat m c (wr ++ [PostAllocate k])
                Hmiss')
      as [k1 H1].
    exists k0, k1.
    unfold schedule.
    cbn [fold_left schedule_step nth_error resume existsb blocked orb].
    rewrite H0.
    cbn [set_nth nth_error resume fold_left schedule_step existsb blocked orb].
    rewrite H1. cbn [set_nth mem clock wire].
    rewrite <- app_assoc, length_app, Nat.add_1_r. reflexivity.
  - intros session sid Hcache Hsid Htruthy. simpl in Hcache.
    destruct (release_first_stretch 0%nat m c wr session sid Hcache Hsid Htruthy)
      as [kr Hr].
    exists kr. unfold schedule.
    cbn [fold_left schedule_step nth_error resume existsb blocked orb].
    rewrite Hr. reflexivity.
  - intros session a e Hcache Haccount Hemail Htruthy. simpl in Hcache.
    destruct (mark_first_stretch upd 0%nat m c wr session a e
                Hcache Haccount Hemail Htruthy) as [km Hm].
    exists km. unfold schedule.
    cbn [fold_left schedule_step nth_error resume existsb blocked orb].
    rewrite Hm. reflexivity.
Qed.

(** Two calls on an empty cache: two allocation requests on the wire. *)
Lemma mutex_guards_cache_not_allocation_witness :
  lock (Samples.broker None 10) = None
  /\ no_reusable_lease Samples.never_expired (Samples.broker None 10)
  /\ exists k0 k1,
       schedule Samples.pool [Run 0; Run 1]
         (Samples.broker None 10,
          [Ready (acquire_pool_access_token Samples.never_expired 1
                    Samples.writable);
           Ready (acquire_pool_access_token Samples.never_expired 1
                    Samples.writable)])
       = (mkSys (mem (Samples.broker None 10)) None 10
            [PostAllocate 1; PostAllocate 1],
          [Waiting 0 (PostAllocate 1) k0; Waiting 1 (PostAllocate 1) k1]).
Proof.
  assert (Hmiss : no_reusable_lease Samples.never_expired
                    (Samples.broker None 10)).
  { intros session Hcache. simpl in Hcache. discriminate Hcache. }
  split; [reflexivity |]. split; [exact Hmiss |].
  exact (proj1 (proj2 (mutex_guards_cache_not_allocation Samples.never_expired 1
                         Samples.writable Samples.pool
                         (Samples.broker None 10) eq_refl)) Hmiss).
Defined.

End MutexClaims.

(** * Properties of the quota reports *)

Section QuotaReportFacts.
Import Py Accounts QuotaTracker QuotaReport Props.

(** Looking a key up after an [UPDATE] that leaves the keys alone. *)
Lemma fetchone_update (p : Row -> bool) (f : Row -> Row) (e : string) (t : Table) :
  (forall r, email (f r) = email r) ->
  sql_fetchone (fun r => String.eqb (email r) e) (sql_update p f t)
  = option_map (fun r => if p r then f r else r)
      (sql_fetchone (fun r => String.eqb (email r) e) t).
Proof.
  intros Hkey. unfold sql_fetchone, sql_update.
  induction t as [| r t IH]; [reflexivity |].
  simpl. assert (He : email (if p r then f r else r) = email r).
  { destruct (p r); [apply Hkey | reflexivity]. }
  rewrite He. destruct (String.eqb (email r) e); [reflexivity | exact IH].
Qed.


Lemma fetchone_key (e : string) (t : Table) (r : Row) :
  sql_fetchone (fun r => String.eqb (email r) e) t = Some r ->
  email r = e /\ In r t.
Proof.
  unfold sql_fetchone. intros H. apply find_some in H. destruct H as [Hin He].
  apply String.eqb_eq in He. auto.
Qed.

(** The healthy [get_quota_status], by the row it finds. *)
Lemma status_healthy (now : datetime) (e : string) (t : Table) :
  get_quota_status healthy now e t
  = match sql_fetchone (fun r => String.eqb (email r) e) t with
    | Some row =>
        match String.eqb (status row) "quota_exhausted", quota_exhausted_at row with
        | true, Some T =>
            StatusExhausted e (status row) T (T + cooldown)
              (Z.max 0 (days (T + cooldown - now)))
        | _, _ => StatusNotExhausted e (status row)
        end
    | None => StatusNotFound e
    end.
Proof.
  reflexivity.
Qed.




(** X2.  What the status says about an exhausted account agrees with
    the reclaim run at the same instant: up to the reported reset time
    the reclaim leaves the account as it is, after it the account is
    reported [available]; and the reported days are 0 as soon as less
    than one day is left, so 0 days does not mean that the reclaim will
    take the account. *)
Theorem status_agrees_with_reclaim :
  forall (now : datetime) (e st : string) (T R d : Z) (t : Table),
    get_quota_status healthy now e t = StatusExhausted e st T R d ->
    R = T + cooldown
    /\ d = Z.max 0 (days (R - now))
    /\ (now <= R ->
        get_quota_status healthy now e (snd (reset_expired_quotas healthy now t))
        = StatusExhausted e st T R d)
    /\ (R < now ->
        get_quota_status healthy now e (snd (reset_expired_quotas healthy now t))
        = StatusNotExhausted e "available").
Proof.
  intros now e st T R d t. rewrite status_healthy.
  destruct (sql_fetchone _ t) as [r |] eqn:Hr; [| discriminate].
  destruct (String.eqb_spec (status r) "quota_exhausted") as [Hs | Hs];
    [| discriminate].
  destruct (quota_exhausted_at r) as [T' |] eqn:Hq; [| discriminate].
  intros H. injection H as Hst HT HR Hd. subst st T' R d.
  split; [reflexivity |]. split; [reflexivity |].
  rewrite reset_healthy, status_healthy. cbn [snd].
  rewrite fetchone_update by reflexivity. rewrite Hr. cbn [option_map].
  pose proof (expired_iff now T r Hs Hq) as Hexp.
  split; intros Hcmp.
  - destruct (expired _ r) eqn:Hx.
    + assert (T + cooldown < now) by (apply Hexp; reflexivity). lia.
    + rewrite Hq, Hs. reflexivity.
  - destruct (expired _ r) eqn:Hx.
    + reflexivity.
    + assert (Hlt : T + cooldown < now) by lia.
      apply Hexp in Hlt. congruence.
Qed.

Lemma status_agrees_with_reclaim_witness :
  get_quota_status healthy (timedelta_days 30) "b@warp.dev"
    (snd (reset_expired_quotas healthy (timedelta_days 30) Samples.table))
  = StatusExhausted "b@warp.dev" "quota_exhausted" 0 (timedelta_days 30) 0.
Proof.
  refine (proj1 (proj2 (proj2
    (status_agrees_with_reclaim (timedelta_days 30) "b@warp.dev"
       "quota_exhausted" 0 (timedelta_days 30) 0 Samples.table _))) _).
  - reflexivity.
  - unfold timedelta_days. lia.
Defined.

Lemma expired_monotone (a b : datetime) (r : Row) :
  a <= b -> expired a r = true -> expired b r = true.
Proof.
  unfold expired, sql_lt. intros Hab.
  destruct (String.eqb (status r) "quota_exhausted"); [| discriminate].
  destruct (quota_exhausted_at r) as [T |]; [| discriminate].
  simpl. rewrite !Z.ltb_lt. lia.
Qed.

Lemma reset_leaves_none_expired (now : datetime) (t : Table) :
  forall r,
    In r (sql_update (expired (now - timedelta_days quota_reset_days))
            set_available t) ->
    expired (now - timedelta_days quota_reset_days) r = false.
Proof.
  intros r Hin. unfold sql_update in Hin. apply in_map_iff in Hin.
  destruct Hin as [r0 [Hr0 _]].
  destruct (expired _ r0) eqn:Hx; subst r; [reflexivity | exact Hx].
Qed.

(** X3.  The reclaim is idempotent: after a reclaim run that went
    through, a second run at the same or an earlier clock reading resets
    nothing and leaves the table as it is, whatever the database does. *)
Theorem reclaim_twice_resets_nothing :
  forall (db : Sqlite3) (now now' : datetime) (t : Table),
    now' <= now ->
    reset_expired_quotas db now' (snd (reset_expired_quotas healthy now t))
    = (0, snd (reset_expired_quotas healthy now t)).
Proof.
  intros db now now' t Hle. rewrite reset_healthy. cbn [snd].
  set (t1 := sql_update _ set_available t).
  assert (Hnone : forall r, In r t1 ->
            expired (now' - timedelta_days quota_reset_days) r = false).
  { intros r Hin. apply (reset_leaves_none_expired now t) in Hin.
    destruct (expired (now' - _) r) eqn:Hx; [| reflexivity].
    apply (expired_monotone _ (now - timedelta_days quota_reset_days)) in Hx;
      [congruence | lia]. }
  assert (Hsel : sql_select_email
                   (expired (now' - timedelta_days quota_reset_days)) t1 = []).
  { unfold sql_select_email.
    induction t1 as [| r t1 IH]; [reflexivity |].
    simpl. rewrite (Hnone r (or_introl eq_refl)).
    apply IH. intros r' Hr'. apply Hnone. now right. }
  unfold reset_expired_quotas, connect, execute.
  destruct (connect_raises db), (execute_raises db); simpl;
    try reflexivity.
  rewrite Hsel. reflexivity.
Qed.

Lemma reclaim_twice_resets_nothing_witness :
  reset_expired_quotas healthy (timedelta_days 31)
    (snd (reset_expired_quotas healthy (timedelta_days 31) Samples.table))
  = (0, snd (reset_expired_quotas healthy (timedelta_days 31) Samples.table)).
Proof.
  apply (reclaim_twice_resets_nothing healthy (timedelta_days 31)
           (timedelta_days 31) Samples.table).
  lia.
Defined.

(** X4.  Marking an account again restarts its cool-down: a mark at
    [T1] followed by a mark at [T2] leaves the table a single mark at
    [T2] leaves, and returns the same flag. *)
Theorem mark_again_restarts_cooldown :
  forall (T1 T2 : datetime) (e : string) (t : Table),
    mark_account_quota_exhausted healthy T2 e
      (snd (mark_account_quota_exhausted healthy T1 e t))
    = mark_account_quota_exhausted healthy T2 e t.
Proof.
  intros T1 T2 e t. rewrite !mark_healthy. cbn [snd].
  f_equal.
  - f_equal. unfold sql_rowcount, sql_update. f_equal.
    induction t as [| r t IH]; [reflexivity |].
    simpl. destruct (String.eqb (email r) e) eqn:He; simpl.
    + rewrite He. simpl. f_equal. exact IH.
    + rewrite He. exact IH.
  - unfold sql_update. rewrite map_map. apply map_ext. intros r.
    destruct (String.eqb (email r) e) eqn:He; simpl; rewrite He; reflexivity.
Qed.

End QuotaReportFacts.

Section ExhaustedListing.
Import Py Accounts QuotaTracker QuotaReport Props MoreProps.

Lemma insert_desc_perm (r : Row) (rs : list Row) :
  Permutation (insert_desc r rs) (r :: rs).
Proof.
  induction rs as [| r' rs IH]; simpl; [apply Permutation_refl |].
  destruct (stamp_geb _ _); [apply Permutation_refl |].
  apply perm_trans with (r' :: r :: rs); [| apply perm_swap].
  apply perm_skip. exact IH.
Qed.

Lemma order_by_perm (rs : list Row) :
  Permutation (order_by_exhausted_desc rs) rs.
Proof.
  unfold order_by_exhausted_desc.
  induction rs as [| r rs IH]; simpl; [apply Permutation_refl |].
  apply perm_trans with (r :: fold_right insert_desc [] rs);
    [apply insert_desc_perm | apply perm_skip; exact IH].
Qed.

Lemma stamp_geb_total (a b : option datetime) :
  stamp_geb a b = false -> stamp_geb b a = true.
Proof.
  destruct a as [x |], b as [y |]; simpl; try reflexivity; try discriminate.
  rewrite Z.leb_gt, Z.leb_le. lia.
Qed.

Lemma insert_desc_sorted (r : Row) (rs : list Row) :
  Sorted newer_first rs -> Sorted newer_first (insert_desc r rs).
Proof.
  induction rs as [| r' rs IH]; simpl; intros Hs; [repeat constructor |].
  destruct (stamp_geb _ _) eqn:Hge.
  - constructor; [exact Hs | constructor; exact Hge].
  - apply Sorted_inv in Hs. destruct Hs as [Hs Hhd].
    constructor; [apply IH; exact Hs |].
    apply stamp_geb_total in Hge.
    destruct rs as [| r'' rs]; simpl.
    + constructor. exact Hge.
    + destruct (stamp_geb _ (quota_exhausted_at r'')).
      * constructor. exact Hge.
      * constructor. apply HdRel_inv in Hhd. exact Hhd.
Qed.

Lemma order_by_sorted (rs : list Row) :
  Sorted newer_first (order_by_exhausted_desc rs).
Proof.
  unfold order_by_exhausted_desc.
  induction rs as [| r rs IH]; simpl; [constructor |].
  apply insert_desc_sorted. exact IH.
Qed.

(** The loop over rows that all carry a stamp. *)
Lemma report_stamped (now : datetime) (rows : list Row) :
  Forall (fun r => quota_exhausted_at r <> None) rows ->
  exists accounts,
    report now rows = Ok accounts
    /\ map ex_email accounts = map email rows
    /\ map (fun a => Some (ex_exhausted_at a)) accounts
       = map quota_exhausted_at rows
    /\ Forall (listed_at now) accounts.
Proof.
  induction 1 as [| r rows Hr _ IH]; simpl.
  - exists []. repeat split; constructor.
  - destruct (quota_exhausted_at r) as [T |] eqn:Hq; [| now elim Hr].
    destruct IH as [accounts [Hrep [Hem [Hst Hall]]]]. rewrite Hrep. simpl.
    eexists. split; [reflexivity |]. simpl. rewrite Hem, Hst.
    repeat split. constructor; [| exact Hall].
    unfold listed_at.
    cbn [ex_reset_at ex_exhausted_at ex_days_until_reset].
    split; [reflexivity | split; [reflexivity | lia]].
Qed.

(** The loop over rows one of which has no stamp. *)
Lemma report_unstamped (now : datetime) (rows : list Row) (r : Row) :
  In r rows -> quota_exhausted_at r = None ->
  exists e, report now rows = Raised e.
Proof.
  induction rows as [| r' rows IH]; simpl; [tauto |].
  intros [-> | Hin] Hq.
  - rewrite Hq. eexists. reflexivity.
  - destruct (quota_exhausted_at r'); [| eexists; reflexivity].
    destruct (IH Hin Hq) as [e He]. rewrite He. eexists. reflexivity.
Qed.

Lemma sorted_stamps (rows : list Row) (accounts : list ExhaustedAccount) :
  map (fun a => Some (ex_exhausted_at a)) accounts
  = map quota_exhausted_at rows ->
  Sorted newer_first rows ->
  Sorted most_recent_first accounts.
Proof.
  revert accounts. induction rows as [| r rows IH]; intros [| a accounts];
    simpl; try discriminate; intros Heq Hs; [constructor |].
  injection Heq as Ha Hrest. apply Sorted_inv in Hs. destruct Hs as [Hs Hhd].
  constructor; [apply IH; assumption |].
  destruct rows as [| r' rows], accounts as [| a' accounts];
    try discriminate; constructor.
  simpl in Hrest. injection Hrest as Ha' _.
  apply HdRel_inv in Hhd. unfold newer_first in Hhd.
  rewrite <- Ha, <- Ha' in Hhd. simpl in Hhd.
  unfold most_recent_first. apply Z.leb_le. exact Hhd.
Qed.

(** X5.  On a table that satisfies the quota invariant, the listing of
    exhausted accounts names every row whose status is
    [quota_exhausted] exactly once, most recently exhausted first, each
    with its reset time thirty days after its exhaustion and the whole
    days left until then (never negative). *)
Theorem exhausted_listing_complete :
  forall (now : datetime) (t : Table),
    Forall quota_invariant t ->
    Permutation (map ex_email (get_exhausted_accounts healthy now t))
                (sql_select_email exhausted t)
    /\ Sorted most_recent_first (get_exhausted_accounts healthy now t)
    /\ Forall (listed_at now) (get_exhausted_accounts healthy now t).
Proof.
  intros now t Hinv. unfold get_exhausted_accounts. simpl.
  set (rows := order_by_exhausted_desc (filter exhausted t)).
  assert (Hperm : Permutation rows (filter exhausted t))
    by apply order_by_perm.
  assert (Hstamped : Forall (fun r => quota_exhausted_at r <> None) rows).
  { apply Forall_forall. intros r Hr.
    apply (Permutation_in _ Hperm) in Hr. apply filter_In in Hr.
    destruct Hr as [Hin Hex]. unfold exhausted in Hex.
    apply String.eqb_eq in Hex.
    rewrite Forall_forall in Hinv. apply (Hinv r Hin). exact Hex. }
  destruct (report_stamped now rows Hstamped)
    as [accounts [Hrep [Hem [Hst Hall]]]].
  rewrite Hrep. split; [| split].
  - rewrite Hem. unfold sql_select_email. apply Permutation_map. exact Hperm.
  - apply (sorted_stamps rows); [exact Hst | apply order_by_sorted].
  - exact Hall.
Qed.

Lemma exhausted_listing_complete_witness :
  Permutation
    (map ex_email (get_exhausted_accounts healthy 5 Samples.table))
    (sql_select_email exhausted Samples.table).
Proof.
  apply (exhausted_listing_complete 5 Samples.table).
  apply Forall_cons; [| apply Forall_cons; [| apply Forall_nil]];
    unfold quota_invariant; simpl; split; congruence.
Defined.

(** X6.  The listing endpoint never answers with an error: when the
    database cannot be read, or when a single row with status
    [quota_exhausted] has no exhaustion time, it answers [success = true]
    with [count = 0] and an empty list, whatever accounts are
    exhausted. *)
Theorem exhausted_listing_lost :
  forall (db : Sqlite3) (now : datetime) (t : Table),
    listing_fails db t ->
    PoolServiceQuota.get_exhausted_accounts db now t
    = PoolService.Returned (PoolServiceQuota.mkExhaustedResponse true 0 []).
Proof.
  intros db now t Hfail.
  unfold PoolServiceQuota.get_exhausted_accounts.
  assert (Hnone : get_exhausted_accounts db now t = []).
  { unfold get_exhausted_accounts, connect, execute.
    destruct Hfail as [Hc | [Hx | [r [Hin [Hs Hq]]]]].
    - rewrite Hc. reflexivity.
    - rewrite Hx. destruct (connect_raises db); reflexivity.
    - destruct (connect_raises db); [reflexivity |].
      destruct (execute_raises db); [reflexivity |]. simpl.
      assert (Hr : In r (order_by_exhausted_desc (filter exhausted t))).
      { apply (Permutation_in _ (Permutation_sym (order_by_perm _))).
        apply filter_In. split; [exact Hin |].
        unfold exhausted. rewrite Hs. reflexivity. }
      destruct (report_unstamped now _ r Hr Hq) as [e He].
      rewrite He. reflexivity. }
  rewrite Hnone. reflexivity.
Qed.

Lemma exhausted_listing_lost_witness :
  PoolServiceQuota.get_exhausted_accounts healthy 5
    (Samples.row "c@warp.dev" "quota_exhausted" None None :: Samples.table)
  = PoolService.Returned (PoolServiceQuota.mkExhaustedResponse true 0 []).
Proof.
  apply (exhausted_listing_lost healthy 5).
  right. right. eexists. split; [left; reflexivity |]. split; reflexivity.
Defined.

End ExhaustedListing.

(** * Properties of the release tool *)

Section ReleaseTool.
Import Py Accounts AccountReleaser Props.

(** A healthy [release_all_accounts], both results at once. *)
Lemma release_all_healthy (t : Table) :
  release_all_accounts healthy t
  = (Ok (sql_rowcount in_use t), sql_update in_use set_released t).
Proof.
  unfold release_all_accounts, get_in_use_accounts. simpl.
  destruct (filter in_use t) as [| r0 rest] eqn:Hf; [| reflexivity].
  assert (Hnone : forall r, In r t -> in_use r = false).
  { intros r Hr. destruct (in_use r) eqn:Hp; [| reflexivity].
    assert (Hin : In r (filter in_use t)) by (apply filter_In; auto).
    rewrite Hf in Hin. destruct Hin. }
  destruct (update_nothing in_use set_released t Hnone) as [Hu Hc].
  rewrite Hu, Hc. reflexivity.
Qed.

(** Whatever [sqlite3] does, the table afterwards is the old one or the
    updated one. *)
Lemma release_all_table (db : Sqlite3) (t : Table) :
  snd (release_all_accounts db t) = t
  \/ snd (release_all_accounts db t) = sql_update in_use set_released t.
Proof.
  unfold release_all_accounts, get_in_use_accounts, execute, commit.
  destruct (execute_raises db); simpl; auto.
  destruct (filter in_use t); simpl; auto.
  destruct (commit_raises db); simpl; auto.
Qed.

Lemma released_not_in_use (t : Table) :
  forall r, In r (sql_update in_use set_released t) -> in_use r = false.
Proof.
  intros r Hin. unfold sql_update in Hin. apply in_map_iff in Hin.
  destruct Hin as [r0 [Hr0 _]].
  destruct (in_use r0) eqn:Hx; subst r; [reflexivity | exact Hx].
Qed.

(** X7.  When the database calls go through, the release tool returns
    the number of rows that were [in_use]; afterwards no row is
    [in_use], every row that was is [available] with [session_id] NULL
    and its other columns as before, and every other row (a
    quota-exhausted one in particular) is untouched. *)
Theorem release_all_frees_every_lease :
  forall (t : Table),
    fst (release_all_accounts healthy t)
    = Ok (Z.of_nat (List.length (filter in_use t)))
    /\ List.length (snd (release_all_accounts healthy t)) = List.length t
    /\ (forall r', In r' (snd (release_all_accounts healthy t)) ->
                   status r' <> "in_use")
    /\ forall (i : nat) (r : Row),
         nth_error t i = Some r ->
         exists r',
           nth_error (snd (release_all_accounts healthy t)) i = Some r'
           /\ (status r = "in_use" ->
               status r' = "available" /\ session_id r' = None
               /\ same_credential r r'
               /\ quota_exhausted_at r' = quota_exhausted_at r)
           /\ (status r <> "in_use" -> r' = r).
Proof.
  intros t. rewrite release_all_healthy. cbn [fst snd].
  split; [reflexivity |].
  split; [unfold sql_update; apply length_map |].
  split.
  - intros r' Hin. apply released_not_in_use in Hin.
    unfold in_use in Hin. apply String.eqb_neq in Hin. exact Hin.
  - intros i r Hi. rewrite (update_row _ _ _ _ _ Hi).
    eexists. split; [reflexivity |]. unfold in_use. split.
    + intros Hs. rewrite Hs. simpl. unfold same_credential. simpl. tauto.
    + intros Hs. apply String.eqb_neq in Hs. rewrite Hs. reflexivity.
Qed.

(** X8.  The release tool is idempotent: run again after a release that
    went through, it finds nothing to release, returns 0 when its query
    can be executed, and leaves the table as it is. *)
Theorem release_all_twice_releases_nothing :
  forall (db : Sqlite3) (t : Table),
    snd (release_all_accounts db (snd (release_all_accounts healthy t)))
    = snd (release_all_accounts healthy t)
    /\ (execute_raises db = false ->
        fst (release_all_accounts db (snd (release_all_accounts healthy t)))
        = Ok 0).
Proof.
  intros db t. rewrite release_all_healthy. cbn [snd].
  set (t1 := sql_update in_use set_released t).
  assert (Hf : filter in_use t1 = []).
  { pose proof (released_not_in_use t) as Hnone. fold t1 in Hnone.
    induction t1 as [| r t1 IH]; [reflexivity |].
    simpl. rewrite (Hnone r (or_introl eq_refl)).
    apply IH. intros r' Hr'. apply Hnone. now right. }
  unfold release_all_accounts, get_in_use_accounts, execute.
  destruct (execute_raises db); simpl.
  - split; [reflexivity | discriminate].
  - rewrite Hf. split; reflexivity.
Qed.

Lemma release_all_twice_releases_nothing_witness :
  fst (release_all_accounts healthy
         (snd (release_all_accounts healthy Samples.table)))
  = Ok 0.
Proof.
  apply (release_all_twice_releases_nothing healthy Samples.table).
  reflexivity.
Defined.

Lemma run_table (db : Sqlite3) (log_raises : bool) (t : Table) :
  snd (run db log_raises t) = t
  \/ snd (run db log_raises t) = sql_update in_use set_released t.
Proof.
  unfold run, connect, execute.
  destruct (connect_raises db); simpl; auto.
  destruct (execute_raises db) eqn:Hx; simpl; auto.
  pose proof (release_all_table db t) as Ht.
  destruct (release_all_accounts db t) as [[n | e] t']; simpl in *; auto.
  destruct (n >? 0); [destruct log_raises |]; simpl; auto.
Qed.

(** X9.  Whatever the database and the log file do, a run of the
    release tool changes no row that is not [in_use] and keeps the quota
    invariant of every row; and when it reports success no row is
    [in_use] afterwards. *)
Theorem release_run_is_safe :
  forall (db : Sqlite3) (log_raises : bool) (t : Table) (i : nat) (r : Row),
    nth_error t i = Some r ->
    (exists r',
       nth_error (snd (run db log_raises t)) i = Some r'
       /\ (status r <> "in_use" -> r' = r)
       /\ (quota_invariant r -> quota_invariant r'))
    /\ (fst (run db log_raises t) = true ->
        forall r', In r' (snd (run db log_raises t)) -> status r' <> "in_use").
Proof.
  intros db log_raises t i r Hi. split.
  - destruct (run_table db log_raises t) as [-> | ->].
    + exists r. auto.
    + rewrite (update_row _ _ _ _ _ Hi). eexists. split; [reflexivity |].
      unfold in_use.
      destruct (String.eqb_spec (status r) "in_use") as [Hs | Hs].
      * split; [intros Hn; now elim Hn |].
        unfold quota_invariant. simpl. rewrite Hs.
        intros [H1 H2]. split; intros H; [apply H1 in H |]; discriminate.
      * auto.
  - unfold run, connect, execute.
    destruct (connect_raises db); simpl; [discriminate |].
    destruct (execute_raises db) eqn:Hx; simpl; [discriminate |].
    unfold release_all_accounts, get_in_use_accounts, execute. rewrite Hx.
    destruct (filter in_use t) as [| r0 rest] eqn:Hf; simpl.
    + intros _ r' Hin Hs.
      assert (Hr : In r' (filter in_use t)).
      { apply filter_In. split; [exact Hin |]. unfold in_use.
        rewrite Hs. reflexivity. }
      rewrite Hf in Hr. destruct Hr.
    + unfold commit. destruct (commit_raises db); simpl; [discriminate |].
      destruct (sql_rowcount in_use t >? 0); [destruct log_raises |];
        simpl; try discriminate;
        intros _ r' Hin; apply released_not_in_use in Hin;
        unfold in_use in Hin; apply String.eqb_neq in Hin; exact Hin.
Qed.

Lemma release_run_is_safe_witness :
  exists r',
    nth_error (snd (run healthy false Samples.table)) 1 = Some r'
    /\ r' = Samples.row "b@warp.dev" "quota_exhausted" None (Some 0).
Proof.
  destruct (proj1 (release_run_is_safe healthy false Samples.table 1%nat _
                     eq_refl))
    as [r' [Hnth [Hsame _]]].
  exists r'. split; [exact Hnth |]. apply Hsame. discriminate.
Defined.

(** X10.  When only the log file cannot be written, the run reports
    failure although the release is committed: every leased account is
    back in the pool. *)
Theorem release_run_fails_after_commit :
  forall (t : Table) (r : Row),
    In r t ->
    status r = "in_use" ->
    run healthy true t = (false, sql_update in_use set_released t)
    /\ forall r', In r' (snd (run healthy true t)) -> status r' <> "in_use".
Proof.
  intros t r Hin Hs.
  assert (Hrun : run healthy true t = (false, sql_update in_use set_released t)).
  { unfold run. cbn [connect execute healthy connect_raises execute_raises].
    rewrite release_all_healthy.
    assert (Hpos : sql_rowcount in_use t > 0).
    { unfold sql_rowcount.
      assert (Hf : In r (filter in_use t)).
      { apply filter_In. split; [exact Hin |]. unfold in_use.
        rewrite Hs. reflexivity. }
      destruct (filter in_use t); [destruct Hf | simpl; lia]. }
    destruct (Z.gtb_spec (sql_rowcount in_use t) 0); [reflexivity | lia]. }
  split; [exact Hrun |]. rewrite Hrun. cbn [snd].
  intros r' Hr'. apply released_not_in_use in Hr'.
  unfold in_use in Hr'. apply String.eqb_neq in Hr'. exact Hr'.
Qed.

Lemma release_run_fails_after_commit_witness :
  fst (run healthy true Samples.table) = false
  /\ forall r', In r' (snd (run healthy true Samples.table)) ->
                status r' <> "in_use".
Proof.
  destruct (release_run_fails_after_commit Samples.table
              (Samples.row "a@warp.dev" "in_use" (Some "s1") None))
    as [Hrun Hfree].
  - left. reflexivity.
  - reflexivity.
  - split; [rewrite Hrun; reflexivity | exact Hfree].
Defined.

End ReleaseTool.

(** * Properties of the other handlers *)

Section MailboxUsers.
Import Py PoolService MailUsers MoreProps.

Lemma create_loop_outcomes (mail : MailService)
    (users : list CreateUserRequest) :
  forall n created_users failed_users,
    create_loop mail n users created_users failed_users
    = (created_users ++ created_of (user_outcomes mail n users),
       failed_users ++ failed_of (user_outcomes mail n users)).
Proof.
  unfold created_of, failed_of.
  induction users as [| u users IH]; intros n cs fs; simpl.
  - now rewrite !app_nil_r.
  - destruct (add_user mail n u); simpl; rewrite IH, <- app_assoc; reflexivity.
Qed.

Lemma outcomes_split (outcomes : list (bool * string)) :
  (List.length (created_of outcomes) + List.length (failed_of outcomes)
   = List.length outcomes)%nat.
Proof.
  unfold created_of, failed_of.
  induction outcomes as [| [[|] e] os IH]; simpl; lia.
Qed.

Lemma outcomes_length (mail : MailService) (users : list CreateUserRequest) :
  forall n, List.length (user_outcomes mail n users) = List.length users.
Proof.
  induction users as [| u users IH]; intros n; simpl; [| rewrite IH];
    reflexivity.
Qed.

(** X11.  The create-users endpoint always answers with a body, never
    with an error status: every user of the request ends up in exactly
    one of [created] and [failed], in the order of the request; the code
    is 200 when no user failed (an empty request included) and 207 as
    soon as one did, even when none was created. *)
Theorem create_users_reports_every_user :
  forall (mail : MailService) (request : list CreateUserRequest),
    let outcomes := user_outcomes mail 0 request in
    create_email_users mail request
    = Returned (mkCreateUsersResponse
                  (match failed_of outcomes with [] => 200 | _ => 207 end)
                  (created_of outcomes) (failed_of outcomes))
    /\ (List.length (created_of outcomes) + List.length (failed_of outcomes)
        = List.length request)%nat.
Proof.
  intros mail request outcomes. split.
  - unfold create_email_users. rewrite create_loop_outcomes. simpl.
    fold outcomes. destruct (failed_of outcomes); reflexivity.
  - unfold outcomes. rewrite outcomes_split, outcomes_length. reflexivity.
Qed.

(** The single-user endpoint answers 200 when the mail service created
    the user and 207 when it did not. *)
Lemma create_single_user_answers :
  forall (mail : MailService) (user_request : CreateUserRequest),
    create_single_user mail user_request
    = if add_user mail 0 user_request
      then Returned (mkCreateUsersResponse 200 [cu_email user_request] [])
      else Returned (mkCreateUsersResponse 207 [] [cu_email user_request]).
Proof.
  intros mail u. unfold create_single_user, create_email_users. simpl.
  destruct (add_user mail 0 u); reflexivity.
Qed.

End MailboxUsers.

Section Availability.
Import Py Accounts PoolService PoolServiceOps.

(** X12.  While the pool manager is missing or stopped, the handlers
    that allocate, release, refresh, replenish and check health all
    answer 503 without calling the manager, so its state is untouched;
    the status handler checks only that the manager exists, and still
    calls a stopped one. *)
Theorem stopped_service_answers_503 :
  forall (S : Type) (pool_manager : option (Manager S)) (st : S)
         (request : AllocateAccountRequest) (session_id_ : string)
         (email_ : option string) (force : option bool) (count : option Z),
    unavailable pool_manager st = true ->
    allocate_accounts (option_map allocation pool_manager) request st
    = (HTTPException 503, st)
    /\ release_accounts pool_manager session_id_ st = (HTTPException 503, st)
    /\ refresh_tokens pool_manager email_ force st = (HTTPException 503, st)
    /\ manual_replenish pool_manager count st = (HTTPException 503, st)
    /\ refresh_pool pool_manager st = (HTTPException 503, st)
    /\ health_check pool_manager st = (Ok (HTTPException 503), st)
    /\ forall pm,
         pool_manager = Some pm ->
         get_pool_status pool_manager st
         = guarded (get_pool_status_of pm st) (fun status_ => status_).
Proof.
  intros S [pm |] st request sid em force count Hdown; simpl in Hdown.
  - unfold allocate_accounts, release_accounts, refresh_tokens,
      manual_replenish, refresh_pool, health_check. simpl.
    rewrite Hdown. repeat split.
    intros pm' Hpm. injection Hpm as <-. reflexivity.
  - repeat split. discriminate.
Qed.

Lemma stopped_service_answers_503_witness :
  release_accounts (Some MoreSamples.stopped_manager) "s1" Samples.table
  = (HTTPException 503, Samples.table)
  /\ fst (get_pool_status (Some MoreSamples.stopped_manager) Samples.table)
     = Returned (mkPoolStatus [] 0 false 5 1 "stopped").
Proof.
  destruct (stopped_service_answers_503 _ (Some MoreSamples.stopped_manager)
              Samples.table (mkAllocateAccountRequest None 1) "s1" None None
              None eq_refl)
    as [_ [Hrel [_ [_ [_ [_ Hstatus]]]]]].
  split; [exact Hrel |].
  rewrite (Hstatus _ eq_refl). reflexivity.
Defined.

End Availability.

(** * More properties of the registration pass *)

Section RegistrationAttempts.
Import Py Accounts BatchRegister BatchRegisterSync Props.

Ltac attempt_branches :=
  repeat match goal with
         | |- context [match registration ?a with _ => _ end] =>
             destruct (registration a) as [?result | ?e]
         | |- context [if reg_success ?r then _ else _] =>
             destruct (reg_success r)
         | |- context [match final_tokens ?r with _ => _ end] =>
             destruct (final_tokens r) as [?ft |]
         | |- context [_activate_warp_user ?i ?r] =>
             destruct (_activate_warp_user i r)
         | |- context [_get_request_limit ?i ?r] =>
             destruct (_get_request_limit i r) as [?lim |]
         end.



(** X14.  An attempt changes the accounts table only through
    [add_account]: the table it leaves is the old one, or the one a
    successful [add_account] of its own credential returned; an attempt
    that reports failure leaves the table as it was. *)
Theorem attempt_writes_only_through_add :
  forall (db : Database) (index : Z) (a : Attempt) (t : Table),
    (res_success (fst (_register_single_account db index a t)) = false ->
     snd (_register_single_account db index a t) = t)
    /\ (snd (_register_single_account db index a t) = t
        \/ exists ft,
             tokens_of a = Some ft
             /\ db (Account ft) t
                = Ok (snd (_register_single_account db index a t))).
Proof.
  intros db index a t. unfold tokens_of, _register_single_account.
  attempt_branches; simpl; try (split; [reflexivity | left; reflexivity]);
    try (split; [discriminate || reflexivity | left; reflexivity]).
  destruct (db (Account ft) t) as [t' | e] eqn:Hdb; simpl.
  - split; [discriminate | right; exists ft; auto].
  - split; [discriminate | left; reflexivity].
Qed.

(** An attempt reports the index it was given. *)
Lemma register_single_index (db : Database) (index : Z) (a : Attempt) (t : Table) :
  res_index (fst (_register_single_account db index a t)) = index.
Proof.
  unfold _register_single_account. attempt_branches; reflexivity.
Qed.

Lemma run_workers_indices (db : Database) (js : list (Z * Attempt)) :
  forall t,
    map (fun f => res_index (returned f)) (fst (run_workers db js t))
    = map fst js.
Proof.
  induction js as [| [index a] js IH]; intros t; simpl; [reflexivity |].
  pose proof (register_single_index db index a t) as Hidx.
  destruct (_register_single_account db index a t) as [r t1].
  specialize (IH t1). destruct (run_workers db js t1) as [fs t2].
  simpl in *. rewrite Hidx, IH. reflexivity.
Qed.

Lemma insert_by_finish_perm (j : Z * Attempt) (js : list (Z * Attempt)) :
  Permutation (insert_by_finish j js) (j :: js).
Proof.
  induction js as [| j' js IH]; simpl; [apply Permutation_refl |].
  destruct (_ <? _); [apply Permutation_refl |].
  apply perm_trans with (j' :: j :: js); [| apply perm_swap].
  apply perm_skip. exact IH.
Qed.

(** The workers finish in some order of the submitted jobs. *)
Lemma completion_order_perm (js : list (Z * Attempt)) :
  Permutation (completion_order js) js.
Proof.
  unfold completion_order.
  apply perm_trans with (rev js); [| apply Permutation_sym, Permutation_rev].
  induction (rev js) as [| j l IH]; simpl; [apply Permutation_refl |].
  apply perm_trans with (j :: fold_right insert_by_finish [] l);
    [apply insert_by_finish_perm | apply perm_skip; exact IH].
Qed.

(** The counters of the loop, from any starting tally. *)
Lemma collect_counters (fs : list Future) :
  forall clock acc,
    let out := collect clock fs acc in
    success_count out + failed_count out
    = success_count acc + failed_count acc + Z.of_nat (List.length fs)
    /\ success_count acc <= success_count out
    /\ failed_count acc <= failed_count out
    /\ high_quota_count acc <= high_quota_count out
    /\ normal_quota_count acc <= normal_quota_count out
    /\ (high_quota_count out - high_quota_count acc)
       + (normal_quota_count out - normal_quota_count acc)
       <= success_count out - success_count acc.
Proof.
  induction fs as [| f fs IH]; intros clock acc; cbn zeta.
  - simpl. lia.
  - simpl collect. rewrite result_never_times_out.
    match goal with
    | |- context [collect ?c fs ?acc'] =>
        specialize (IH c acc'); cbn zeta in IH;
        set (out := collect c fs acc') in *
    end.
    change (List.length (f :: fs)) with (S (List.length fs)).
    rewrite Nat2Z.inj_succ.
    destruct (res_success (returned f));
      [destruct (limit_is _ 2500); [| destruct (limit_is _ 150)] |];
      simpl in IH; lia.
Qed.

(** X15.  After a pass over [count] attempts every attempt is counted
    exactly once, as a success or as a failure; the result list has one
    entry per attempt; and the two quota tiers together never count more
    than the successes. *)
Theorem pass_counts_every_attempt :
  forall (db : Database) (world : Z -> Attempt) (position : Z -> Z)
         (count : nat) (t : Table),
    let tally := fst (register_accounts_concurrent db world position count t) in
    success_count tally + failed_count tally = Z.of_nat count
    /\ List.length (results tally) = count
    /\ 0 <= success_count tally
    /\ 0 <= failed_count tally
    /\ 0 <= high_quota_count tally
    /\ 0 <= normal_quota_count tally
    /\ high_quota_count tally + normal_quota_count tally <= success_count tally.
Proof.
  intros db world position count t. unfold register_accounts_concurrent.
  set (jobs := map _ (seq 0 count)).
  destruct (run_workers db (completion_order jobs) t) as [futures t'] eqn:Hrun.
  cbn zeta. cbn [fst].
  assert (Hlen : List.length (as_completed position futures) = count).
  { pose proof (run_workers_returned db (completion_order jobs) t) as [Hl _].
    rewrite Hrun in Hl. simpl in Hl.
    rewrite (Permutation_length (as_completed_perm position futures)), Hl.
    rewrite (Permutation_length (completion_order_perm jobs)).
    unfold jobs. rewrite length_map, length_seq. reflexivity. }
  pose proof (collect_counters (as_completed position futures) 0
                (mkTally [] 0 0 0 0)) as Hc.
  cbn zeta in Hc. simpl success_count in Hc. simpl failed_count in Hc.
  simpl high_quota_count in Hc. simpl normal_quota_count in Hc.
  rewrite Hlen in Hc.
  split; [lia |]. split; [| lia].
  rewrite collect_results. simpl. rewrite length_map. exact Hlen.
Qed.

(** X16.  The results of a pass carry the indices [1 .. count], each
    exactly once, whatever the order in which the futures are handed
    over: no result is the collector's own entry with index -1. *)
Theorem pass_results_carry_every_index :
  forall (db : Database) (world : Z -> Attempt) (position : Z -> Z)
         (count : nat) (t : Table),
    Permutation
      (map res_index
         (results
            (fst (register_accounts_concurrent db world position count t))))
      (indices count).
Proof.
  intros db world position count t. unfold register_accounts_concurrent.
  set (jobs := map _ (seq 0 count)).
  pose proof (run_workers_indices db (completion_order jobs) t) as Hidx.
  destruct (run_workers db (completion_order jobs) t) as [futures t'].
  cbn [fst] in *. rewrite collect_results. simpl.
  rewrite map_map.
  apply perm_trans with (map (fun f => res_index (returned f)) futures);
    [apply Permutation_map, as_completed_perm |].
  rewrite Hidx.
  apply perm_trans with (map fst jobs);
    [apply Permutation_map, completion_order_perm |].
  unfold jobs, indices. rewrite map_map. simpl. apply Permutation_refl.
Qed.

(** X17.  The two registration paths disagree on a failed add: for a
    provisioning result whose credential [add_account] refuses, the
    synchronous path returns no account, while the concurrent path (the
    attempt having passed activation and the quota lookup) reports the
    attempt as a success; neither changes the table. *)
Theorem sync_path_fails_where_pass_succeeds :
  forall (db : Database) (index : Z) (a : Attempt) (t : Table)
         (ft : FinalTokens) (e : Exn),
    tokens_of a = Some ft ->
    reaches_add a = true ->
    db (Account ft) t = Raised e ->
    register_single_account_sync db (registration a) t = (None, t)
    /\ test_registration db (registration a) t = (false, t)
    /\ res_success (fst (_register_single_account db index a t)) = true
    /\ snd (_register_single_account db index a t) = t.
Proof.
  intros db index a t ft e Hft Hreach Hdb.
  destruct (register_single_reaching_add db index a t ft Hft Hreach)
    as [limit Hrun].
  rewrite Hrun, Hdb. cbn [fst snd res_success].
  assert (Hsync : register_single_account_sync db (registration a) t = (None, t)).
  { unfold register_single_account_sync. unfold tokens_of in Hft.
    destruct (registration a) as [result | e']; [| reflexivity].
    destruct (reg_success result); [| reflexivity].
    rewrite Hft. cbn zeta. rewrite Hdb. reflexivity. }
  unfold test_registration. rewrite Hsync. auto.
Qed.

Lemma sync_path_fails_where_pass_succeeds_witness :
  register_single_account_sync Samples.broken_database
    (registration (Samples.good_attempt 5)) []
  = (None, [])
  /\ res_success
       (fst (_register_single_account Samples.broken_database 1
               (Samples.good_attempt 5) []))
     = true.
Proof.
  destruct (sync_path_fails_where_pass_succeeds Samples.broken_database 1
              (Samples.good_attempt 5) [] _ OperationalError
              eq_refl eq_refl eq_refl)
    as [Hsync [_ [Hpass _]]].
  split; assumption.
Defined.

End RegistrationAttempts.

(** * More properties of the session broker *)

Section TokenExchange.
Import Py PoolAuth Props.

Variable w : World.
Variable me : nat.

Lemma return_or_raise_run (tok : option string) (msg : string) (s : Sys) :
  run w me (return_or_raise tok msg) s
  = (s, Some (match tok with
              | Some t => if truthy t then Ok t else Raised (RuntimeError msg)
              | None => Raised (RuntimeError msg)
              end)).
Proof.
  destruct tok as [t |]; simpl; [destruct (truthy t) |]; reflexivity.
Qed.

(** The token exchange, step by step: what it sends, and what it gives
    for each answer. *)
Lemma token_exchange_cases (a : Account) (s : Sys) :
  match refresh_token a with
  | Some rt =>
      if truthy rt then
        let n := List.length (wire s) in
        let s1 := elapse (send s (PostRefreshToken rt))
                    (latency w n (PostRefreshToken rt)) in
        run w me (_get_access_token_from_account a) s
        = match answer w n (PostRefreshToken rt) with
          | ConnectionFailed => (s1, Some (Raised ConnectError))
          | Http status body =>
              if status =? 200 then
                match body with
                | None => (s1, Some (Raised JSONDecodeError))
                | Some token_data =>
                    if truthy_opt (j_access_token token_data)
                    then run w me (return_or_raise (j_access_token token_data)
                                     "no token in response") s1
                    else run w me
                           (return_or_raise
                              (or_else (id_token a) (j_id_token token_data))
                              "no token in response") s1
                end
              else run w me (return_or_raise (id_token a) "access_token") s1
          end
      else run w me (_get_access_token_from_account a) s
           = run w me (return_or_raise (id_token a) "no token") s
  | None => run w me (_get_access_token_from_account a) s
            = run w me (return_or_raise (id_token a) "no token") s
  end.
Proof.
  unfold _get_access_token_from_account.
  destruct (refresh_token a) as [rt |]; [| reflexivity].
  destruct (truthy rt); [| reflexivity].
  cbn zeta. rewrite run_bind. simpl.
  destruct (answer w (List.length (wire s)) (PostRefreshToken rt))
    as [| status body]; simpl; [reflexivity |].
  destruct (status =? 200); simpl; [| reflexivity].
  destruct body as [token_data |]; simpl; [| reflexivity].
  destruct (truthy_opt (j_access_token token_data)); reflexivity.
Qed.

(** Deriving a token: the memory and the lock are left alone, at most
    the refresh request is sent, and a token that comes back is not
    empty. *)
Lemma token_exchange_outcome (a : Account) (s : Sys) :
  exists reqs dt res,
    run w me (_get_access_token_from_account a) s
    = (mkSys (mem s) (lock s) (clock s + dt) (wire s ++ reqs), Some res)
    /\ (forall tok, res = Ok tok -> truthy tok = true)
    /\ filter is_allocate reqs = []
    /\ (truthy_opt (refresh_token a) = false -> reqs = [] /\ dt = 0).
Proof.
  assert (Hleaf : forall tok msg reqs dt s0,
            s0 = mkSys (mem s) (lock s) (clock s + dt) (wire s ++ reqs) ->
            filter is_allocate reqs = [] ->
            (truthy_opt (refresh_token a) = false -> reqs = [] /\ dt = 0) ->
            exists reqs' dt' res,
              run w me (return_or_raise tok msg) s0
              = (mkSys (mem s) (lock s) (clock s + dt') (wire s ++ reqs'),
                 Some res)
              /\ (forall t, res = Ok t -> truthy t = true)
              /\ filter is_allocate reqs' = []
              /\ (truthy_opt (refresh_token a) = false -> reqs' = [] /\ dt' = 0)).
  { intros tok msg reqs dt s0 -> Hreqs Hquiet. rewrite return_or_raise_run.
    exists reqs, dt. eexists. split; [reflexivity |].
    split; [| split; assumption].
    destruct tok as [t |]; [destruct (truthy t) eqn:Ht |]; intros t' Heq;
      try discriminate.
    injection Heq as <-. exact Ht. }
  assert (Hstart : s = mkSys (mem s) (lock s) (clock s + 0) (wire s ++ [])).
  { rewrite app_nil_r, Z.add_0_r. destruct s. reflexivity. }
  pose proof (token_exchange_cases a s) as Hcases.
  destruct (refresh_token a) as [rt |] eqn:Hrt.
  - destruct (truthy rt) eqn:Htruthy.
    + cbn zeta in Hcases. rewrite Hcases.
      assert (Hsent : filter is_allocate [PostRefreshToken rt] = [])
        by reflexivity.
      assert (Hloud : truthy_opt (Some rt) = false ->
                      [PostRefreshToken rt] = []
                      /\ latency w (List.length (wire s)) (PostRefreshToken rt) = 0).
      { simpl. rewrite Htruthy. discriminate. }
      destruct (answer w (List.length (wire s)) (PostRefreshToken rt))
        as [| status body].
      * do 3 eexists. split; [reflexivity |].
        split; [discriminate | split; assumption].
      * destruct (status =? 200).
        -- destruct body as [token_data |].
           ++ destruct (truthy_opt (j_access_token token_data));
                apply (Hleaf _ _ [PostRefreshToken rt] _ _ eq_refl Hsent Hloud).
           ++ do 3 eexists. split; [reflexivity |].
              split; [discriminate | split; assumption].
        -- apply (Hleaf _ _ [PostRefreshToken rt] _ _ eq_refl Hsent Hloud).
    + rewrite Hcases.
      apply (Hleaf _ _ [] 0 s Hstart); [reflexivity | auto].
  - rewrite Hcases.
    apply (Hleaf _ _ [] 0 s Hstart); [reflexivity | auto].
Qed.

(** X18.  Whatever the pool answers, a token that
    [_get_access_token_from_account] returns is never empty; deriving it
    touches neither the cached session nor the lock and sends no
    allocation request; and for an account without a refresh token
    nothing is sent at all. *)
Theorem derived_token_is_never_empty :
  forall (a : Account) (s s' : Sys) (tok : string),
    run w me (_get_access_token_from_account a) s = (s', Some (Ok tok)) ->
    truthy tok = true
    /\ mem s' = mem s
    /\ lock s' = lock s
    /\ allocations s' = allocations s
    /\ (truthy_opt (refresh_token a) = false -> s' = s).
Proof.
  intros a s s' tok Hrun.
  destruct (token_exchange_outcome a s)
    as [reqs [dt [res [Hout [Htok [Hreqs Hquiet]]]]]].
  rewrite Hout in Hrun. injection Hrun as <- Hres.
  split; [apply Htok; exact Hres |].
  split; [reflexivity |]. split; [reflexivity |]. split.
  - unfold allocations. simpl. rewrite filter_app, Hreqs, app_nil_r.
    reflexivity.
  - intros Hno. destruct (Hquiet Hno) as [-> ->].
    rewrite app_nil_r, Z.add_0_r. destruct s. reflexivity.
Qed.

(** X19.  For an account that has both a refresh token and an id
    token, the exchange falls back on the id token when the refresh
    request is answered with a status other than 200, or with a 200
    whose body has no access token; it does not fall back when the
    request itself fails or the 200 body is not JSON: the exception
    escapes although the id token is at hand. *)
Theorem token_exchange_fallback :
  forall (a : Account) (s : Sys) (rt it : string),
    refresh_token a = Some rt ->
    truthy rt = true ->
    id_token a = Some it ->
    truthy it = true ->
    run w me (_get_access_token_from_account a) s
    = (elapse (send s (PostRefreshToken rt))
         (latency w (List.length (wire s)) (PostRefreshToken rt)),
       Some (match answer w (List.length (wire s)) (PostRefreshToken rt) with
             | ConnectionFailed => Raised ConnectError
             | Http status body =>
                 if status =? 200 then
                   match body with
                   | None => Raised JSONDecodeError
                   | Some token_data =>
                       match j_access_token token_data with
                       | Some t => if truthy t then Ok t else Ok it
                       | None => Ok it
                       end
                   end
                 else Ok it
             end)).
Proof.
  intros a s rt it Hrt Hrtt Hit Hitt.
  pose proof (token_exchange_cases a s) as Hcases.
  rewrite Hrt, Hrtt in Hcases. cbn zeta in Hcases. rewrite Hcases.
  destruct (answer w (List.length (wire s)) (PostRefreshToken rt))
    as [| status body]; [reflexivity |].
  destruct (status =? 200).
  - destruct body as [token_data |]; [| reflexivity].
    destruct (j_access_token token_data) as [t |] eqn:Ht; cbn [truthy_opt].
    + destruct (truthy t) eqn:Htt; rewrite return_or_raise_run.
      * rewrite Htt. reflexivity.
      * unfold or_else. rewrite Hit. cbn [truthy_opt].
        rewrite Hitt, Hitt. reflexivity.
    + rewrite return_or_raise_run. unfold or_else.
      rewrite Hit. cbn [truthy_opt]. rewrite Hitt, Hitt. reflexivity.
  - rewrite return_or_raise_run, Hit, Hitt. reflexivity.
Qed.

End TokenExchange.

Section TokenExchangeInstances.
Import Py PoolAuth Props.

Lemma derived_token_is_never_empty_witness :
  truthy "id-token" = true
  /\ allocations (Samples.broker None 0) = 0%nat.
Proof.
  destruct (derived_token_is_never_empty Samples.pool 0 Samples.account
              (Samples.broker None 0) (Samples.broker None 0) "id-token"
              eq_refl)
    as [Htok [_ [_ [Halloc _]]]].
  split; assumption.
Defined.

(** The pool cannot be reached: the id token is not used. *)
Lemma token_exchange_fallback_witness :
  snd (run Samples.unreachable 0
         (_get_access_token_from_account MoreSamples.refreshable)
         (Samples.broker None 0))
  = Some (Raised ConnectError).
Proof.
  rewrite (token_exchange_fallback Samples.unreachable 0
             MoreSamples.refreshable (Samples.broker None 0)
             "refresh-token" "id-token" eq_refl eq_refl eq_refl eq_refl).
  reflexivity.
Defined.

End TokenExchangeInstances.

Section BrokerRuns.
Import Py PoolAuth Props MoreProps.

Variable is_token_expired : string -> Result bool.
Variable ACCOUNTS_PER_REQUEST : Z.
Variable update_env_file : string -> Result unit.
Variable w : World.
Variable me : nat.

(** The allocating part of an acquire call, to its end: it never blocks
    and gives the lock back; when it returns a token, the token is not
    empty, [update_env_file] has accepted it and the session just stored
    carries it, stamped with the clock reading at the end of the call;
    when it raises, the cached session is the one it found, unless it
    is [update_env_file] that raised, after the new session was
    stored. *)
Lemma allocate_session_outcome (m : Mem) (c : Z) (wr : list Request) :
  exists s' res,
    run w me (allocate_session ACCOUNTS_PER_REQUEST update_env_file)
      (mkSys m None c wr)
    = (s', Some res)
    /\ lock s' = None
    /\ match res with
       | Ok token =>
           truthy token = true
           /\ exists sid accs first,
                _current_session (mem s')
                = Some (mkSession sid accs (Some first) 0%nat token (clock s'))
       | Raised _ =>
           _current_session (mem s') = _current_session m
           \/ cached_before_env_failure update_env_file s'
       end.
Proof.
  unfold allocate_session. rewrite run_bind. simpl.
  destruct (answer w (List.length wr) (PostAllocate ACCOUNTS_PER_REQUEST))
    as [| status body]; simpl.
  { do 2 eexists. split; [reflexivity |]. split; [reflexivity |].
    left. reflexivity. }
  destruct (status =? 200); simpl;
    [| do 2 eexists; split; [reflexivity |]; split; [reflexivity |];
       left; reflexivity].
  destruct body as [data |]; simpl;
    [| do 2 eexists; split; [reflexivity |]; split; [reflexivity |];
       left; reflexivity].
  destruct (j_success data); simpl;
    [| do 2 eexists; split; [reflexivity |]; split; [reflexivity |];
       left; reflexivity].
  destruct (j_accounts data) as [| first others] eqn:Haccs; simpl;
    [do 2 eexists; split; [reflexivity |]; split; [reflexivity |];
     left; reflexivity |].
  rewrite run_bind.
  match goal with
  | |- context [run w me (_get_access_token_from_account first) ?s1] =>
      destruct (token_exchange_outcome w me first s1)
        as [reqs [dt [res [Hrun [Htok _]]]]];
      rewrite Hrun
  end.
  destruct res as [token | e]; simpl.
  - unfold write_env_file, call.
    destruct (update_env_file token) as [[] | err] eqn:Hupd; simpl.
    + do 2 eexists. split; [reflexivity |]. split; [reflexivity |].
      split; [apply Htok; reflexivity |]. do 3 eexists. reflexivity.
    + do 2 eexists. split; [reflexivity |]. split; [reflexivity |].
      right. unfold cached_before_env_failure. simpl.
      do 2 eexists. split; [reflexivity |]. simpl.
      split; [exact Hupd |]. split; [apply Htok; reflexivity |].
      split; reflexivity.
  - do 2 eexists. split; [reflexivity |]. split; [reflexivity |].
    left. reflexivity.
Qed.

(** An acquire call with the lock free, to its end. *)
Lemma acquire_outcome (m : Mem) (c : Z) (wr : list Request) :
  exists s' res,
    run w me
      (acquire_pool_access_token is_token_expired ACCOUNTS_PER_REQUEST
         update_env_file)
      (mkSys m None c wr)
    = (s', Some res)
    /\ lock s' = None
    /\ match res with
       | Ok token =>
           exists session,
             _current_session (mem s') = Some session
             /\ access_token session = token
       | Raised e =>
           e = RuntimeError "pool service error"
           /\ (_current_session (mem s') = _current_session m
               \/ cached_before_env_failure update_env_file s')
       end.
Proof.
  assert (Hmiss : no_reusable_lease is_token_expired (mkSys m None c wr) ->
            exists s' res,
              run w me
                (acquire_pool_access_token is_token_expired
                   ACCOUNTS_PER_REQUEST update_env_file)
                (mkSys m None c wr)
              = (s', Some res)
              /\ lock s' = None
              /\ match res with
                 | Ok token =>
                     exists session,
                       _current_session (mem s') = Some session
                       /\ access_token session = token
                 | Raised e =>
                     e = RuntimeError "pool service error"
                     /\ (_current_session (mem s') = _current_session m
                         \/ cached_before_env_failure update_env_file s')
                 end).
  { intros Hmiss. rewrite (acquire_miss_run _ _ _ _ _ _ _ _ Hmiss).
    destruct (allocate_session_outcome m c wr)
      as [s' [res [Hrun [Hlock Hres]]]].
    rewrite Hrun. destruct res as [token | e].
    - do 2 eexists. split; [reflexivity |]. split; [exact Hlock |].
      destruct Hres as [_ [sid [accs [first Hstored]]]].
      eexists. split; [exact Hstored | reflexivity].
    - do 2 eexists. split; [reflexivity |]. split; [exact Hlock |].
      split; [reflexivity | exact Hres]. }
  destruct (_current_session m) as [session |] eqn:Hcache.
  - destruct (lease_reusable is_token_expired c session) eqn:Hreuse.
    + rewrite run_advance.
      rewrite (acquire_hit_advance is_token_expired ACCOUNTS_PER_REQUEST
                 update_env_file me m c wr session Hcache Hreuse).
      do 2 eexists. split; [reflexivity |]. split; [reflexivity |].
      exists session. simpl. auto.
    + destruct (lease_stale is_token_expired c session) eqn:Hstale.
      * apply Hmiss. intros session' Hs'. simpl in Hs'.
        rewrite Hcache in Hs'. injection Hs' as <-. exact Hstale.
      * rewrite (acquire_check_crash is_token_expired ACCOUNTS_PER_REQUEST
                   update_env_file me w m c wr session Hcache Hreuse Hstale).
        do 2 eexists. split; [reflexivity |]. split; [reflexivity |].
        split; [reflexivity | left; exact Hcache].
  - apply Hmiss. intros session' Hs'. simpl in Hs'. rewrite Hcache in Hs'.
    discriminate.
Qed.


(** X21.  After an acquire call that had to allocate, every acquire call
    made within the next 1800 seconds returns the same token and sends
    nothing, provided the expiry check accepts the token. *)
Theorem acquire_after_allocation_reuses :
  forall (s s1 : Sys) (token : string) (dt : Z),
    lock s = None ->
    no_reusable_lease is_token_expired s ->
    run w me
      (acquire_pool_access_token is_token_expired ACCOUNTS_PER_REQUEST
         update_env_file) s
    = (s1, Some (Ok token)) ->
    is_token_expired token = Ok false ->
    0 <= dt <= 1800 ->
    exists s2,
      run w me
        (acquire_pool_access_token is_token_expired ACCOUNTS_PER_REQUEST
           update_env_file)
        (elapse s1 dt)
      = (s2, Some (Ok token))
      /\ wire s2 = wire s1
      /\ _current_session (mem s2) = _current_session (mem s1).
Proof.
  intros [m l c wr] s1 token dt Hlock Hmiss Hrun Hfresh Hdt.
  simpl in Hlock. subst l.
  rewrite (acquire_miss_run is_token_expired ACCOUNTS_PER_REQUEST
             update_env_file me w m c wr Hmiss) in Hrun.
  destruct (allocate_session_outcome m c wr)
    as [s' [res [Hrun' [Hlock Hres]]]].
  rewrite Hrun' in Hrun. destruct res as [token' | e]; [| discriminate].
  injection Hrun as -> ->.
  destruct Hres as [Htruthy [sid [accs [first Hstored]]]].
  destruct s1 as [m1 l1 c1 wr1]. simpl in Hlock, Hstored. subst l1.
  unfold elapse. cbn [mem lock clock wire].
  rewrite run_advance.
  rewrite (acquire_hit_advance is_token_expired ACCOUNTS_PER_REQUEST
             update_env_file me m1 (c1 + dt) wr1 _ Hstored).
  - eexists. split; [reflexivity |]. split; [reflexivity |].
    simpl. reflexivity.
  - unfold lease_reusable. cbn [created_at access_token].
    rewrite Htruthy, Hfresh.
    destruct (Z.leb_spec (c1 + dt - c1) 1800); [reflexivity | lia].
Qed.

End BrokerRuns.

Section BrokerRunInstances.
Import Py PoolAuth Props MoreProps.


(** A second call exactly 1800 seconds after the allocation. *)
Lemma acquire_after_allocation_reuses_witness :
  exists s1 s2,
    run Samples.pool 0
      (acquire_pool_access_token Samples.never_expired 1 Samples.writable)
      (Samples.broker None 0)
    = (s1, Some (Ok "id-token"))
    /\ run Samples.pool 0
         (acquire_pool_access_token Samples.never_expired 1 Samples.writable)
         (elapse s1 1800)
       = (s2, Some (Ok "id-token"))
    /\ wire s2 = wire s1.
Proof.
  assert (Hmiss : no_reusable_lease Samples.never_expired
                    (Samples.broker None 0)).
  { intros session Hcache. simpl in Hcache. discriminate Hcache. }
  destruct (acquire_after_allocation_reuses Samples.never_expired 1
              Samples.writable Samples.pool 0 (Samples.broker None 0) _
              "id-token" 1800
              eq_refl Hmiss eq_refl eq_refl
              (conj (proj1 (Z.leb_le 0 1800) eq_refl) (Z.le_refl 1800)))
    as [s2 [Hrun [Hwire _]]].
  eexists. exists s2. split; [reflexivity |]. split; [exact Hrun | exact Hwire].
Defined.

End BrokerRunInstances.

Section ReleaseRuns.
Import Py PoolAuth PoolAuthApi Props MoreProps.

Variable w : World.
Variable me : nat.



End ReleaseRuns.

Section ReleaseInstances.
Import Py PoolAuth PoolAuthApi Props.


End ReleaseInstances.

Section MarkRuns.
Import Py PoolAuth PoolAuthApi Props MoreProps.

Variable is_token_expired : string -> Result bool.
Variable ACCOUNTS_PER_REQUEST : Z.
Variable update_env_file : string -> Result unit.
Variable w : World.
Variable me : nat.

Lemma run_with_lock {A : Type} (c : Coro A) (s : Sys) :
  lock s = None ->
  run w me (with_session_lock c) s
  = match run w me c (set_lock s (Some me)) with
    | (s', Some r) => (set_lock s' None, Some r)
    | (s', None) => (s', None)
    end.
Proof.
  intros Hlock. unfold with_session_lock. cbn [run]. rewrite Hlock.
  rewrite run_try_finally.
  destruct (run w me c (set_lock s (Some me))) as [s' [[a | e] |]];
    reflexivity.
Qed.

(** The switch to the next account, to its end. *)
Lemma switch_run_cases (m : Mem) (c : Z) (wr : list Request) :
  match _current_session m with
  | None =>
      run w me (_switch_to_next_account update_env_file) (mkSys m None c wr)
      = (mkSys m None c wr, Some (Ok false))
  | Some session =>
      match nth_error (accounts session) (account_index session + 1) with
      | None =>
          run w me (_switch_to_next_account update_env_file)
            (mkSys m None c wr)
          = (mkSys m None c wr, Some (Ok false))
      | Some next =>
          exists reqs dt res,
            run w me (_get_access_token_from_account next)
              (mkSys m (Some me) c wr)
            = (mkSys m (Some me) (c + dt) (wr ++ reqs), Some res)
            /\ filter is_allocate reqs = []
            /\ run w me (_switch_to_next_account update_env_file)
                 (mkSys m None c wr)
               = match res with
                 | Ok token =>
                     match update_env_file token with
                     | Ok _ =>
                         (mkSys (rotated m session next token) None (c + dt)
                            (wr ++ reqs),
                          Some (Ok true))
                     | Raised _ =>
                         (mkSys (half_rotated m session next token) None
                            (c + dt) (wr ++ reqs),
                          Some (Ok false))
                     end
                 | Raised _ =>
                     (mkSys m None (c + dt) (wr ++ reqs), Some (Ok false))
                 end
      end
  end.
Proof.
  unfold _switch_to_next_account.
  destruct (_current_session m) as [session |] eqn:Hcache.
  - destruct (nth_error (accounts session) (account_index session + 1))
      as [next |] eqn:Hnext.
    + destruct (token_exchange_outcome w me next (mkSys m (Some me) c wr))
        as [reqs [dt [res [Hrun [_ [Hreqs _]]]]]].
      cbn [mem lock clock wire] in Hrun.
      exists reqs, dt, res. split; [exact Hrun |]. split; [exact Hreqs |].
      rewrite run_with_lock by reflexivity.
      cbn [run mem set_lock lock clock wire]. rewrite Hcache, Hnext.
      change (set_lock (mkSys m None c wr) (Some me))
        with (mkSys m (Some me) c wr).
      rewrite run_try_except, run_bind, Hrun.
      destruct res as [token | e]; [| reflexivity].
      cbn [run mem]. rewrite Hcache. unfold write_env_file, call.
      destruct (update_env_file token) as [[] | err]; destruct m; reflexivity.
    + rewrite run_with_lock by reflexivity.
      cbn [run mem set_lock lock clock wire]. rewrite Hcache, Hnext.
      reflexivity.
  - rewrite run_with_lock by reflexivity.
    cbn [run mem set_lock lock clock wire]. rewrite Hcache. reflexivity.
Qed.

(** The first block of the mark call: the email to report. *)
Lemma mark_lookup_run (m : Mem) (c : Z) (wr : list Request) :
  run w me
    (with_session_lock
       (Read (fun m =>
          match _current_session m with
          | None => Ret None
          | Some session =>
              match account session with
              | None => Ret None
              | Some account_ =>
                  if truthy_opt (email account_) then Ret (email account_)
                  else Ret None
              end
          end)))
    (mkSys m None c wr)
  = (mkSys m None c wr, Some (Ok (current_email m))).
Proof.
  rewrite run_with_lock by reflexivity. unfold current_email.
  cbn [run mem set_lock].
  destruct (_current_session m) as [session |]; [| reflexivity].
  destruct (account session) as [a |]; [| reflexivity].
  destruct (truthy_opt (email a)); reflexivity.
Qed.

(** The mark call with the lock free, to its end. *)
Lemma mark_run_cases (m : Mem) (c : Z) (wr : list Request) :
  run w me (mark_current_account_quota_exhausted update_env_file)
    (mkSys m None c wr)
  = match current_email m with
    | None => (mkSys m None c wr, Some (Ok false))
    | Some e =>
        let s1 := mkSys m None
                    (c + latency w (List.length wr) (PostMarkQuotaExhausted e))
                    (wr ++ [PostMarkQuotaExhausted e]) in
        if is_200 (answer w (List.length wr) (PostMarkQuotaExhausted e)) then
          match run w me (_switch_to_next_account update_env_file) s1 with
          | (s2, Some (Ok true)) => (s2, Some (Ok true))
          | (s2, Some (Ok false)) =>
              (set_mem s2 (forgotten (mem s2)), Some (Ok true))
          | (s2, Some (Raised _)) => (s2, Some (Ok false))
          | (s2, None) => (s2, None)
          end
        else (s1, Some (Ok false))
    end.
Proof.
  unfold mark_current_account_quota_exhausted.
  rewrite run_bind, mark_lookup_run.
  destruct (current_email m) as [e |]; [| reflexivity].
  rewrite run_try_except, run_bind. cbn [run post]. unfold is_200.
  cbn [wire send elapse mem lock clock].
  destruct (answer w (List.length wr) (PostMarkQuotaExhausted e))
    as [| status body]; [reflexivity |].
  cbn [run]. destruct (status =? 200); [| reflexivity].
  rewrite run_bind.
  destruct (run w me (_switch_to_next_account update_env_file) _)
    as [s2 [[[|] | e'] |]];
    reflexivity.
Qed.




(** X24.  When the pool does not confirm the mark (any status but 200,
    or no answer at all), the mark call returns [False] and leaves the
    cached lease as it is; [mark_quota_exhausted_and_get_new_token] then
    hands back the token of the very account that ran out of quota, as
    long as the lease can still be reused, without asking for a new
    allocation. *)
Theorem unconfirmed_mark_keeps_lease :
  forall (m : Mem) (c : Z) (wr : list Request) (session : Session) (e : string),
    _current_session m = Some session ->
    current_email m = Some e ->
    is_200 (answer w (List.length wr) (PostMarkQuotaExhausted e)) = false ->
    let c1 := c + latency w (List.length wr) (PostMarkQuotaExhausted e) in
    run w me (mark_current_account_quota_exhausted update_env_file)
      (mkSys m None c wr)
    = (mkSys m None c1 (wr ++ [PostMarkQuotaExhausted e]), Some (Ok false))
    /\ (lease_reusable is_token_expired c1 session = true ->
        run w me
          (mark_quota_exhausted_and_get_new_token is_token_expired
             ACCOUNTS_PER_REQUEST update_env_file) (mkSys m None c wr)
        = (mkSys (restored m session) None c1
             (wr ++ [PostMarkQuotaExhausted e]),
           Some (Ok (Some (access_token session))))).
Proof.
  intros m c wr session e Hcache Hemail Hno c1.
  assert (Hmark : run w me
                    (mark_current_account_quota_exhausted update_env_file)
                    (mkSys m None c wr)
                  = (mkSys m None c1 (wr ++ [PostMarkQuotaExhausted e]),
                     Some (Ok false))).
  { rewrite mark_run_cases, Hemail. cbn zeta. rewrite Hno. reflexivity. }
  split; [exact Hmark |]. intros Hreuse.
  unfold mark_quota_exhausted_and_get_new_token.
  rewrite run_bind, Hmark, run_try_except, run_bind, run_advance.
  rewrite (acquire_hit_advance is_token_expired ACCOUNTS_PER_REQUEST
             update_env_file me m c1 _ session Hcache Hreuse).
  reflexivity.
Qed.

(** X25.  When the pool confirms the mark and the lease has a further
    account whose token can be derived, what happens next is decided by
    [update_env_file], which the switch calls last.  If it accepts the
    new token, the broker moves on to that account inside the lease: the
    session id, the account list and the creation time of the cached
    session stay as they were (so the 30-minute age of the lease keeps
    running).  If it raises, the switch reports failure although it has
    rewritten the session already, and the mark forgets the whole lease.
    Either way the mark returns [True] and no allocation request is
    sent. *)
Theorem confirmed_mark_rotates :
  forall (m : Mem) (c : Z) (wr : list Request) (session : Session)
         (e : string) (next : Account) (s2 : Sys) (token : string),
    _current_session m = Some session ->
    current_email m = Some e ->
    is_200 (answer w (List.length wr) (PostMarkQuotaExhausted e)) = true ->
    nth_error (accounts session) (account_index session + 1) = Some next ->
    run w me (_get_access_token_from_account next)
      (mkSys m (Some me)
         (c + latency w (List.length wr) (PostMarkQuotaExhausted e))
         (wr ++ [PostMarkQuotaExhausted e]))
    = (s2, Some (Ok token)) ->
    (update_env_file token = Ok tt ->
     run w me (mark_current_account_quota_exhausted update_env_file)
       (mkSys m None c wr)
     = (mkSys (rotated m session next token) None (clock s2) (wire s2),
        Some (Ok true)))
    /\ (forall err,
          update_env_file token = Raised err ->
          run w me (mark_current_account_quota_exhausted update_env_file)
            (mkSys m None c wr)
          = (mkSys (forgotten m) None (clock s2) (wire s2), Some (Ok true)))
    /\ allocations s2 = allocations (mkSys m None c wr).
Proof.
  intros m c wr session e next s2 token Hcache Hemail Hok Hnext Hx.
  rewrite mark_run_cases, Hemail. cbn zeta. rewrite Hok.
  match goal with
  | |- context [run w me (_switch_to_next_account update_env_file)
                  (mkSys m None ?c1 ?wr1)] =>
      pose proof (switch_run_cases m c1 wr1) as Hsw
  end.
  rewrite Hcache, Hnext in Hsw.
  destruct Hsw as [reqs [dt [res [Hx' [Hreqs Hsw]]]]].
  rewrite Hx in Hx'. injection Hx' as -> <-.
  rewrite Hsw. split; [| split].
  - intros Hupd. rewrite Hupd. reflexivity.
  - intros err Hupd. rewrite Hupd. reflexivity.
  - unfold allocations. cbn [wire].
    rewrite !filter_app, Hreqs. simpl. rewrite !app_nil_r. reflexivity.
Qed.

(** X26.  When the pool confirms the mark and the lease cannot move on
    (the current account is its last one, or the token of the next one
    cannot be derived), the broker forgets the whole lease, further
    accounts included, and still returns [True]; the acquire call that
    follows asks the pool for a new allocation. *)
Theorem confirmed_mark_drops_lease :
  forall (m : Mem) (c : Z) (wr : list Request) (session : Session) (e : string),
    _current_session m = Some session ->
    current_email m = Some e ->
    is_200 (answer w (List.length wr) (PostMarkQuotaExhausted e)) = true ->
    (nth_error (accounts session) (account_index session + 1) = None
     \/ exists next s2 err,
          nth_error (accounts session) (account_index session + 1) = Some next
          /\ run w me (_get_access_token_from_account next)
               (mkSys m (Some me)
                  (c + latency w (List.length wr) (PostMarkQuotaExhausted e))
                  (wr ++ [PostMarkQuotaExhausted e]))
             = (s2, Some (Raised err))) ->
    exists s',
      run w me (mark_current_account_quota_exhausted update_env_file)
        (mkSys m None c wr)
      = (s', Some (Ok true))
      /\ mem s' = forgotten m
      /\ lock s' = None
      /\ exists rest,
           wire (fst (run w me
                        (mark_quota_exhausted_and_get_new_token
                           is_token_expired ACCOUNTS_PER_REQUEST
                           update_env_file)
                        (mkSys m None c wr)))
           = wire s' ++ PostAllocate ACCOUNTS_PER_REQUEST :: rest.
Proof.
  intros m c wr session e Hcache Hemail Hok Hstuck.
  assert (Hmark : exists c' wr',
            run w me (mark_current_account_quota_exhausted update_env_file)
              (mkSys m None c wr)
            = (mkSys (forgotten m) None c' wr', Some (Ok true))).
  { rewrite mark_run_cases, Hemail. cbn zeta. rewrite Hok.
    match goal with
    | |- context [run w me (_switch_to_next_account update_env_file)
                    (mkSys m None ?c1 ?wr1)] =>
        pose proof (switch_run_cases m c1 wr1) as Hsw
    end.
    rewrite Hcache in Hsw.
    destruct Hstuck as [Hlast | [next [s2 [err [Hnext Hx]]]]].
    - rewrite Hlast in Hsw. rewrite Hsw. do 2 eexists. reflexivity.
    - rewrite Hnext in Hsw.
      destruct Hsw as [reqs [dt [res [Hx' [_ Hsw]]]]].
      rewrite Hx in Hx'. injection Hx' as -> <-.
      rewrite Hsw. do 2 eexists. reflexivity. }
  destruct Hmark as [c' [wr' Hmark]].
  eexists. split; [exact Hmark |]. split; [reflexivity |].
  split; [reflexivity |].
  unfold mark_quota_exhausted_and_get_new_token.
  rewrite run_bind, Hmark, run_try_except, run_bind.
  assert (Hmiss : no_reusable_lease is_token_expired
                    (mkSys (forgotten m) None c' wr'))
    by (intros session' Hs'; discriminate Hs').
  rewrite (acquire_miss_run is_token_expired ACCOUNTS_PER_REQUEST
             update_env_file me w _ c' wr' Hmiss).
  destruct (allocate_session_run ACCOUNTS_PER_REQUEST update_env_file me w
              (forgotten m) c' wr')
    as [[rest Hwire] _].
  exists rest. cbn [wire].
  destruct (run w me (allocate_session ACCOUNTS_PER_REQUEST update_env_file)
              (mkSys (forgotten m) None c' wr')) as [s3 [[token | err] |]];
    exact Hwire.
Qed.

End MarkRuns.

Section MarkInstances.
Import Py PoolAuth PoolAuthApi Props MoreProps.


(** The pool cannot be reached: the caller gets the old token back. *)
Lemma unconfirmed_mark_keeps_lease_witness :
  snd (run Samples.unreachable 0
         (mark_quota_exhausted_and_get_new_token Samples.never_expired 1
            Samples.writable)
         (Samples.broker (Some (Samples.lease (Some "s1") 0)) 10))
  = Some (Ok (Some "id-token")).
Proof.
  exact (f_equal snd
           (proj2 (unconfirmed_mark_keeps_lease Samples.never_expired 1
                     Samples.writable Samples.unreachable 0
                     (mem (Samples.broker
                             (Some (Samples.lease (Some "s1") 0)) 10))
                     10 [] (Samples.lease (Some "s1") 0) "a@warp.dev"
                     eq_refl eq_refl eq_refl) eq_refl)).
Defined.

(** The same confirmed mark on a lease of two accounts, with an env file
    that can be written and with one that cannot. *)
Lemma confirmed_mark_rotates_witness :
  (exists s',
     run Samples.pool 0
       (mark_current_account_quota_exhausted Samples.writable)
       (Samples.broker (Some MoreSamples.double_lease) 10)
     = (s', Some (Ok true))
     /\ _current_session (mem s')
        = Some (mkSession (Some "s1")
                  [Samples.account; MoreSamples.second_account]
                  (Some MoreSamples.second_account) 1%nat "id-token-3" 0))
  /\ exists s',
       run Samples.pool 0
         (mark_current_account_quota_exhausted MoreSamples.read_only)
         (Samples.broker (Some MoreSamples.double_lease) 10)
       = (s', Some (Ok true))
       /\ _current_session (mem s') = None.
Proof.
  split.
  - destruct (confirmed_mark_rotates Samples.writable Samples.pool 0
                (mem (Samples.broker (Some MoreSamples.double_lease) 10))
                10 [] MoreSamples.double_lease "a@warp.dev"
                MoreSamples.second_account _ "id-token-3"
                eq_refl eq_refl eq_refl eq_refl eq_refl)
      as [Hrun _].
    eexists. split; [exact (Hrun eq_refl) |]. reflexivity.
  - destruct (confirmed_mark_rotates MoreSamples.read_only Samples.pool 0
                (mem (Samples.broker (Some MoreSamples.double_lease) 10))
                10 [] MoreSamples.double_lease "a@warp.dev"
                MoreSamples.second_account _ "id-token-3"
                eq_refl eq_refl eq_refl eq_refl eq_refl)
      as [_ [Hrun _]].
    eexists. split; [exact (Hrun _ eq_refl) |]. reflexivity.
Defined.

Lemma confirmed_mark_drops_lease_witness :
  exists s',
    run Samples.pool 0
      (mark_current_account_quota_exhausted Samples.writable)
      (Samples.broker (Some (Samples.lease (Some "s1") 0)) 10)
    = (s', Some (Ok true))
    /\ _current_session (mem s') = None.
Proof.
  destruct (confirmed_mark_drops_lease Samples.never_expired 1
              Samples.writable Samples.pool 0
              (mem (Samples.broker (Some (Samples.lease (Some "s1") 0)) 10))
              10 [] (Samples.lease (Some "s1") 0) "a@warp.dev"
              eq_refl eq_refl eq_refl (or_introl eq_refl))
    as [s' [Hrun [Hmem _]]].
  exists s'. split; [exact Hrun |]. rewrite Hmem. reflexivity.
Defined.

End MarkInstances.

Section EntryPoints.
Import Py PoolAuth PoolAuthApi Props MoreProps.

Variable is_token_expired : string -> Result bool.
Variable ACCOUNTS_PER_REQUEST : Z.
Variable update_env_file : string -> Result unit.
Variable w : World.
Variable me : nat.

(** X27.  [acquire_pool_or_anonymous_token] takes the anonymous path
    exactly when the pool is switched off or the pool call fails: with
    [USE_POOL_SERVICE] on, a token from the pool is returned as it is
    and the anonymous path is not run; a failure of the pool call never
    reaches the caller, the anonymous path is run instead, with the lock
    free and the cached session as the call found it, or, when it is
    [update_env_file] that made the pool call fail, with the newly
    allocated session cached. *)
Theorem anonymous_path_only_when_pool_fails :
  forall (USE_POOL_SERVICE : bool) (anonymous : Coro string) (s : Sys),
    lock s = None ->
    exists s' res,
      run w me
        (acquire_pool_access_token is_token_expired ACCOUNTS_PER_REQUEST
           update_env_file) s
      = (s', Some res)
      /\ run w me
           (acquire_pool_or_anonymous_token is_token_expired
              ACCOUNTS_PER_REQUEST update_env_file USE_POOL_SERVICE
              anonymous) s
         = (if USE_POOL_SERVICE then
              match res with
              | Ok token => (s', Some (Ok token))
              | Raised _ => run w me anonymous s'
              end
            else run w me anonymous s)
      /\ (forall e,
            res = Raised e ->
            lock s' = None
            /\ (_current_session (mem s') = _current_session (mem s)
                \/ cached_before_env_failure update_env_file s')).
Proof.
  intros flag anonymous [m l c wr] Hlock. simpl in Hlock. subst l.
  destruct (acquire_outcome is_token_expired ACCOUNTS_PER_REQUEST
              update_env_file w me m c wr)
    as [s' [res [Hrun [Hlock Hres]]]].
  exists s', res. split; [exact Hrun |]. split.
  - unfold acquire_pool_or_anonymous_token. destruct flag; [| reflexivity].
    rewrite run_bind, run_try_except, run_bind, Hrun.
    destruct res as [token | e]; reflexivity.
  - intros e ->. destruct Hres as [_ Hcache]. auto.
Qed.

End EntryPoints.

Section EventLoop.
Import Py PoolAuth PoolAuthApi Props MoreProps.

(** While a coroutine is blocked, no event but the passing of time
    changes anything. *)
Lemma schedule_blocked {A : Type} (w : World) (evs : list Event) :
  forall (s : Sys) (pool : list (Thread A)),
    existsb blocked pool = true ->
    mem (fst (schedule w evs (s, pool))) = mem s
    /\ lock (fst (schedule w evs (s, pool))) = lock s
    /\ wire (fst (schedule w evs (s, pool))) = wire s
    /\ snd (schedule w evs (s, pool)) = pool.
Proof.
  unfold schedule.
  induction evs as [| ev evs IH]; intros s pool Hblocked; simpl; [auto |].
  destruct ev as [i | dt].
  - rewrite Hblocked. apply IH. exact Hblocked.
  - destruct (IH (elapse s dt) pool Hblocked) as [Hm [Hl [Hw Hp]]].
    auto.
Qed.

Variable is_token_expired : string -> Result bool.
Variable ACCOUNTS_PER_REQUEST : Z.
Variable update_env_file : string -> Result unit.
Variable w : World.

(** X28.  A coroutine that awaits acquire-token while a release is
    waiting for its answer hangs the process.  The release holds
    [_session_lock] across its request; the lock is a [threading.Lock],
    so the acquire call blocks inside it on the thread of the event
    loop; from then on, whatever the loop is asked to do, nobody is
    resumed: the release never gets its answer, the lock is never given
    back, the cached session is never cleared and nothing more is
    sent. *)
Theorem acquire_during_release_hangs :
  forall (m : Mem) (c : Z) (wr : list Request) (session : Session)
         (sid : string) (evs : list Event),
    _current_session m = Some session ->
    session_id session = Some sid ->
    truthy sid = true ->
    exists k,
      snd (schedule w (Run 0 :: Run 1 :: evs)
             (mkSys m None c wr,
              [Ready release_current_session;
               Ready (acquire_pool_access_token is_token_expired
                        ACCOUNTS_PER_REQUEST update_env_file ;; Ret tt)]))
      = [Waiting (List.length wr) (PostRelease sid) k;
         Blocked (acquire_pool_access_token is_token_expired
                    ACCOUNTS_PER_REQUEST update_env_file ;; Ret tt)]
      /\ mem (fst (schedule w (Run 0 :: Run 1 :: evs)
                     (mkSys m None c wr,
                      [Ready release_current_session;
                       Ready (acquire_pool_access_token is_token_expired
                                ACCOUNTS_PER_REQUEST update_env_file ;;
                              Ret tt)])))
         = m
      /\ lock (fst (schedule w (Run 0 :: Run 1 :: evs)
                      (mkSys m None c wr,
                       [Ready release_current_session;
                        Ready (acquire_pool_access_token is_token_expired
                                 ACCOUNTS_PER_REQUEST update_env_file ;;
                               Ret tt)])))
         = Some 0%nat
      /\ wire (fst (schedule w (Run 0 :: Run 1 :: evs)
                      (mkSys m None c wr,
                       [Ready release_current_session;
                        Ready (acquire_pool_access_token is_token_expired
                                 ACCOUNTS_PER_REQUEST update_env_file ;;
                               Ret tt)])))
         = wr ++ [PostRelease sid].
Proof.
  intros m c wr session sid evs Hcache Hsid Htruthy.
  destruct (release_first_stretch 0%nat m c wr session sid Hcache Hsid Htruthy)
    as [k Hk].
  exists k.
  set (caller := acquire_pool_access_token is_token_expired
                   ACCOUNTS_PER_REQUEST update_env_file ;; Ret tt).
  assert (Hstep : schedule w (Run 0 :: Run 1 :: evs)
                    (mkSys m None c wr,
                     [Ready release_current_session; Ready caller])
                  = schedule w evs
                      (mkSys m (Some 0%nat) c (wr ++ [PostRelease sid]),
                       [Waiting (List.length wr) (PostRelease sid) k;
                        Blocked caller])).
  { unfold schedule.
    cbn [fold_left schedule_step nth_error resume existsb blocked orb].
    rewrite Hk.
    cbn [fold_left schedule_step nth_error resume existsb blocked orb set_nth].
    reflexivity. }
  rewrite Hstep.
  destruct (schedule_blocked w evs
              (mkSys m (Some 0%nat) c (wr ++ [PostRelease sid]))
              [Waiting (List.length wr) (PostRelease sid) k; Blocked caller]
              eq_refl)
    as [Hm [Hl [Hw Hp]]].
  auto.
Qed.

End EventLoop.

Section EntryPointInstances.
Import Py PoolAuth PoolAuthApi Props MoreProps.

(** The pool cannot be reached: the anonymous token is what comes back. *)
Lemma anonymous_path_only_when_pool_fails_witness :
  snd (run Samples.unreachable 0
         (acquire_pool_or_anonymous_token Samples.never_expired 1
            Samples.writable true MoreSamples.anonymous)
         (Samples.broker None 0))
  = Some (Ok "anonymous-token").
Proof.
  destruct (anonymous_path_only_when_pool_fails Samples.never_expired 1
              Samples.writable Samples.unreachable 0 true
              MoreSamples.anonymous (Samples.broker None 0) eq_refl)
    as [s' [res [Hrun [Hentry _]]]].
  rewrite Hentry. vm_compute in Hrun. injection Hrun as <- <-. reflexivity.
Defined.

(** The release is answered at once by the sample pool, but the answer
    is never read: after any number of further turns the lock is still
    held and the session still cached. *)
Lemma acquire_during_release_hangs_witness :
  lock (fst (schedule Samples.pool
               [Run 0; Run 1; Elapse 60; Run 0; Run 1; Run 0]
               (Samples.broker (Some (Samples.lease (Some "s1") 0)) 10,
                [Ready release_current_session;
                 Ready (acquire_pool_access_token Samples.never_expired 1
                          Samples.writable ;; Ret tt)])))
  = Some 0%nat.
Proof.
  destruct (acquire_during_release_hangs Samples.never_expired 1
              Samples.writable Samples.pool
              (mem (Samples.broker (Some (Samples.lease (Some "s1") 0)) 10))
              10 [] (Samples.lease (Some "s1") 0) "s1"
              [Elapse 60; Run 0; Run 1; Run 0]
              eq_refl eq_refl eq_refl)
    as [k [_ [_ [Hlock _]]]].
  exact Hlock.
Defined.

End EntryPointInstances.

Section BrokerAndService.
Import Py PoolAuth Props MoreProps Deployment.

Lemma current_email_truthy (m : Mem) (e : string) :
  current_email m = Some e -> truthy e = true.
Proof.
  unfold current_email.
  destruct (_current_session m) as [session |]; [| discriminate].
  destruct (account session) as [a |]; [| discriminate].
  destruct (email a) as [e' |]; simpl; [| discriminate].
  destruct (truthy e') eqn:Ht; [| discriminate].
  intros H. injection H as <-. exact Ht.
Qed.

(** X29.  The broker reads only the status code of the mark answer.
    For an email the pool service does not know, the service changes no
    row and answers [success = false], with status 200; the broker takes
    this for a confirmation, returns [True] and gives up the current
    account (it moves on inside the lease or forgets the lease), although
    no account has been marked. *)
Theorem broker_takes_refused_mark_for_done :
  forall (db : Accounts.Sqlite3) (now : datetime) (t : Accounts.Table)
         (delay : Z) (me : nat) (m : Mem) (c : Z) (wr : list Request)
         (session : Session) (e : string)
         (update_env_file : string -> Result unit),
    _current_session m = Some session ->
    current_email m = Some e ->
    ~ In e (emails t) ->
    PoolService.mark_quota_exhausted db now [("email", e)] t
    = (PoolService.Returned (PoolService.mkMarkResponse false), t)
    /\ exists s',
         run (mark_service db now t delay) me
           (mark_current_account_quota_exhausted update_env_file)
           (mkSys m None c wr)
         = (s', Some (Ok true))
         /\ _current_session (mem s') <> Some session.
Proof.
  intros db now t delay me m c wr session e upd Hcache Hemail Hunknown.
  pose proof (current_email_truthy m e Hemail) as Htruthy.
  assert (Hservice :
            PoolService.mark_quota_exhausted db now [("email", e)] t
            = (PoolService.Returned (PoolService.mkMarkResponse false), t)).
  { unfold PoolService.mark_quota_exhausted. simpl. rewrite Htruthy. simpl.
    rewrite (mark_unknown_email db now e t Hunknown). reflexivity. }
  split; [exact Hservice |].
  rewrite mark_run_cases, Hemail. cbn zeta.
  assert (Hok : is_200 (answer (mark_service db now t delay) (List.length wr)
                          (PostMarkQuotaExhausted e)) = true).
  { unfold mark_service. cbn [answer]. rewrite Hservice. reflexivity. }
  rewrite Hok.
  match goal with
  | |- context [run ?w0 me (_switch_to_next_account upd)
                   (mkSys m None ?c1 ?wr1)] =>
      pose proof (switch_run_cases upd w0 me m c1 wr1) as Hsw
  end.
  rewrite Hcache in Hsw.
  destruct (nth_error (accounts session) (account_index session + 1))
    as [next |].
  - destruct Hsw as [reqs [dt [res [_ [_ Hsw]]]]]. rewrite Hsw.
    destruct res as [token | err].
    + destruct (upd token) as [[] | err'].
      * eexists. split; [reflexivity |]. cbn [mem rotated _current_session].
        intros Heq. injection Heq as Heq.
        apply (f_equal account_index) in Heq. simpl in Heq. lia.
      * eexists. split; [reflexivity |]. discriminate.
    + eexists. split; [reflexivity |]. discriminate.
  - rewrite Hsw. eexists. split; [reflexivity |]. discriminate.
Qed.

Lemma broker_takes_refused_mark_for_done_witness :
  exists s',
    run (mark_service Accounts.healthy 7 [] 1) 0
      (mark_current_account_quota_exhausted Samples.writable)
      (Samples.broker (Some (Samples.lease (Some "s1") 0)) 10)
    = (s', Some (Ok true))
    /\ _current_session (mem s') <> Some (Samples.lease (Some "s1") 0).
Proof.
  exact (proj2 (broker_takes_refused_mark_for_done Accounts.healthy 7 [] 1 0
                  (mem (Samples.broker (Some (Samples.lease (Some "s1") 0)) 10))
                  10 [] (Samples.lease (Some "s1") 0) "a@warp.dev"
                  Samples.writable eq_refl eq_refl (fun H => H))).
Defined.

End BrokerAndService.
